(** * GitDB: a shallow embedding of the transaction, query, lock, codec and
    history code, with the properties of the specification settled on it.

    Sources embedded here:
    - [core/GitDB]           (create, read, readById, update, delete,
                              deleteCollection, bulkOperation, sort, clearCache,
                              select, where, evaluateWhereClause,
                              evaluateOperator, join, readDataFile,
                              writeDataFile, export, import)
    - [utils/LockManager]    (acquireLock, releaseLock)
    - [utils/ValidationManager] (validateItem)
    - [storage/LocalStorage], [storage/GitHubStorage] (read, write, getFileInfo)
    - [formats/JSONFormat], [formats/CSVFormat] (parse, serialize)
    - [utils/HistoryManager] (getRecordHistory, analyzeRecordHistory,
                              hasRecordChanged, getHistoryStats,
                              getCollectionTimeline)
    - [utils/BackupManager]  (cleanupOldBackups)

    Conventions of the model.
    - A JavaScript value is a term of [value]; numbers are the integers
      (fractions, NaN and the infinities are outside the fragment), strings
      are sequences of code units below 256.  The arithmetic of
      [getHistoryStats] is done on binary64 numbers.
    - A JavaScript object is an association list in insertion order
      ([Object.keys], [JSON.stringify] and the spread syntax observe it);
      only its own properties are modelled, not those it inherits from
      [Object.prototype]: [Obj.inherited] lists the names at which an
      object that has no such property of its own answers with an inherited
      member, and [JSON.plain] describes the values on which the model and
      the platform agree in every respect (numbers that a binary64 number
      holds exactly, member names that are no array index and that
      [Object.prototype] does not define).
    - The clock, the identifier generator and the answers of the file system
      or of the remote API are inputs of the functions that consult them. *)

From Stdlib Require Import ZArith QArith Qround Qminmax Lia Bool Ascii String List.
From Stdlib Require Import DecimalString DecimalN.
From Corelib Require PrimFloat SpecFloat FloatOps.
From stdpp Require Import base option list strings gmap.

Local Open Scope Z_scope.
Local Open Scope stdpp_scope.

(* ===================================================================== *)
(** ** JavaScript values and objects *)
(* ===================================================================== *)

(** A JavaScript object used as a record or as a map: its own enumerable
    string-keyed properties, in insertion order. *)
Module Obj.
Section Assoc.
Context {A : Type}.

(** the property, when the object has it *)
Fixpoint lookup (k : string) (o : list (string * A)) : option A :=
  match o with
  | [] => None
  | (k', v) :: o' => if String.eqb k k' then Some v else lookup k o'
  end.

(** [o[k] = v]: an existing property keeps its place, a new one is added
    at the end. *)
Fixpoint set (k : string) (v : A) (o : list (string * A)) : list (string * A) :=
  match o with
  | [] => [(k, v)]
  | (k', v') :: o' =>
      if String.eqb k k' then (k, v) :: o' else (k', v') :: set k v o'
  end.

(** [delete o[k]] *)
Fixpoint del (k : string) (o : list (string * A)) : list (string * A) :=
  match o with
  | [] => []
  | (k', v') :: o' =>
      if String.eqb k k' then o' else (k', v') :: del k o'
  end.

(** [{...target, ...src}]: the properties of [src] are assigned onto
    [target] in order. *)
Definition spread (target src : list (string * A)) : list (string * A) :=
  fold_left (fun acc kv => set (fst kv) (snd kv) acc) src target.

End Assoc.

(** the names that [Object.prototype] defines.  On an object without a
    property of its own under such a name, [o[k]] is the inherited member
    (a function of the platform; the prototype itself for [__proto__]) and
    not [undefined], and [o['__proto__'] = v] calls the inherited setter
    and adds no property. *)
Definition inherited (k : string) : bool :=
  existsb (String.eqb k)
    ["constructor"; "hasOwnProperty"; "isPrototypeOf"; "propertyIsEnumerable";
     "toLocaleString"; "toString"; "valueOf"; "__proto__";
     "__defineGetter__"; "__defineSetter__"; "__lookupGetter__";
     "__lookupSetter__"].

End Obj.

Module JS.

#[local] Unset Elimination Schemes.
Inductive value : Type :=
| VUndefined
| VNull
| VBool (b : bool)
| VNum (n : Z)
| VStr (s : string)
| VArr (elems : list value)
| VObj (fields : list (string * value)).
#[local] Set Elimination Schemes.

Abbreviation obj := (list (string * value)).

(** [o.hasOwnProperty(k)] *)
Definition has (k : string) (o : obj) : bool :=
  match Obj.lookup k o with Some _ => true | None => false end.

(** [o[k]]: [undefined] when the property is absent. *)
Definition get (k : string) (o : obj) : value :=
  match Obj.lookup k o with Some v => v | None => VUndefined end.

(** [Object.keys(o)] *)
Definition keys (o : obj) : list string := map fst o.

(** ToBoolean *)
Definition truthy (v : value) : bool :=
  match v with
  | VUndefined | VNull => false
  | VBool b => b
  | VNum n => negb (n =? 0)
  | VStr s => negb (String.eqb s EmptyString)
  | VArr _ | VObj _ => true
  end.

(** [typeof v] *)
Definition typeof (v : value) : string :=
  match v with
  | VUndefined => "undefined"
  | VNull | VArr _ | VObj _ => "object"
  | VBool _ => "boolean"
  | VNum _ => "number"
  | VStr _ => "string"
  end.

(** [a === b].  Arrays and objects are compared by identity in JavaScript;
    two values that reach a comparison through different reads of the data
    file are never the same object, so the comparison is [false] on them. *)
Definition strict_eq (a b : value) : bool :=
  match a, b with
  | VUndefined, VUndefined => true
  | VNull, VNull => true
  | VBool x, VBool y => Bool.eqb x y
  | VNum x, VNum y => x =? y
  | VStr x, VStr y => String.eqb x y
  | _, _ => false
  end.

(** *** Conversions used by the relational operators *)

(** decimal rendering of an integer (Number::toString on the fragment) *)
Definition dec (n : Z) : string :=
  (if n <? 0 then "-" else EmptyString)
    +:+ NilZero.string_of_uint (N.to_uint (Z.abs_N n)).

(** [l.join(sep)] on strings *)
Fixpoint join (sep : string) (l : list string) : string :=
  match l with
  | [] => EmptyString
  | [x] => x
  | x :: l' => x +:+ sep +:+ join sep l'
  end.

(** white space and line terminators among the code units below 256 *)
Definition is_space (c : ascii) : bool :=
  match N_of_ascii c with
  | 9%N | 10%N | 11%N | 12%N | 13%N | 32%N | 160%N => true
  | _ => false
  end.

Fixpoint trim_start (s : string) : string :=
  match s with
  | EmptyString => EmptyString
  | String c s' => if is_space c then trim_start s' else s
  end.

Fixpoint trim_end (s : string) : string :=
  match s with
  | EmptyString => EmptyString
  | String c s' =>
      match trim_end s' with
      | EmptyString => if is_space c then EmptyString else String c EmptyString
      | r => String c r
      end
  end.

(** [s.trim()] *)
Definition trim (s : string) : string := trim_end (trim_start s).

Definition lower_char (c : ascii) : ascii :=
  let n := N_of_ascii c in
  if ((65 <=? n) && (n <=? 90))%N
     || ((192 <=? n) && (n <=? 222) && negb (n =? 215))%N
  then ascii_of_N (n + 32) else c.

(** [s.toLowerCase()] *)
Fixpoint toLowerCase (s : string) : string :=
  match s with
  | EmptyString => EmptyString
  | String c s' => String (lower_char c) (toLowerCase s')
  end.

Definition digit_of (c : ascii) : option Z :=
  let n := N_of_ascii c in
  if ((48 <=? n) && (n <=? 57))%N then Some (Z.of_N n - 48) else None.

(** the value of a non-empty string of decimal digits *)
Fixpoint digits_value (acc : Z) (s : string) : option Z :=
  match s with
  | EmptyString => Some acc
  | String c s' =>
      match digit_of c with
      | Some d => digits_value (10 * acc + d) s'
      | None => None
      end
  end.

(** StringToNumber on the integer fragment: the empty or blank string is 0,
    an optionally signed string of digits is its value, anything else is
    NaN ([None]) *)
Definition string_to_number (s : string) : option Z :=
  match trim s with
  | EmptyString => Some 0
  | String "-" (String c r) => option_map Z.opp (digits_value 0 (String c r))
  | String "+" (String c r) => digits_value 0 (String c r)
  | t => digits_value 0 t
  end.

(** ToString *)
Fixpoint to_string (v : value) : string :=
  match v with
  | VUndefined => "undefined"
  | VNull => "null"
  | VBool b => if b then "true" else "false"
  | VNum n => dec n
  | VStr s => s
  | VArr l =>
      join "," (map (fun e => match e with
                              | VUndefined | VNull => EmptyString
                              | _ => to_string e
                              end) l)
  | VObj _ => "[object Object]"
  end.

(** ToPrimitive: arrays and objects go through [toString] *)
Definition to_primitive (v : value) : value :=
  match v with
  | VArr _ | VObj _ => VStr (to_string v)
  | _ => v
  end.

(** ToNumber; [None] is NaN *)
Definition to_number (v : value) : option Z :=
  match to_primitive v with
  | VUndefined => None
  | VNull => Some 0
  | VBool b => Some (if b then 1 else 0)
  | VNum n => Some n
  | VStr s => string_to_number s
  | VArr _ | VObj _ => None
  end.

(** [a < b]: two strings are compared by code units, anything else as
    numbers, and a comparison with NaN is false *)
Definition lt (a b : value) : bool :=
  match to_primitive a, to_primitive b with
  | VStr x, VStr y => String.ltb x y
  | pa, pb =>
      match to_number pa, to_number pb with
      | Some x, Some y => x <? y
      | _, _ => false
      end
  end.

(** [a > b] *)
Definition gt (a b : value) : bool := lt b a.

(** [Array.prototype.sort(cmp)]: the sort is stable; [cmp a b <= 0] keeps
    [a] before [b].  (For a comparator that is not a consistent order the
    result depends on the engine; this is the order an insertion sort
    gives.) *)
Fixpoint sort_insert {A} (cmp : A -> A -> Z) (x : A) (l : list A) : list A :=
  match l with
  | [] => [x]
  | y :: l' => if cmp x y <=? 0 then x :: y :: l' else y :: sort_insert cmp x l'
  end.

Fixpoint sort {A} (cmp : A -> A -> Z) (l : list A) : list A :=
  match l with
  | [] => []
  | x :: l' => sort_insert cmp x (sort cmp l')
  end.

(** the array index that a property name denotes *)
Definition index_of (k : string) : option nat :=
  match k with
  | EmptyString => None
  | _ =>
      match digits_value 0 k with
      | Some n => if String.eqb (dec n) k then Some (Z.to_nat n) else None
      | None => None
      end
  end.

Fixpoint chars (s : string) : list value :=
  match s with
  | EmptyString => []
  | String c s' => VStr (String c EmptyString) :: chars s'
  end.

(** [v[k]] for a data property: [None] is the TypeError raised on [null]
    and [undefined] *)
Definition prop (v : value) (k : string) : option value :=
  match v with
  | VUndefined | VNull => None
  | VObj fs => Some (get k fs)
  | VArr l =>
      if String.eqb k "length" then Some (VNum (Z.of_nat (length l)))
      else match index_of k with
           | Some i => Some (nth i l VUndefined)
           | None => Some VUndefined
           end
  | VStr s =>
      if String.eqb k "length" then Some (VNum (Z.of_nat (String.length s)))
      else match index_of k with
           | Some i => Some (nth i (chars s) VUndefined)
           | None => Some VUndefined
           end
  | VBool _ | VNum _ => Some VUndefined
  end.

(** [Object.keys(v)]: [None] is the TypeError raised on [null] and
    [undefined] *)
Definition own_keys (v : value) : option (list string) :=
  match v with
  | VUndefined | VNull => None
  | VObj fs => Some (keys fs)
  | VArr l => Some (map (fun i => dec (Z.of_nat i)) (seq 0 (length l)))
  | VStr s => Some (map (fun i => dec (Z.of_nat i)) (seq 0 (String.length s)))
  | VBool _ | VNum _ => Some []
  end.

(** [s.split(sep)] for a separator that is not empty; [skip] counts the
    characters of a separator still to pass over, [cur] holds the current
    piece in reverse *)
Fixpoint split_go (sep : string) (skip : nat) (cur : string) (s : string) : list string :=
  match s with
  | EmptyString => [String.rev cur]
  | String c s' =>
      match skip with
      | S k => split_go sep k cur s'
      | O =>
          if String.prefix sep s
          then String.rev cur :: split_go sep (String.length sep - 1) EmptyString s'
          else split_go sep 0 (String c cur) s'
      end
  end.

Definition split (sep : string) (s : string) : list string :=
  split_go sep 0 EmptyString s.

End JS.

(* ===================================================================== *)
(** ** The platform's JSON object: [JSON.stringify] and [JSON.parse] *)
(* ===================================================================== *)

(** [JSON.stringify] follows ECMA-262 (SerializeJSONProperty, QuoteJSONString,
    SerializeJSONObject, SerializeJSONArray) on the fragment of [JS.value];
    [JSON.parse] is a recursive-descent reader of the JSON grammar of the
    same fragment (integer number literals only). *)
Module JSON.
Import JS.

Definition DQ : ascii := "034"%char.
Definition BS : ascii := "092"%char.

Definition hex_digit (n : N) : ascii :=
  match n with
  | 0%N => "0" | 1%N => "1" | 2%N => "2" | 3%N => "3" | 4%N => "4"
  | 5%N => "5" | 6%N => "6" | 7%N => "7" | 8%N => "8" | 9%N => "9"
  | 10%N => "a" | 11%N => "b" | 12%N => "c" | 13%N => "d" | 14%N => "e"
  | _ => "f"
  end%char.

(** one code unit inside a JSON string literal *)
Definition quote_char (c : ascii) : string :=
  let n := N_of_ascii c in
  if Ascii.eqb c DQ then String BS (String DQ EmptyString)
  else if Ascii.eqb c BS then String BS (String BS EmptyString)
  else if (n =? 8)%N then "\b"
  else if (n =? 9)%N then "\t"
  else if (n =? 10)%N then "\n"
  else if (n =? 12)%N then "\f"
  else if (n =? 13)%N then "\r"
  else if (n <? 32)%N then
    "\u00" +:+ String (hex_digit (n / 16)) (String (hex_digit (n mod 16)) EmptyString)
  else String c EmptyString.

Fixpoint quote_chars (s : string) : string :=
  match s with
  | EmptyString => EmptyString
  | String c s' => quote_char c +:+ quote_chars s'
  end.

(** QuoteJSONString *)
Definition quote (s : string) : string :=
  String DQ (quote_chars s +:+ String DQ EmptyString).

Definition NL : string := String "010"%char EmptyString.

(** the common shape of a serialized array or object: [partial] are the
    serialized elements or members, [ind] the indentation of the enclosing
    level (stepback), [gap] the indentation unit *)
Definition wrap (opening closing gap ind : string) (partial : list string) : string :=
  match partial with
  | [] => opening +:+ closing
  | _ =>
      if String.eqb gap EmptyString
      then opening +:+ join "," partial +:+ closing
      else opening +:+ NL +:+ (ind +:+ gap)
             +:+ join ("," +:+ NL +:+ (ind +:+ gap)) partial
             +:+ NL +:+ ind +:+ closing
  end.

(** SerializeJSONProperty: [None] is the [undefined] result; an array
    element that serializes to [undefined] is written [null], an object
    member that does is left out *)
Fixpoint ser (gap ind : string) (v : value) {struct v} : option string :=
  match v with
  | VUndefined => None
  | VNull => Some "null"
  | VBool b => Some (if b then "true" else "false")
  | VNum n => Some (dec n)
  | VStr s => Some (quote s)
  | VArr l =>
      Some (wrap "[" "]" gap ind
              (map (fun e => match ser gap (ind +:+ gap) e with
                             | Some str => str
                             | None => "null"
                             end) l))
  | VObj fs =>
      Some (wrap "{" "}" gap ind
              (omap (fun kv =>
                       match ser gap (ind +:+ gap) (snd kv) with
                       | Some str =>
                           Some (quote (fst kv) +:+ ":"
                                   +:+ (if String.eqb gap EmptyString
                                        then EmptyString else " ")
                                   +:+ str)
                       | None => None
                       end) fs))
  end.

Fixpoint spaces (n : nat) : string :=
  match n with O => EmptyString | S n' => String " " (spaces n') end.

(** [JSON.stringify(v, null, indent)] for a numeric [indent]: the gap is
    [min(10, indent)] spaces; [JSON.stringify(v)] is [stringify 0 v] *)
Definition stringify (indent : nat) (v : value) : option string :=
  ser (spaces (Nat.min 10 indent)) EmptyString v.

(** *** [JSON.parse] *)

(** JSON white space *)
Definition is_ws (c : ascii) : bool :=
  match N_of_ascii c with
  | 9%N | 10%N | 13%N | 32%N => true
  | _ => false
  end.

Fixpoint skip_ws (s : string) : string :=
  match s with
  | EmptyString => EmptyString
  | String c s' => if is_ws c then skip_ws s' else s
  end.

Definition hex_value (c : ascii) : option N :=
  let n := N_of_ascii c in
  if ((48 <=? n) && (n <=? 57))%N then Some (n - 48)%N
  else if ((97 <=? n) && (n <=? 102))%N then Some (n - 87)%N
  else if ((65 <=? n) && (n <=? 70))%N then Some (n - 55)%N
  else None.

(** the character that a one-letter escape stands for *)
Definition unescape (e : ascii) : option ascii :=
  if Ascii.eqb e DQ then Some DQ
  else if Ascii.eqb e BS then Some BS
  else if Ascii.eqb e "/" then Some "/"%char
  else if Ascii.eqb e "b" then Some "008"%char
  else if Ascii.eqb e "f" then Some "012"%char
  else if Ascii.eqb e "n" then Some "010"%char
  else if Ascii.eqb e "r" then Some "013"%char
  else if Ascii.eqb e "t" then Some "009"%char
  else None.

(** the code unit written [\uXXXX], when it is below 256 *)
Definition unicode_escape (h1 h2 h3 h4 : ascii) : option ascii :=
  match hex_value h1, hex_value h2, hex_value h3, hex_value h4 with
  | Some a, Some b, Some c, Some d =>
      let n := (((a * 16 + b) * 16 + c) * 16 + d)%N in
      if (n <? 256)%N then Some (ascii_of_N n) else None
  | _, _, _, _ => None
  end.

(** a string literal from after its opening quote: the string denoted and
    the text after the closing quote *)
Fixpoint parse_chars (s : string) : option (string * string) :=
  match s with
  | EmptyString => None
  | String c r =>
      if Ascii.eqb c DQ then Some (EmptyString, r)
      else if Ascii.eqb c BS then
        match r with
        | String e r1 =>
            match unescape e with
            | Some ch =>
                match parse_chars r1 with
                | Some (str, rest) => Some (String ch str, rest)
                | None => None
                end
            | None =>
                match r1 with
                | String h1 (String h2 (String h3 (String h4 r2))) =>
                    if Ascii.eqb e "u" then
                      match unicode_escape h1 h2 h3 h4 with
                      | Some ch =>
                          match parse_chars r2 with
                          | Some (str, rest) => Some (String ch str, rest)
                          | None => None
                          end
                      | None => None
                      end
                    else None
                | _ => None
                end
            end
        | EmptyString => None
        end
      else if (N_of_ascii c <? 32)%N then None
      else
        match parse_chars r with
        | Some (str, rest) => Some (String c str, rest)
        | None => None
        end
  end.

Definition digit_of (c : ascii) : option (Decimal.uint -> Decimal.uint) :=
  match c with
  | "0" => Some Decimal.D0 | "1" => Some Decimal.D1 | "2" => Some Decimal.D2
  | "3" => Some Decimal.D3 | "4" => Some Decimal.D4 | "5" => Some Decimal.D5
  | "6" => Some Decimal.D6 | "7" => Some Decimal.D7 | "8" => Some Decimal.D8
  | "9" => Some Decimal.D9 | _ => None
  end%char.

(** the longest prefix of decimal digits, and the text after it *)
Fixpoint read_uint (s : string) : Decimal.uint * string :=
  match s with
  | EmptyString => (Decimal.Nil, EmptyString)
  | String c r =>
      match digit_of c with
      | Some d => let (u, rest) := read_uint r in (d u, rest)
      | None => (Decimal.Nil, s)
      end
  end.

(** the text after an integer literal: a fraction or an exponent would
    continue the number, which leaves the fragment *)
Definition ends_number (rest : string) : bool :=
  match rest with
  | EmptyString => true
  | String c _ =>
      negb (Ascii.eqb c "." || Ascii.eqb c "e" || Ascii.eqb c "E")
  end.

(** an unsigned integer literal: no digit is an error, so is a leading zero *)
Definition parse_unsigned (s : string) : option (Z * string) :=
  let (u, rest) := read_uint s in
  if ends_number rest then
    match u with
    | Decimal.Nil => None
    | Decimal.D0 Decimal.Nil => Some (0, rest)
    | Decimal.D0 _ => None
    | _ => Some (Z.of_N (N.of_uint u), rest)
    end
  else None.

(** [s] after its first character, when this is [c] *)
Definition after (c : ascii) (s : string) : option string :=
  match s with
  | String c' r => if Ascii.eqb c c' then Some r else None
  | EmptyString => None
  end.

Definition parse_number (s : string) : option (Z * string) :=
  match after "-" s with
  | Some r =>
      match parse_unsigned r with
      | Some (n, rest) => Some (- n, rest)
      | None => None
      end
  | None => parse_unsigned s
  end.

(** [s] without the prefix [p] *)
Fixpoint strip (p s : string) : option string :=
  match p, s with
  | EmptyString, _ => Some s
  | String a p', String b s' => if Ascii.eqb a b then strip p' s' else None
  | String _ _, EmptyString => None
  end.

(** a JSON value at the head of the text (after white space), and the text
    after it; [fuel] bounds the nesting and the number of members read *)
Fixpoint parse_value (fuel : nat) (s : string) : option (value * string) :=
  match fuel with
  | O => None
  | S fuel' =>
      match skip_ws s with
      | EmptyString => None
      | String c r =>
          if Ascii.eqb c "n" then option_map (pair VNull) (strip "ull" r)
          else if Ascii.eqb c "t" then option_map (pair (VBool true)) (strip "rue" r)
          else if Ascii.eqb c "f" then option_map (pair (VBool false)) (strip "alse" r)
          else if Ascii.eqb c DQ then
            match parse_chars r with
            | Some (str, rest) => Some (VStr str, rest)
            | None => None
            end
          else if Ascii.eqb c "[" then
            match after "]" (skip_ws r) with
            | Some rest => Some (VArr [], rest)
            | None =>
                match parse_elements fuel' r with
                | Some (vs, rest) => Some (VArr vs, rest)
                | None => None
                end
            end
          else if Ascii.eqb c "{" then
            match after "}" (skip_ws r) with
            | Some rest => Some (VObj [], rest)
            | None =>
                match parse_members fuel' r with
                | Some (ms, rest) => Some (VObj (Obj.spread [] ms), rest)
                | None => None
                end
            end
          else
            match parse_number (String c r) with
            | Some (n, rest) => Some (VNum n, rest)
            | None => None
            end
      end
  end

with parse_elements (fuel : nat) (s : string) : option (list value * string) :=
  match fuel with
  | O => None
  | S fuel' =>
      match parse_value fuel' s with
      | Some (v, r) =>
          match after "," (skip_ws r) with
          | Some r1 =>
              match parse_elements fuel' r1 with
              | Some (vs, rest) => Some (v :: vs, rest)
              | None => None
              end
          | None =>
              match after "]" (skip_ws r) with
              | Some rest => Some ([v], rest)
              | None => None
              end
          end
      | None => None
      end
  end

with parse_members (fuel : nat) (s : string) : option (list (string * value) * string) :=
  match fuel with
  | O => None
  | S fuel' =>
      match after DQ (skip_ws s) with
      | Some r =>
          match parse_chars r with
          | Some (k, r1) =>
              match after ":" (skip_ws r1) with
              | Some r2 =>
                  match parse_value fuel' r2 with
                  | Some (v, r3) =>
                      match after "," (skip_ws r3) with
                      | Some r4 =>
                          match parse_members fuel' r4 with
                          | Some (ms, rest) => Some ((k, v) :: ms, rest)
                          | None => None
                          end
                      | None =>
                          match after "}" (skip_ws r3) with
                          | Some rest => Some ([(k, v)], rest)
                          | None => None
                          end
                      end
                  | None => None
                  end
              | None => None
              end
          | None => None
          end
      | None => None
      end
  end.

(** [JSON.parse(text)]; [None] is the SyntaxError *)
Definition parse (text : string) : option value :=
  match parse_value (S (String.length text)) text with
  | Some (v, rest) =>
      match skip_ws rest with
      | EmptyString => Some v
      | _ => None
      end
  | None => None
  end.

(** *** The values that JSON texts denote *)

(** no [undefined] inside, and no object with two members of one name *)
Fixpoint is_json (v : value) : bool :=
  match v with
  | VUndefined => false
  | VNull | VBool _ | VNum _ | VStr _ => true
  | VArr l => forallb is_json l
  | VObj fs =>
      forallb (fun kv => is_json (snd kv)) fs
      && bool_decide (NoDup (map fst fs))
  end.

(** the integers that a binary64 number holds exactly and that are written
    in digits *)
Definition safe_integer (n : Z) : bool := Z.abs n <=? 9007199254740991.

(** a member name that is no array index (the platform lists those first,
    in ascending order, whatever the order of insertion) and that
    [Object.prototype] does not define *)
Definition plain_name (k : string) : bool :=
  negb (Obj.inherited k)
  && match index_of k with Some _ => false | None => true end.

(** the values on which the model and the platform agree: JSON values
    whose numbers are safe integers and whose member names are plain *)
Fixpoint plain (v : value) : bool :=
  match v with
  | VUndefined => false
  | VNull | VBool _ | VStr _ => true
  | VNum n => safe_integer n
  | VArr l => forallb plain l
  | VObj fs =>
      forallb (fun kv => plain_name (fst kv) && plain (snd kv)) fs
      && bool_decide (NoDup (map fst fs))
  end.

(** the fuel that reading a value back takes *)
Fixpoint need (v : value) : nat :=
  match v with
  | VArr l => S (fold_right (fun e n => S (need e + n)) O l)
  | VObj fs => S (fold_right (fun kv n => S (need (snd kv) + n)) O fs)
  | _ => 1
  end.

(** *** What the round-trip proof speaks of *)

(** a string of white space only *)
Fixpoint blank (s : string) : bool :=
  match s with
  | EmptyString => true
  | String c s' => is_ws c && blank s'
  end.

(** the text that may follow a value: nothing, white space, a comma or a
    closing bracket *)
Definition delimited (rest : string) : bool :=
  match rest with
  | EmptyString => true
  | String c _ =>
      is_ws c || Ascii.eqb c "," || Ascii.eqb c "]" || Ascii.eqb c "}"
  end.

(** the first character of a serialized value: no white space, no closing
    bracket *)
Definition head_ok (str : string) : Prop :=
  exists c r, str = String c r /\ is_ws c = false /\ Ascii.eqb "]" c = false.

(** the white space that [wrap] puts before each member and before the
    closing bracket *)
Definition pre_of (gap ind : string) : string :=
  if String.eqb gap EmptyString then EmptyString else NL +:+ (ind +:+ gap).

Definition post_of (gap ind : string) : string :=
  if String.eqb gap EmptyString then EmptyString else NL +:+ ind.

(** what the proof establishes of a value: its text exists, starts well,
    is long enough for the fuel, and is read back *)
Definition reads_back (v : value) : Prop :=
  is_json v = true ->
  forall gap ind, blank gap = true -> blank ind = true ->
  exists str,
    ser gap ind v = Some str
    /\ head_ok str
    /\ (need v <= String.length str)%nat
    /\ forall fuel rest,
         (need v <= fuel)%nat -> delimited rest = true ->
         parse_value fuel (str +:+ rest) = Some (v, rest).

Definition need_elements (l : list value) : nat :=
  fold_right (fun e n => S (need e + n)) O l.

Definition need_members (fs : obj) : nat :=
  fold_right (fun kv n => S (need (snd kv) + n)) O fs.

(** *** String literals inside a JSON text *)

(** where a scan of a JSON text stands: outside string literals, after a
    minus sign, inside a literal, after a backslash inside a literal, or on
    a text that is no JSON *)
Inductive scan_state := SOut | SMinus | SIn | SEsc | SFail.

Definition is_digit (c : ascii) : bool :=
  match digit_of c with Some _ => true | None => false end.

Definition scan_step (s : scan_state) (c : ascii) : scan_state :=
  match s with
  | SOut =>
      if Ascii.eqb c DQ then SIn
      else if Ascii.eqb c BS then SFail
      else if Ascii.eqb c "-" then SMinus
      else SOut
  | SMinus => if is_digit c then SOut else SFail
  | SIn =>
      if Ascii.eqb c DQ then SOut
      else if Ascii.eqb c BS then SEsc
      else SIn
  | SEsc => SIn
  | SFail => SFail
  end.

Fixpoint scan (s : scan_state) (text : string) : scan_state :=
  match text with
  | EmptyString => s
  | String c text' => scan (scan_step s c) text'
  end.

(** two scans of one text that are never both outside or both inside a
    string literal *)
Definition opposite (s1 s2 : scan_state) : Prop :=
  (s1 = SIn /\ (s2 = SOut \/ s2 = SMinus)) \/ ((s1 = SOut \/ s1 = SMinus) /\ s2 = SIn).

End JSON.

(* ===================================================================== *)
(** ** utils/LockManager *)
(* ===================================================================== *)

Module LockManager.

Record config := {
  maxRetries : Z;
  retryDelay : Z;
  lockTimeout : Z
}.



    (** it failed with another error code *)












End LockManager.

(* ===================================================================== *)
(** ** Results of operations that may throw *)
(* ===================================================================== *)

Inductive result (E A : Type) : Type :=
| Ok (a : A)
| Err (e : E).
Arguments Ok {E A} a.
Arguments Err {E A} e.

Definition bind {E A B} (r : result E A) (k : A -> result E B) : result E B :=
  match r with
  | Ok a => k a
  | Err e => Err e
  end.

Notation "'do' x <- r ; k" := (bind r (fun x => k))
  (at level 10, x pattern, r at level 100, k at level 200).

(* ===================================================================== *)
(** ** utils/ValidationManager *)
(* ===================================================================== *)

Module ValidationManager.
Import JS.

Record config := {
  requiredFields : list string;
  (** [Object.entries(this.fieldTypes)] *)
  fieldTypes : list (string * string);
  (** [Object.entries(this.customValidators)]; a validator is represented
      by the test [validator(item[field], item) === true] *)
  customValidators : list (string * (value -> obj -> bool))
}.

(** the constructor with no options: [requiredFields = ['id']] *)
Definition default : config :=
  {| requiredFields := ["id"]; fieldTypes := []; customValidators := [] |}.

Inductive error :=
| RequiredFieldMissing (field : string)
| WrongFieldType (field expected actual : string)
| ValidatorRejected (field : string)
| NotAFunction.
    (** the TypeError [item.hasOwnProperty is not a function] *)

(** [item.hasOwnProperty(field)]: the method is the one that the item
    inherits, unless the item has a field of this name; the value of such
    a field is no function and the call raises a TypeError *)
Definition hasOwnProperty (item : obj) (field : string) : result error bool :=
  if has "hasOwnProperty" item then Err NotAFunction else Ok (has field item).

Fixpoint check_required (fields : list string) (item : obj) : result error unit :=
  match fields with
  | [] => Ok tt
  | field :: rest =>
      match hasOwnProperty item field with
      | Ok true => check_required rest item
      | Ok false => Err (RequiredFieldMissing field)
      | Err e => Err e
      end
  end.

Fixpoint check_types (types : list (string * string)) (item : obj) : result error unit :=
  match types with
  | [] => Ok tt
  | (field, expectedType) :: rest =>
      match hasOwnProperty item field with
      | Ok owned =>
          if owned && negb (String.eqb (typeof (get field item)) expectedType)
          then Err (WrongFieldType field expectedType (typeof (get field item)))
          else check_types rest item
      | Err e => Err e
      end
  end.

Fixpoint check_custom (vs : list (string * (value -> obj -> bool))) (item : obj)
  : result error unit :=
  match vs with
  | [] => Ok tt
  | (field, validator) :: rest =>
      match hasOwnProperty item field with
      | Ok owned =>
          if owned && negb (validator (get field item) item)
          then Err (ValidatorRejected field)
          else check_custom rest item
      | Err e => Err e
      end
  end.

(** [validateItem(item)] for an item that is an object (the first test of
    the source, [!item || typeof item !== 'object'], is then false) *)
Definition validateItem (cfg : config) (item : obj) : result error unit :=
  do _ <- check_required (requiredFields cfg) item;
  do _ <- check_types (fieldTypes cfg) item;
  check_custom (customValidators cfg) item.

End ValidationManager.

(* ===================================================================== *)
(** ** core/GitDB *)
(* ===================================================================== *)

Module GitDB.
Import JS.

(** The Database: collection name to the array of its records. *)
Abbreviation database := (list (string * list obj)).

Record config := {
  validation : ValidationManager.config;
  (** [options.cacheTimeout || 300000] *)
  cacheTimeout : Z
}.

(** a cached read: [{ data: items, timestamp }], [data] being a reference
    to the array object *)
Abbreviation cached := (nat * Z)%type.

(** The state of one GitDB object and of the medium it writes to.
    - [storage] is the Database that the content of the medium decodes to:
      [readDataFile] is [storage.read] followed by the format's [parse],
      [writeDataFile] the format's [serialize] followed by [storage.write].
      The Database handed to [writeDataFile] is the one that the next
      [readDataFile] returns where the format reads back what it writes
      ([DataFile.keeps]: the JSON format does so for a Database of plain
      values, the CSV format for none); encryption, backups and the
      performance counters are left out;
    - [heap] holds the array objects handed out by [read]: the cache and
      the callers share them by reference;
    - [cache] is [this.cache], a [Map] from cache key to cached read. *)
Record state := {
  storage : database;
  heap : gmap nat (list obj);
  next : nat;
  cache : gmap string cached
}.

Inductive error :=
| LockError
    (** [acquireLock] threw *)
| CollectionNotFound (collection : string)
    (** [Collection '...' not found] *)
| ItemNotFound (id : value) (collection : string)
    (** [Item with id '...' not found in collection '...'] *)
| Invalid (e : ValidationManager.error).
    (** [validateItem] threw *)

(** What the platform hands to one operation: [crypto.randomUUID()] and the
    two readings [new Date().toISOString()]. *)
Record env := {
  uuid : string;
  isoNow1 : string;
  isoNow2 : string
}.

(** [readDataFile()]: the Database that the data file decodes to *)
Definition readDataFile (st : state) : database := storage st.

(** [writeDataFile(data, message)], for a Database that the format reads
    back *)
Definition writeDataFile (data : database) (st : state) : state :=
  {| storage := data; heap := heap st; next := next st; cache := cache st |}.

(** [this.clearCache(collection)]: every key that starts with
    [`${collection}-`] is deleted *)
Definition clearCache (collection : string) (st : state) : state :=
  {| storage := storage st; heap := heap st; next := next st;
     cache := filter (fun kv => String.prefix (collection +:+ "-") (fst kv) = false)
                (cache st) |}.

(** the body of an operation runs once the lock is acquired *)
Definition locked {A} (acquired : bool) (body : result error A) : result error A :=
  if acquired then body else Err LockError.

Definition validate (cfg : config) (item : obj) : result error unit :=
  match ValidationManager.validateItem (validation cfg) item with
  | Ok _ => Ok tt
  | Err e => Err (Invalid e)
  end.

(** the item that [create] stores: an id is generated when the item has
    none (or a falsy one), and the two timestamps are set *)
Definition stamp_new (e : env) (item : obj) : obj :=
  let item1 :=
    if truthy (get "id" item) then item else Obj.set "id" (VStr (uuid e)) item in
  Obj.set "updatedAt" (VStr (isoNow2 e)) (Obj.set "createdAt" (VStr (isoNow1 e)) item1).

(** [data[collection].push(item)], the collection being created empty
    when [!data[collection]] *)
Definition push (collection : string) (item : obj) (data : database) : database :=
  match Obj.lookup collection data with
  | Some items => Obj.set collection (items ++ [item]) data
  | None => Obj.set collection [item] data
  end.

(** CREATE *)
Definition create (cfg : config) (acquired : bool) (e : env)
    (collection : string) (item : obj) (st : state) : result error (obj * state) :=
  locked acquired (
    let data := readDataFile st in
    let item' := stamp_new e item in
    do _ <- validate cfg item';
    let data' := push collection item' data in
    Ok (item', writeDataFile data' st)).

(** [items.findIndex(item => item.id === id)] *)
Fixpoint findIndex (id : value) (items : list obj) : option nat :=
  match items with
  | [] => None
  | item :: rest =>
      if strict_eq (get "id" item) id then Some O
      else option_map S (findIndex id rest)
  end.

(** the object literal
    [{...originalItem, ...updates, id: originalItem.id,
      createdAt: originalItem.createdAt, updatedAt: now}] *)
Definition merge_update (now : string) (originalItem updates : obj) : obj :=
  Obj.set "updatedAt" (VStr now)
    (Obj.set "createdAt" (get "createdAt" originalItem)
       (Obj.set "id" (get "id" originalItem)
          (Obj.spread (Obj.spread [] originalItem) updates))).

(** UPDATE *)
Definition update (cfg : config) (acquired : bool) (e : env)
    (collection : string) (id : value) (updates : obj) (st : state)
  : result error (obj * state) :=
  locked acquired (
    let data := readDataFile st in
    match Obj.lookup collection data with
    | None => Err (CollectionNotFound collection)
    | Some items =>
        match findIndex id items with
        | None => Err (ItemNotFound id collection)
        | Some itemIndex =>
            let originalItem := nth itemIndex items [] in
            let updatedItem := merge_update (isoNow1 e) originalItem updates in
            do _ <- validate cfg updatedItem;
            let data' := Obj.set collection (<[itemIndex := updatedItem]> items) data in
            Ok (updatedItem, clearCache collection (writeDataFile data' st))
        end
    end).

(** [items.splice(i, 1)] *)
Definition splice1 (i : nat) (items : list obj) : list obj :=
  take i items ++ drop (S i) items.

(** DELETE *)
Definition delete (acquired : bool) (collection : string) (id : value) (st : state)
  : result error (obj * state) :=
  locked acquired (
    let data := readDataFile st in
    match Obj.lookup collection data with
    | None => Err (CollectionNotFound collection)
    | Some items =>
        match findIndex id items with
        | None => Err (ItemNotFound id collection)
        | Some itemIndex =>
            let deletedItem := nth itemIndex items [] in
            let data' := Obj.set collection (splice1 itemIndex items) data in
            Ok (deletedItem, clearCache collection (writeDataFile data' st))
        end
    end).

(** DELETE COLLECTION *)
Definition deleteCollection (acquired : bool) (collection : string) (st : state)
  : result error (list obj * state) :=
  locked acquired (
    let data := readDataFile st in
    match Obj.lookup collection data with
    | None => Err (CollectionNotFound collection)
    | Some deletedCollection =>
        let data' := Obj.del collection data in
        Ok (deletedCollection, clearCache collection (writeDataFile data' st))
    end).

(** *** Bulk operations *)

Inductive operation :=
| OpCreate (collection : string) (item : obj)
| OpUpdate (collection : string) (id : value) (updates : obj)
| OpDelete (collection : string) (id : value)
| OpOther (type : string) (collection : string).

Definition op_collection (op : operation) : string :=
  match op with
  | OpCreate c _ | OpUpdate c _ _ | OpDelete c _ | OpOther _ c => c
  end.

(** one entry of the array that [bulkOperation] returns *)
Inductive op_result :=
| Success (type : string) (item : obj)
| Failure (type : string) (error : string).

(** one turn of the [for (const operation of operations)] loop, on the
    in-memory [data]; [Err] is a throw out of the loop *)
Definition bulk_step (cfg : config) (e : env) (op : operation) (data : database)
  : result error (database * op_result) :=
  match op with
  | OpCreate collection item =>
      let newItem :=
        Obj.set "updatedAt" (VStr (isoNow2 e))
          (Obj.set "createdAt" (VStr (isoNow1 e))
             (Obj.set "id"
                (if truthy (get "id" item) then get "id" item else VStr (uuid e))
                (Obj.spread [] item))) in
      do _ <- validate cfg newItem;
      Ok (push collection newItem data, Success "create" newItem)
  | OpUpdate collection id updates =>
      match Obj.lookup collection data with
      | None => Ok (data, Failure "update" "Collection not found")
      | Some items =>
          match findIndex id items with
          | None => Ok (data, Failure "update" "Item not found")
          | Some itemIndex =>
              let originalItem := nth itemIndex items [] in
              let updatedItem := merge_update (isoNow1 e) originalItem updates in
              do _ <- validate cfg updatedItem;
              Ok (Obj.set collection (<[itemIndex := updatedItem]> items) data,
                  Success "update" updatedItem)
          end
      end
  | OpDelete collection id =>
      match Obj.lookup collection data with
      | None => Ok (data, Failure "delete" "Collection not found")
      | Some items =>
          match findIndex id items with
          | None => Ok (data, Failure "delete" "Item not found")
          | Some deleteIndex =>
              let deletedItem := nth deleteIndex items [] in
              Ok (Obj.set collection (splice1 deleteIndex items) data,
                  Success "delete" deletedItem)
          end
      end
  | OpOther type _ => Ok (data, Failure type "Unknown operation type")
  end.

(** the whole loop; each operation comes with what the platform hands it *)
Fixpoint bulk_loop (cfg : config) (ops : list (operation * env)) (data : database)
  : result error (database * list op_result) :=
  match ops with
  | [] => Ok (data, [])
  | (op, e) :: rest =>
      do (data1, r) <- bulk_step cfg e op data;
      do (data2, rs) <- bulk_loop cfg rest data1;
      Ok (data2, r :: rs)
  end.

(** BULK OPERATIONS *)
Definition bulkOperation (cfg : config) (acquired : bool)
    (ops : list (operation * env)) (st : state)
  : result error (list op_result * state) :=
  locked acquired (
    let data := readDataFile st in
    do (data', results) <- bulk_loop cfg ops data;
    let st1 := writeDataFile data' st in
    let affectedCollections := map (fun oe => op_collection (fst oe)) ops in
    Ok (results, fold_left (fun s c => clearCache c s) affectedCollections st1)).

(** *** Reads *)

(** a value of a query object: a constant, or a predicate function *)
Inductive qvalue :=
| QVal (v : value)
| QFun (f : value -> bool).

Abbreviation query := (list (string * qvalue)).

(** [JSON.stringify(query)]: a member whose value is a function
    serializes to [undefined] and is left out, like one whose value is
    [undefined] *)
Definition stringify_query (q : query) : string :=
  match JSON.stringify 0
          (VObj (map (fun kq => (fst kq, match snd kq with
                                         | QVal v => v
                                         | QFun _ => VUndefined
                                         end)) q)) with
  | Some s => s
  | None => "undefined"
  end.

(** [`${collection}-${JSON.stringify(query)}`] *)
Definition cacheKey (collection : string) (q : query) : string :=
  collection +:+ "-" +:+ stringify_query q.

(** [Object.entries(query).every(...)] on one item *)
Definition matches (q : query) (item : obj) : bool :=
  forallb (fun kq => match snd kq with
                     | QFun f => f (get (fst kq) item)
                     | QVal v => strict_eq (get (fst kq) item) v
                     end) q.

(** a new array object *)
Definition alloc (items : list obj) (st : state) : nat * state :=
  (next st,
   {| storage := storage st; heap := <[next st := items]> (heap st);
      next := S (next st); cache := cache st |}).

(** the array behind a reference *)
Definition deref (st : state) (loc : nat) : list obj :=
  match heap st !! loc with Some items => items | None => [] end.

(** the cached read under [key] that has not expired at [now] *)
Definition cache_hit (cfg : config) (now : Z) (key : string) (st : state) : option nat :=
  match cache st !! key with
  | Some (loc, timestamp) =>
      if now - timestamp <? cacheTimeout cfg then Some loc else None
  | None => None
  end.

(** READ: the result is a reference to an array object *)
Definition read (cfg : config) (now : Z) (collection : string) (q : query)
    (st : state) : nat * state :=
  let key := cacheKey collection q in
  match cache_hit cfg now key st with
  | Some loc => (loc, st)
  | None =>
      let data := readDataFile st in
      match Obj.lookup collection data with
      | None => alloc [] st
      | Some all =>
          let items :=
            match q with
            | [] => all
            | _ => List.filter (matches q) all
            end in
          let (loc, st1) := alloc items st in
          (loc,
           {| storage := storage st1; heap := heap st1; next := next st1;
              cache := <[key := (loc, now)]> (cache st1) |})
      end
  end.

(** READ BY ID: [None] is [null] *)
Definition readById (cfg : config) (now : Z) (collection : string) (id : value)
    (st : state) : option obj * state :=
  let (loc, st1) := read cfg now collection [("id", QVal id)] st in
  (head (deref st1 loc), st1).

(** *** Queries *)

(** the comparator of [sort(collection, key, order)] *)
Definition compare_by (sortBy order : string) (a b : obj) : Z :=
  let aVal := get sortBy a in
  let bVal := get sortBy b in
  let '(aVal, bVal) :=
    match aVal, bVal with
    | VStr x, VStr y => (VStr (toLowerCase x), VStr (toLowerCase y))
    | _, _ => (aVal, bVal)
    end in
  let desc := String.eqb order "desc" in
  if lt aVal bVal then (if desc then 1 else -1)
  else if gt aVal bVal then (if desc then -1 else 1)
  else 0.

(** the comparator of [sort(collection, fn, order)] *)
Definition compare_with (sortBy : obj -> obj -> Z) (order : string) (a b : obj) : Z :=
  let result := sortBy a b in
  if String.eqb order "desc" then - result else result.

(** [items.sort(cmp)] sorts the array object in place and returns it *)
Definition sort_in_place (cmp : obj -> obj -> Z) (loc : nat) (st : state) : nat * state :=
  (loc,
   {| storage := storage st;
      heap := <[loc := JS.sort cmp (deref st loc)]> (heap st);
      next := next st; cache := cache st |}).

(** SORT by a key *)
Definition sort (cfg : config) (now : Z) (collection sortBy order : string)
    (st : state) : nat * state :=
  let (items, st1) := read cfg now collection [] st in
  sort_in_place (compare_by sortBy order) items st1.

(** SORT by a comparison function *)
Definition sortWith (cfg : config) (now : Z) (collection : string)
    (sortBy : obj -> obj -> Z) (order : string) (st : state) : nat * state :=
  let (items, st1) := read cfg now collection [] st in
  sort_in_place (compare_with sortBy order) items st1.

(** FILTER: [items.filter(predicate)] is a new array *)
Definition filter (cfg : config) (now : Z) (collection : string)
    (predicate : obj -> bool) (st : state) : nat * state :=
  let (items, st1) := read cfg now collection [] st in
  alloc (List.filter predicate (deref st1 items)) st1.

(** LIMIT: [items.slice(offset, offset + limit)] is a new array *)
Definition limit (cfg : config) (now : Z) (collection : string)
    (limit offset : nat) (st : state) : nat * state :=
  let (items, st1) := read cfg now collection [] st in
  alloc (take limit (drop offset (deref st1 items))) st1.

(** *** Views used to state the properties *)

(** the records of a collection ([[]] when the Database has no such
    collection) *)
Definition collection_of (collection : string) (data : database) : list obj :=
  match Obj.lookup collection data with
  | Some items => items
  | None => []
  end.

(** the ids of the records of an array, in order *)
Definition ids (items : list obj) : list value := map (get "id") items.

(** the protected fields of a record *)
Definition protected (item : obj) : value * value :=
  (get "id" item, get "createdAt" item).

(** the Database reduced to the protected fields of its records *)
Definition protected_view (data : database) : list (string * list (value * value)) :=
  map (fun ci => (fst ci, map protected (snd ci))) data.

(** the id under which [create] stores an item *)
Definition stored_id (e : env) (item : obj) : value := get "id" (stamp_new e item).

(** a sequence of [create] calls on one collection, each with what the
    platform hands it; a call that throws leaves the state as it was *)
Fixpoint create_all (cfg : config) (collection : string)
    (calls : list (env * obj)) (st : state) : state :=
  match calls with
  | [] => st
  | (e, item) :: rest =>
      match create cfg true e collection item st with
      | Ok (_, st') => create_all cfg collection rest st'
      | Err _ => create_all cfg collection rest st
      end
  end.

(** every call of the sequence stores an id that the collection does not
    hold at the time of the call *)
Fixpoint fresh_ids (cfg : config) (collection : string)
    (calls : list (env * obj)) (st : state) : Prop :=
  match calls with
  | [] => True
  | (e, item) :: rest =>
      ~ In (stored_id e item) (ids (collection_of collection (storage st)))
      /\ match create cfg true e collection item st with
         | Ok (_, st') => fresh_ids cfg collection rest st'
         | Err _ => fresh_ids cfg collection rest st
         end
  end.

(** the errors that report a missing collection or record *)
Definition is_not_found (err : error) : bool :=
  match err with
  | CollectionNotFound _ | ItemNotFound _ _ => true
  | LockError | Invalid _ => false
  end.

(** *** The states of one GitDB object *)

(** one call of the interface that returns: either it changes the state or
    it throws and leaves the state as it was *)
Inductive step (cfg : config) : state -> state -> Prop :=
| step_create acquired e collection item st r st' :
    create cfg acquired e collection item st = Ok (r, st') -> step cfg st st'
| step_update acquired e collection id updates st r st' :
    update cfg acquired e collection id updates st = Ok (r, st') -> step cfg st st'
| step_delete acquired collection id st r st' :
    delete acquired collection id st = Ok (r, st') -> step cfg st st'
| step_deleteCollection acquired collection st r st' :
    deleteCollection acquired collection st = Ok (r, st') -> step cfg st st'
| step_bulkOperation acquired ops st r st' :
    bulkOperation cfg acquired ops st = Ok (r, st') -> step cfg st st'
| step_read now collection q st :
    step cfg st (snd (read cfg now collection q st))
| step_sort now collection sortBy order st :
    step cfg st (snd (sort cfg now collection sortBy order st))
| step_sortWith now collection sortBy order st :
    step cfg st (snd (sortWith cfg now collection sortBy order st))
| step_filter now collection predicate st :
    step cfg st (snd (filter cfg now collection predicate st))
| step_limit now collection n offset st :
    step cfg st (snd (limit cfg now collection n offset st)).

(** the states that one GitDB object goes through when it is the only
    writer of its medium: it starts with an empty cache on a Database (an
    object, whose collection names are distinct) *)
Inductive reachable (cfg : config) : state -> Prop :=
| reachable_new data heap0 next0 :
    NoDup (map fst data) ->
    reachable cfg {| storage := data; heap := heap0; next := next0; cache := ∅ |}
| reachable_step st st' :
    reachable cfg st -> step cfg st st' -> reachable cfg st'.

(** every cached read is a read of a collection that the Database holds *)
Definition cache_of_existing (st : state) : Prop :=
  NoDup (map fst (storage st))
  /\ forall key entry,
       cache st !! key = Some entry ->
       exists collection q,
         key = cacheKey collection q
         /\ Obj.lookup collection (storage st) <> None.

(** the records that [read] takes from the array of a collection: all of
    them for the empty query, those that pass the filter otherwise *)
Definition selected (q : query) (all : list obj) : list obj :=
  match q with
  | [] => all
  | _ => List.filter (matches q) all
  end.

(** the number under a key of a record ([0] when the value is no number) *)
Definition number_at (key : string) (item : obj) : Z :=
  match get key item with
  | VNum n => n
  | _ => 0
  end.

(** a list in non-decreasing order of a measure *)
Fixpoint ascending_by {A} (f : A -> Z) (l : list A) : Prop :=
  match l with
  | [] => True
  | x :: l' => Forall (fun y => f x <= f y) l' /\ ascending_by f l'
  end.


(** a call that writes the Database and returns, with the collections that
    it names *)
Inductive writes (cfg : config) : list string -> state -> state -> Prop :=
| writes_create acquired e collection item st r st' :
    create cfg acquired e collection item st = Ok (r, st') ->
    writes cfg [collection] st st'
| writes_update acquired e collection id updates st r st' :
    update cfg acquired e collection id updates st = Ok (r, st') ->
    writes cfg [collection] st st'
| writes_delete acquired collection id st r st' :
    delete acquired collection id st = Ok (r, st') ->
    writes cfg [collection] st st'
| writes_deleteCollection acquired collection st r st' :
    deleteCollection acquired collection st = Ok (r, st') ->
    writes cfg [collection] st st'
| writes_bulkOperation acquired ops st r st' :
    bulkOperation cfg acquired ops st = Ok (r, st') ->
    writes cfg (map (fun oe => op_collection (fst oe)) ops) st st'.

End GitDB.

(* ===================================================================== *)
(** ** core/GitDB: the query methods *)
(* ===================================================================== *)

(** [where], [select] and [join] with [evaluateWhereClause] and
    [evaluateOperator].  The functions that a caller passes are total
    functions of the model; the comparison values and the condition
    objects are values. *)
Module Query.
Import JS GitDB.

(** what a query may throw *)
Inductive exn :=
| TypeError
| SyntaxError.

(** the comparison [a < b] of the language: [None] is [undefined], the
    result of a comparison with NaN *)
Definition lt_opt (a b : value) : option bool :=
  match to_primitive a, to_primitive b with
  | VStr x, VStr y => Some (String.ltb x y)
  | pa, pb =>
      match to_number pa, to_number pb with
      | Some x, Some y => Some (x <? y)
      | _, _ => None
      end
  end.

(** [a < b], [a > b], [a <= b], [a >= b] *)
Definition js_lt (a b : value) : bool :=
  match lt_opt a b with Some true => true | _ => false end.

Definition js_gt (a b : value) : bool :=
  match lt_opt b a with Some true => true | _ => false end.

Definition js_le (a b : value) : bool :=
  match lt_opt b a with Some false => true | _ => false end.

Definition js_ge (a b : value) : bool :=
  match lt_opt a b with Some false => true | _ => false end.

(** [s.includes(needle)] on strings *)
Fixpoint includes (needle s : string) : bool :=
  String.prefix needle s
  || match s with
     | EmptyString => false
     | String _ s' => includes needle s'
     end.

(** [evaluateOperator(value, operator, compareValue)]; [regex_test p s] is
    [new RegExp(p).test(s)], [None] when [p] is no pattern *)
Definition evaluateOperator (regex_test : string -> string -> option bool)
    (value operator compareValue : JS.value) : result exn bool :=
  match operator with
  | VStr name =>
      let op := toLowerCase name in
      if String.eqb op "eq" || String.eqb op "=" then
        Ok (strict_eq value compareValue)
      else if String.eqb op "ne" || String.eqb op "!=" then
        Ok (negb (strict_eq value compareValue))
      else if String.eqb op "gt" || String.eqb op ">" then
        Ok (js_gt value compareValue)
      else if String.eqb op "gte" || String.eqb op ">=" then
        Ok (js_ge value compareValue)
      else if String.eqb op "lt" || String.eqb op "<" then
        Ok (js_lt value compareValue)
      else if String.eqb op "lte" || String.eqb op "<=" then
        Ok (js_le value compareValue)
      else if String.eqb op "in" then
        Ok (match compareValue with
            | VArr l => existsb (strict_eq value) l
            | _ => false
            end)
      else if String.eqb op "nin" || String.eqb op "not in" then
        Ok (match compareValue with
            | VArr l => negb (existsb (strict_eq value) l)
            | _ => false
            end)
      else if String.eqb op "like" then
        Ok (match value, compareValue with
            | VStr v, VStr c => includes (toLowerCase c) (toLowerCase v)
            | _, _ => false
            end)
      else if String.eqb op "regex" then
        match value, compareValue with
        | VStr v, VStr c =>
            match regex_test c v with
            | Some b => Ok b
            | None => Err SyntaxError
            end
        | _, _ => Ok false
        end
      else Ok false
  | _ =>
      (* [operator.toLowerCase] is not a function *)
      Err TypeError
  end.

(** [l.every(f)] for an [f] that may throw *)
Fixpoint every {A} (f : A -> result exn bool) (l : list A) : result exn bool :=
  match l with
  | [] => Ok true
  | x :: l' =>
      match f x with
      | Ok true => every f l'
      | Ok false => Ok false
      | Err e => Err e
      end
  end.

(** [l.filter(f)] for an [f] that may throw *)
Fixpoint filter_by {A} (f : A -> result exn bool) (l : list A) : result exn (list A) :=
  match l with
  | [] => Ok []
  | x :: l' =>
      match f x with
      | Ok b =>
          match filter_by f l' with
          | Ok r => Ok (if b then x :: r else r)
          | Err e => Err e
          end
      | Err e => Err e
      end
  end.

(** the conditions of a where clause: a predicate function or a value *)
Inductive conditions :=
| CondFun (f : obj -> bool)
| CondVal (v : value).

(** [Object.entries(v)] of a value whose [typeof] is ['object']; [None] is
    the TypeError raised on [null] *)
Definition entries (v : value) : option (list (string * value)) :=
  match v with
  | VObj fs => Some fs
  | VArr l => Some (imap (fun i x => (dec (Z.of_nat i), x)) l)
  | _ => None
  end.

(** the callback of [every] in [evaluateWhereClause] on one entry
    [[key, condition]] *)
Definition evaluateCondition (regex_test : string -> string -> option bool)
    (item : obj) (key : string) (condition : value) : result exn bool :=
  if String.eqb (typeof condition) "object" then
    match prop condition "operator", prop condition "value" with
    | Some operator, Some compareValue =>
        if truthy operator
        then evaluateOperator regex_test (get key item) operator compareValue
        else Ok (strict_eq (get key item) condition)
    | _, _ =>
        (* [condition.operator] on [null] *)
        Err TypeError
    end
  else Ok (strict_eq (get key item) condition).

(** [evaluateWhereClause(item, conditions)] *)
Definition evaluateWhereClause (regex_test : string -> string -> option bool)
    (item : obj) (c : conditions) : result exn bool :=
  match c with
  | CondFun f => Ok (f item)
  | CondVal v =>
      if String.eqb (typeof v) "object" then
        match entries v with
        | Some es =>
            every (fun kc => evaluateCondition regex_test item (fst kc) (snd kc)) es
        | None => Err TypeError
        end
      else Ok true
  end.

(** WHERE; the name is [where] in the source *)
Definition where_ (regex_test : string -> string -> option bool)
    (cfg : config) (now : Z) (collection : string) (c : conditions) (st : state)
  : result exn (list obj) * state :=
  let (items, st1) := read cfg now collection [] st in
  (filter_by (fun item => evaluateWhereClause regex_test item c) (deref st1 items),
   st1).

(** [items.slice(start, end)] *)
Definition slice {A} (start stop : Z) (l : list A) : list A :=
  let len := Z.of_nat (length l) in
  let k := if start <? 0 then Z.max (len + start) 0 else Z.min start len in
  let final := if stop <? 0 then Z.max (len + stop) 0 else Z.min stop len in
  take (Z.to_nat (final - k)) (drop (Z.to_nat k) l).

(** [options.orderBy]: a key, or an array of a key and an order *)
Inductive order_by :=
| OrderKey (key : string)
| OrderArray (key : string) (order : option string).

(** the options of [select]; [None] is an option that is not given *)
Record options := {
  opt_where : option conditions;
  opt_orderBy : option order_by;
  opt_limit : option Z;
  opt_offset : option Z;
  opt_fields : option (list string)
}.

(** [if (options.where)] *)
Definition given_where (o : options) : option conditions :=
  match opt_where o with
  | Some (CondVal v) => if truthy v then Some (CondVal v) else None
  | w => w
  end.

(** [if (options.orderBy)] and the destructuring into [[key, order]];
    the order that is not given is ['asc'], the default of [sort] *)
Definition given_orderBy (o : options) : option (string * string) :=
  match opt_orderBy o with
  | Some (OrderKey key) =>
      if String.eqb key EmptyString then None else Some (key, "asc")
  | Some (OrderArray key (Some order)) => Some (key, order)
  | Some (OrderArray key None) => Some (key, "asc")
  | None => None
  end.

(** [if (options.limit)]: with [options.offset || 0] *)
Definition given_limit (o : options) : option (Z * Z) :=
  match opt_limit o with
  | Some n =>
      if n =? 0 then None
      else Some (match opt_offset o with Some k => k | None => 0 end, n)
  | None => None
  end.

(** the object of the selected fields of an item *)
Definition project (fields : list string) (item : obj) : obj :=
  fold_left (fun selected field =>
               if has field item then Obj.set field (get field item) selected
               else selected)
    fields [].

(** SELECT; [now1] is the time of its read, [now2] the time of the read
    that [sort] makes *)
Definition select (regex_test : string -> string -> option bool)
    (cfg : config) (now1 now2 : Z) (collection : string) (o : options) (st : state)
  : result exn (list obj) * state :=
  let (loc, st1) := read cfg now1 collection [] st in
  let items0 := deref st1 loc in
  let filtered :=
    match given_where o with
    | Some w => filter_by (fun item => evaluateWhereClause regex_test item w) items0
    | None => Ok items0
    end in
  match filtered with
  | Err e => (Err e, st1)
  | Ok items1 =>
      let '(items2, st2) :=
        match given_orderBy o with
        | Some (key, order) =>
            let (sorted, st2) := GitDB.sort cfg now2 collection key order st1 in
            (deref st2 sorted, st2)
        | None => (items1, st1)
        end in
      let items3 :=
        match given_limit o with
        | Some (offset, limit) => slice offset (offset + limit) items2
        | None => items2
        end in
      let items4 :=
        match opt_fields o with
        | Some fields => map (project fields) items3
        | None => items3
        end in
      (Ok items4, st2)
  end.

(** the options without the where clause *)
Definition without_where (o : options) : options :=
  {| opt_where := None; opt_orderBy := opt_orderBy o; opt_limit := opt_limit o;
     opt_offset := opt_offset o; opt_fields := opt_fields o |}.

(** the rows of [join] for one record of the first collection *)
Definition join_rows (collection2 joinKey1 joinKey2 joinType : string)
    (items2 : list obj) (item1 : obj) : list obj :=
  let matchingItems2 :=
    List.filter (fun item2 => strict_eq (get joinKey1 item1) (get joinKey2 item2))
      items2 in
  match matchingItems2 with
  | [] =>
      if String.eqb joinType "left"
      then [Obj.set collection2 VNull (Obj.spread [] item1)]
      else []
  | _ =>
      map (fun item2 => Obj.set collection2 (VObj item2) (Obj.spread [] item1))
        matchingItems2
  end.

(** the rows that a right join adds for one record of the second
    collection *)
Definition unmatched_row (collection1 joinKey1 joinKey2 : string)
    (items1 : list obj) (item2 : obj) : list obj :=
  match List.filter
          (fun item1 => strict_eq (get joinKey1 item1) (get joinKey2 item2))
          items1 with
  | [] => [Obj.spread [(collection1, VNull)] item2]
  | _ => []
  end.

(** JOIN *)
Definition join (cfg : config) (now1 now2 : Z)
    (collection1 collection2 joinKey1 joinKey2 joinType : string) (st : state)
  : list obj * state :=
  let (loc1, st1) := read cfg now1 collection1 [] st in
  let (loc2, st2) := read cfg now2 collection2 [] st1 in
  let items1 := deref st2 loc1 in
  let items2 := deref st2 loc2 in
  let result :=
    flat_map (join_rows collection2 joinKey1 joinKey2 joinType items2) items1 in
  let added :=
    if String.eqb joinType "right"
    then flat_map (unmatched_row collection1 joinKey1 joinKey2 items1) items2
    else [] in
  (result ++ added, st2).

End Query.

(* ===================================================================== *)
(** ** storage/LocalStorage, storage/GitHubStorage *)
(* ===================================================================== *)

Module LocalStorage.

(** the data file: [None] when it does not exist *)
Abbreviation medium := (option string).

(** [read()]: a missing file reads as the empty Database *)
Definition read (m : medium) : string :=
  match m with
  | Some data => data
  | None => "{}"
  end.

(** [write(data, commitMessage)]: the temporary file is renamed over the
    data file *)
Definition write (data : string) (m : medium) : medium := Some data.

End LocalStorage.

Module GitHubStorage.

(** a blob sha: the version token of the data file *)
Abbreviation sha := nat.

(** The data file in the repository as the contents API shows it: its
    content and its current sha ([None] if the path does not exist), and
    the sha that the next update will give it. *)
Record remote := {
  file : option (string * sha);
  fresh : sha
}.

Inductive error :=
| VersionConflict.
    (** the update request is refused: the sha it names is not the
        current sha of the file *)

Definition current_sha (r : remote) : option sha :=
  match file r with
  | Some (_, s) => Some s
  | None => None
  end.

(** [octokit.repos.createOrUpdateFileContents({..., content, sha})]: the
    service replaces the file only if [sha] is the sha of the file it
    holds *)
Definition createOrUpdateFileContents (expected : option sha) (content : string)
    (r : remote) : result error remote :=
  if decide (expected = current_sha r)
  then Ok {| file := Some (content, fresh r); fresh := S (fresh r) |}
  else Err VersionConflict.

(** [read()]: a missing file reads as the empty Database *)
Definition read (r : remote) : string :=
  match file r with
  | Some (content, _) => content
  | None => "{}"
  end.

(** [getFileInfo()]: [{ sha }], [null] for a missing file *)
Definition getFileInfo (r : remote) : option sha := current_sha r.

(** [write(data, commitMessage)]: the sha is fetched, then the update is
    requested with it; [between] is what other clients do to the
    repository between the two requests *)
Definition write (between : remote -> remote) (data : string) (r : remote)
  : result error remote :=
  let sha := getFileInfo r in
  createOrUpdateFileContents sha data (between r).

(** a complete write by another client *)
Definition other_write (data : string) (r : remote) : remote :=
  match write (fun r => r) data r with
  | Ok r' => r'
  | Err _ => r
  end.

End GitHubStorage.

(** The read-modify-write cycle of a mutating operation of GitDB
    ([create], [update], [delete], [deleteCollection], [bulkOperation]) as
    the medium sees it: [readDataFile] reads the content and nothing else,
    the operation computes the new content from it, and [writeDataFile]
    hands [storage.write] the new content and the commit message. *)
Module Cycle.

(** over GitHub; [before_write] is what other clients do between the read
    and the write of the operation, [between] what they do between the two
    requests of the write *)
Definition github (mutate : string -> string)
    (before_write between : GitHubStorage.remote -> GitHubStorage.remote)
    (r : GitHubStorage.remote)
  : result GitHubStorage.error GitHubStorage.remote :=
  let content := GitHubStorage.read r in
  let data := mutate content in
  GitHubStorage.write between data (before_write r).

(** over a local file *)
Definition local (mutate : string -> string)
    (before_write : LocalStorage.medium -> LocalStorage.medium)
    (m : LocalStorage.medium) : LocalStorage.medium :=
  let content := LocalStorage.read m in
  let data := mutate content in
  LocalStorage.write data (before_write m).

End Cycle.

(* ===================================================================== *)
(** ** formats/FormatManager, formats/JSONFormat, formats/CSVFormat *)
(* ===================================================================== *)

Module FormatManager.
Import JS.

(** What a format offers to the manager; [None] is a throw. *)
Class Format := {
  parse : string -> option value;
  serialize : value -> option string
}.

End FormatManager.

Module JSONFormat.
Import JS.

Record config := {
  (** [options.prettyPrint !== false] *)
  prettyPrint : bool;
  (** [options.indent || 2] *)
  indent : nat
}.

Definition default : config := {| prettyPrint := true; indent := 2 |}.

Definition parse (data : string) : option value := JSON.parse data.

Definition serialize (cfg : config) (data : value) : option string :=
  if prettyPrint cfg then JSON.stringify (indent cfg) data
  else JSON.stringify 0 data.

#[export] Instance format (cfg : config) : FormatManager.Format :=
  {| FormatManager.parse := parse; FormatManager.serialize := serialize cfg |}.

End JSONFormat.

Module CSVFormat.
Import JS.

Record config := {
  (** [options.headers !== false] *)
  headers : bool;
  (** [options.delimiter || ','] *)
  delimiter : string
}.

Definition default : config := {| headers := true; delimiter := "," |}.

(** [values[index] ? values[index].trim() : ''] *)
Definition cell_of (values : list string) (index : nat) : string :=
  match values !! index with
  | Some v => if String.eqb v EmptyString then EmptyString else trim v
  | None => EmptyString
  end.

(** [item[name] = cell] on the item of a line, for a string [cell]: the
    name [__proto__] reaches the setter that [Object.prototype] defines,
    which ignores a string, and no field is added *)
Definition assign (name cell : string) (item : obj) : obj :=
  if String.eqb name "__proto__" then item else Obj.set name (VStr cell) item.

(** the item of one line: [headers.forEach((header, index) => ...)] *)
Fixpoint item_of (hs : list string) (index : nat) (values : list string) (item : obj) : obj :=
  match hs with
  | [] => item
  | header :: rest =>
      item_of rest (S index) values
        (assign (trim header) (cell_of values index) item)
  end.

(** [parse(data)] *)
Definition parse (cfg : config) (data : string) : option value :=
  match split (String "010"%char EmptyString) (trim data) with
  | [] => Some (VArr [])
  | first :: lines =>
      let hs := split (delimiter cfg) first in
      Some (VArr (map (fun line =>
                         VObj (item_of hs 0 (split (delimiter cfg) line) []))
                    lines))
  end.

(** [item[header] || ''] as [join] writes it *)
Definition field_of (item : value) (header : string) : option string :=
  match prop item header with
  | Some v => Some (if truthy v then to_string v else EmptyString)
  | None => None
  end.

(** one line of the output; [None] is a TypeError *)
Definition line_of (cfg : config) (hs : list string) (item : value) : option string :=
  match mapM (field_of item) hs with
  | Some values => Some (join (delimiter cfg) values)
  | None => None
  end.

(** [serialize(data)] *)
Definition serialize (cfg : config) (data : value) : option string :=
  match data with
  | VArr (first :: rest) =>
      match own_keys first with
      | Some hs =>
          match mapM (line_of cfg hs) (first :: rest) with
          | Some lines =>
              Some (join (String "010"%char EmptyString)
                      (join (delimiter cfg) hs :: lines))
          | None => None
          end
      | None => None
      end
  | _ => Some EmptyString
  end.

#[export] Instance format (cfg : config) : FormatManager.Format :=
  {| FormatManager.parse := parse cfg; FormatManager.serialize := serialize cfg |}.

(** *** The tables that the format holds *)

(** the character does not occur in the string *)
Fixpoint lacks (c : ascii) (s : string) : bool :=
  match s with
  | EmptyString => true
  | String a s' => negb (Ascii.eqb a c) && lacks c s'
  end.

(** the string is not empty and does not start with white space *)
Definition starts_ok (s : string) : bool :=
  match s with
  | EmptyString => false
  | String a _ => negb (is_space a)
  end.

(** the string is not empty and does not end with white space *)
Fixpoint ends_ok (s : string) : bool :=
  match s with
  | EmptyString => false
  | String a EmptyString => negb (is_space a)
  | String _ s' => ends_ok s'
  end.

(** a header or a cell that a line can hold: not empty, no white space
    around it, neither the delimiter nor a line feed inside *)
Definition clean (d : ascii) (s : string) : bool :=
  starts_ok s && ends_ok s && lacks d s && lacks "010"%char s.

(** the record of one row of cells under the headers *)
Definition record_of (hs : list string) (row : list string) : value :=
  VObj (combine hs (map VStr row)).

End CSVFormat.

(* ===================================================================== *)
(** ** core/GitDB over a local file: the data file as text *)
(* ===================================================================== *)

(** [readDataFile], [writeDataFile], [export] and [import] of core/GitDB
    with the local storage and a format, encryption being disabled (no
    [encryptionKey]): what they do to the data file.  [None] is a throw.
    The backup that [writeDataFile] asks for goes to other files (see
    [BackupManager]). *)
Module DataFile.
Import JS.

(** the Database as the value that a format serializes: an object of
    arrays of records *)
Definition database_value (data : list (string * list obj)) : value :=
  VObj (map (fun ci => (fst ci, VArr (map VObj (snd ci)))) data).

(** the format reads back the Database that it writes:
    [parse(serialize(data))] is [data] *)
Definition keeps (fmt : FormatManager.Format) (data : list (string * list obj)) : Prop :=
  exists text,
    FormatManager.serialize (database_value data) = Some text
    /\ FormatManager.parse text = Some (database_value data).

(** [readDataFile()]: [storage.read()], then [formatManager.parse] *)
Definition readDataFile (fmt : FormatManager.Format) (m : LocalStorage.medium)
  : option value :=
  FormatManager.parse (LocalStorage.read m).

(** [writeDataFile(data, commitMessage)]: [formatManager.serialize], then
    [storage.write] *)
Definition writeDataFile (fmt : FormatManager.Format) (data : value)
    (m : LocalStorage.medium) : option LocalStorage.medium :=
  match FormatManager.serialize data with
  | Some serializedData => Some (LocalStorage.write serializedData m)
  | None => None
  end.

(** [export(exportPath)]: the text written to the export file *)
Definition export (fmt : FormatManager.Format) (m : LocalStorage.medium)
  : option string :=
  match readDataFile fmt m with
  | Some data => FormatManager.serialize data
  | None => None
  end.

(** [import(importPath)]; [importData] is the content of the file at
    [importPath] *)
Definition import (fmt : FormatManager.Format) (importData : string)
    (m : LocalStorage.medium) : option LocalStorage.medium :=
  match FormatManager.parse importData with
  | Some data => writeDataFile fmt data m
  | None => None
  end.

End DataFile.

(* ===================================================================== *)
(** ** utils/HistoryManager *)
(* ===================================================================== *)

Module HistoryManager.
Import JS.

(** [commit.commit.author]; the date is the value that the API delivers *)
Record author := {
  name : string;
  email : string;
  date : value
}.

(** an entry of [getFileHistory] (the fields that the functions below
    read) *)
Record commit := {
  sha : string;
  message : string;
  commit_author : author
}.

(** The version-controlled medium: the commits that touch the data file,
    newest first, as [listCommits] lists them, and the content of the data
    file at a commit ([None] when the request fails or the path is no
    file). *)
Record medium := {
  log : list commit;
  file_at : string -> option string
}.

(** [getFileHistory(limit)]: the first page of [limit] commits *)
Definition getFileHistory (m : medium) (limit : nat) : list commit :=
  take limit (log m).

(** [getFileAtCommit(sha)].content; [None] is a throw *)
Definition getFileAtCommit (m : medium) (sha : string) : option string :=
  file_at m sha.

(** an entry of a record history *)
Record entry := {
  entry_commit : string;
  entry_message : string;
  entry_author : author;
  entry_date : value;
  record : obj;
  action : string
}.

Definition with_action (a : string) (e : entry) : entry :=
  {| entry_commit := entry_commit e; entry_message := entry_message e;
     entry_author := entry_author e; entry_date := entry_date e;
     record := record e; action := a |}.

(** [items.find(item => item.id === recordId)] for a string [recordId]:
    the outer [None] is the TypeError that reading [id] of [null] raises;
    an item that matches is an object *)
Fixpoint find_record (recordId : string) (items : list value) : option (option obj) :=
  match items with
  | [] => Some None
  | item :: rest =>
      match prop item "id" with
      | None => None
      | Some v =>
          if strict_eq v (VStr recordId)
          then match item with
               | VObj fs => Some (Some fs)
               | _ => Some None
               end
          else find_record recordId rest
      end
  end.

(** the body of the loop of [getRecordHistory] on one commit: the record
    in the data file of the commit, if the file can be fetched and parsed
    and holds the record; an exception leaves the commit out *)
Definition record_at (m : medium) (collection recordId : string) (c : commit)
  : option obj :=
  match getFileAtCommit m (sha c) with
  | None => None
  | Some content =>
      match JSON.parse content with
      | None => None
      | Some data =>
          match prop data collection with
          | Some (VArr items) =>
              match find_record recordId items with
              | Some (Some r) => Some r
              | _ => None
              end
          | _ => None
          end
      end
  end.

(** [JSON.stringify(record1[key]) !== JSON.stringify(record2[key])] *)
Definition field_differs (record1 record2 : obj) (key : string) : bool :=
  negb (bool_decide (JSON.stringify 0 (get key record1)
                     = JSON.stringify 0 (get key record2))).

(** [hasRecordChanged(record1, record2)] on two objects *)
Definition hasRecordChanged (record1 record2 : obj) : bool :=
  let keys1 := keys record1 in
  let keys2 := keys record2 in
  if negb (length keys1 =? length keys2)%nat then true
  else existsb (field_differs record1 record2) keys1.

(** [analyzeRecordHistory(history)]: [previous] is the next entry of the
    array, [null] for the last one *)
Fixpoint analyzeRecordHistory (history : list entry) : list entry :=
  match history with
  | [] => []
  | current :: rest =>
      match rest with
      | [] => [with_action "created" current]
      | previous :: _ =>
          with_action
            (if hasRecordChanged (record current) (record previous)
             then "updated" else "unchanged") current
          :: analyzeRecordHistory rest
      end
  end.

(** [getRecordHistory(collection, recordId, limit)] *)
Definition getRecordHistory (m : medium) (collection recordId : string) (limit : nat)
  : list entry :=
  let commits := getFileHistory m limit in
  let recordHistory :=
    omap (fun c =>
            match record_at m collection recordId c with
            | Some r =>
                Some {| entry_commit := sha c; entry_message := message c;
                        entry_author := commit_author c;
                        entry_date := date (commit_author c);
                        record := r; action := "exists" |}
            | None => None
            end) commits in
  analyzeRecordHistory recordHistory.

(** *** Statistics *)

(** the Number of an integer: the binary64 number nearest to it *)
Definition number_of_Z (z : Z) : PrimFloat.float :=
  FloatOps.SF2Prim (SpecFloat.binary_normalize FloatOps.prec FloatOps.emax z 0 false).

(** ToNumber as a binary64 number; NaN for what is no number *)
Definition number_of (v : value) : PrimFloat.float :=
  match to_number v with
  | Some n => number_of_Z n
  | None => PrimFloat.nan
  end.

(** [Math.round(x)]: the integer nearest to [x], the larger one of two
    that are as near; NaN, the infinities and the integers are left as they
    are, and a result that is zero keeps the sign of [x] *)
Definition math_round (x : PrimFloat.float) : PrimFloat.float :=
  match FloatOps.Prim2SF x with
  | SpecFloat.S754_finite s m e =>
      if 0 <=? e then x
      else
        let d := 2 ^ (- e) in
        let v := if s then Z.neg m else Z.pos m in
        let z := (2 * v + d) / (2 * d) in
        if (z =? 0) && s then PrimFloat.opp PrimFloat.zero else number_of_Z z
  | _ => x
  end.

Record stats := {
  totalCommits : nat;
  firstCommit : option commit;
  lastCommit : option commit;
  authors : list string;
  averageCommitsPerDay : PrimFloat.float
}.

(** [[...new Set(l)]]: the first occurrence of each element, in order *)
Fixpoint dedup (seen l : list string) : list string :=
  match l with
  | [] => []
  | x :: l' =>
      if existsb (String.eqb x) seen then dedup seen l'
      else x :: dedup (x :: seen) l'
  end.

(** [(a - b) / (1000 * 60 * 60 * 24)] on two values *)
Definition days_between (a b : value) : PrimFloat.float :=
  PrimFloat.div (PrimFloat.sub (number_of a) (number_of b))
    (number_of_Z (1000 * 60 * 60 * 24)).

(** [Math.round(x * 100) / 100] *)
Definition round2 (x : PrimFloat.float) : PrimFloat.float :=
  PrimFloat.div (math_round (PrimFloat.mul x (number_of_Z 100))) (number_of_Z 100).

(** [timeSpan > 0 ? n / timeSpan : 0]; a comparison with NaN is false *)
Definition per_day (n : nat) (timeSpan : PrimFloat.float) : PrimFloat.float :=
  if PrimFloat.ltb PrimFloat.zero timeSpan
  then PrimFloat.div (number_of_Z (Z.of_nat n)) timeSpan
  else PrimFloat.zero.

(** [getHistoryStats()] *)
Definition getHistoryStats (m : medium) : stats :=
  let commits := getFileHistory m 100 in
  match commits with
  | [] =>
      {| totalCommits := 0; firstCommit := None; lastCommit := None;
         authors := []; averageCommitsPerDay := PrimFloat.zero |}
  | newest :: _ =>
      let first := List.last commits newest in
      let last := newest in
      let timeSpan :=
        days_between (date (commit_author last)) (date (commit_author first)) in
      {| totalCommits := length commits;
         firstCommit := Some first;
         lastCommit := Some last;
         authors := dedup [] (map (fun c => name (commit_author c)) commits);
         averageCommitsPerDay := round2 (per_day (length commits) timeSpan) |}
  end.

(** the average that the specification states:
    [totalVersions / max(1, dayspan)] *)
Definition stated_average (totalVersions : nat) (dayspan : Q) : Q :=
  (inject_Z (Z.of_nat totalVersions) / Qmax 1 dayspan)%Q.

(** a decimal digit *)
Definition is_digit (c : ascii) : bool :=
  match digit_of c with Some _ => true | None => false end.

(** a time stamp as the service writes it, [YYYY-MM-DDTHH:MM:SSZ]: a
    string that begins with the four digits of the year and a hyphen *)
Definition iso_date (v : value) : bool :=
  match v with
  | VStr (String y1 (String y2 (String y3 (String y4 (String sep _))))) =>
      is_digit y1 && is_digit y2 && is_digit y3 && is_digit y4
      && Ascii.eqb sep "-"
  | _ => false
  end.

(** the entry that the loop of [getRecordHistory] pushes for a commit *)
Definition entry_at (m : medium) (collection recordId : string) (c : commit)
  : option entry :=
  match record_at m collection recordId c with
  | Some r =>
      Some {| entry_commit := sha c; entry_message := message c;
              entry_author := commit_author c;
              entry_date := date (commit_author c);
              record := r; action := "exists" |}
  | None => None
  end.

(** *** The timeline of a collection *)

(** an entry of a collection timeline *)
Record timeline_entry := {
  timeline_commit : string;
  timeline_message : string;
  timeline_author : author;
  timeline_date : value;
  recordCount : value;
  timeline_collection : string
}.

(** the body of the loop of [getCollectionTimeline] on one commit: an
    entry when the file can be fetched and parsed and [data[collection]]
    is truthy; an exception leaves the commit out *)
Definition timeline_at (m : medium) (collection : string) (c : commit)
  : option timeline_entry :=
  match getFileAtCommit m (sha c) with
  | None => None
  | Some content =>
      match JSON.parse content with
      | None => None
      | Some data =>
          match prop data collection with
          | None => None
          | Some items =>
              if truthy items then
                match prop items "length" with
                | Some n =>
                    Some {| timeline_commit := sha c;
                            timeline_message := message c;
                            timeline_author := commit_author c;
                            timeline_date := date (commit_author c);
                            recordCount := n;
                            timeline_collection := collection |}
                | None => None
                end
              else None
          end
      end
  end.

(** [getCollectionTimeline(collection, limit)] *)
Definition getCollectionTimeline (m : medium) (collection : string) (limit : nat)
  : list timeline_entry :=
  omap (timeline_at m collection) (getFileHistory m limit).

End HistoryManager.

(* ===================================================================== *)
(** ** utils/BackupManager *)
(* ===================================================================== *)

Module BackupManager.

(** a file of the backup directory: its name, as [fs.readdir] lists it,
    and its modification time, as [fs.stat] gives it *)
Abbreviation file := (string * Z)%type.

(** [fs.unlink(path)] on the directory *)
Definition unlink (name : string) (dir : list file) : list file :=
  List.filter (fun f => negb (String.eqb (fst f) name)) dir.

(** [cleanupOldBackups()]: the directory afterwards, when every
    [fs.unlink] succeeds (a failure is logged and passed over) *)
Definition cleanupOldBackups (maxBackups : nat) (dir : list file) : list file :=
  let backupFiles := List.filter (fun f => String.prefix "backup-" (fst f)) dir in
  if (maxBackups <? length backupFiles)%nat then
    let sortedFiles := JS.sort (fun a b => snd a - snd b) backupFiles in
    let filesToRemove := take (length sortedFiles - maxBackups) sortedFiles in
    fold_left (fun d f => unlink (fst f) d) filesToRemove dir
  else dir.

(** the backup files of a directory *)
Definition backups (dir : list file) : list file :=
  List.filter (fun f => String.prefix "backup-" (fst f)) dir.

(** the other files of a directory *)
Definition others (dir : list file) : list file :=
  List.filter (fun f => negb (String.prefix "backup-" (fst f))) dir.

(** files in the order of their modification times, oldest first *)
Fixpoint ascending (l : list file) : Prop :=
  match l with
  | [] => True
  | f :: l' => Forall (fun g => snd f <= snd g) l' /\ ascending l'
  end.

End BackupManager.

(* ===================================================================== *)
(** ** Example data *)
(* ===================================================================== *)

(** the four snapshots of the example of the specification, newest first *)
Definition example_medium : HistoryManager.medium :=
  let author (d : string) :=
    {| HistoryManager.name := "dev"; HistoryManager.email := "dev@example.com";
       HistoryManager.date := JS.VStr d |} in
  let snapshot (users : list JS.value) :=
    JSON.stringify 2 (JS.VObj [("users", JS.VArr users)]) in
  let user (age : Z) := JS.VObj [("id", JS.VStr "1"); ("age", JS.VNum age)] in
  {| HistoryManager.log :=
       [ {| HistoryManager.sha := "s4"; HistoryManager.message := "Delete item";
            HistoryManager.commit_author := author "2024-01-04T00:00:00Z" |};
         {| HistoryManager.sha := "s3"; HistoryManager.message := "Update item";
            HistoryManager.commit_author := author "2024-01-03T00:00:00Z" |};
         {| HistoryManager.sha := "s2"; HistoryManager.message := "Add item";
            HistoryManager.commit_author := author "2024-01-02T00:00:00Z" |};
         {| HistoryManager.sha := "s1"; HistoryManager.message := "Initialize";
            HistoryManager.commit_author := author "2024-01-01T00:00:00Z" |} ];
     HistoryManager.file_at := fun sha =>
       if String.eqb sha "s4" then snapshot []
       else if String.eqb sha "s3" then snapshot [user 31]
       else if String.eqb sha "s2" then snapshot [user 30]
       else if String.eqb sha "s1" then snapshot []
       else None |}.


(* ===================================================================== *)
(** * Properties *)
(* ===================================================================== *)

(** ** Objects *)

Section ObjFacts.
Context {A : Type}.
Implicit Types (o : list (string * A)) (k : string) (v : A).

Lemma lookup_set_same k v o : Obj.lookup k (Obj.set k v o) = Some v.
Proof.
  induction o as [|[k' v'] o IH]; simpl.
  - now rewrite String.eqb_refl.
  - destruct (String.eqb k k') eqn:E; simpl; rewrite ?String.eqb_refl, ?E; auto.
Qed.

Lemma lookup_set_other k k' v o :
  k <> k' -> Obj.lookup k (Obj.set k' v o) = Obj.lookup k o.
Proof.
  intros Hne. induction o as [|[k'' v''] o IH]; simpl.
  - destruct (String.eqb_spec k k'); congruence.
  - destruct (String.eqb_spec k' k''); simpl.
    + subst. destruct (String.eqb_spec k k''); congruence.
    + destruct (String.eqb_spec k k''); auto.
Qed.

End ObjFacts.

Lemma get_set_same k v o : JS.get k (Obj.set k v o) = v.
Proof. unfold JS.get. now rewrite lookup_set_same. Qed.

Lemma get_set_other k k' v o : k <> k' -> JS.get k (Obj.set k' v o) = JS.get k o.
Proof. intros H. unfold JS.get. now rewrite lookup_set_other. Qed.

(* ===================================================================== *)
(** ** LockManager.acquireLock *)
(* ===================================================================== *)

Section LockFacts.
Import LockManager.
Variable cfg : config.




End LockFacts.




(* ===================================================================== *)
(** ** GitDB: protected fields (C3) *)
(* ===================================================================== *)

Section ProtectedFields.
Import JS GitDB.

Lemma protected_merge_update now (originalItem updates : obj) :
  protected (merge_update now originalItem updates) = protected originalItem.
Proof.
  unfold protected, merge_update. f_equal.
  - rewrite get_set_other by discriminate.
    rewrite get_set_other by discriminate.
    apply get_set_same.
  - rewrite get_set_other by discriminate.
    apply get_set_same.
Qed.

Lemma findIndex_lt id (items : list obj) i :
  findIndex id items = Some i -> (i < length items)%nat.
Proof.
  revert i. induction items as [|item rest IH]; simpl; intros i H; [discriminate|].
  destruct (strict_eq (get "id" item) id).
  - injection H as <-. lia.
  - destruct (findIndex id rest) as [j|]; [|discriminate].
    injection H as <-. specialize (IH j eq_refl). lia.
Qed.

Lemma map_insert_same {A B} (f : A -> B) (l : list A) i x d :
  f x = f (nth i l d) -> map f (<[i := x]> l) = map f l.
Proof.
  revert i. induction l as [|y l IH]; intros [|i] H; simpl in *; auto.
  - now rewrite H.
  - f_equal. now apply IH.
Qed.

Lemma protected_view_set collection (items items' : list obj) (data : database) :
  Obj.lookup collection data = Some items ->
  map protected items' = map protected items ->
  protected_view (Obj.set collection items' data) = protected_view data.
Proof.
  intros Hl Hm. induction data as [|[c its] data IH]; simpl in *; [discriminate|].
  destruct (String.eqb_spec collection c) as [->|Hne]; simpl.
  - injection Hl as ->. now rewrite Hm.
  - f_equal. now apply IH.
Qed.

Lemma bulk_update_protected cfg e collection id updates data :
  match bulk_step cfg e (OpUpdate collection id updates) data with
  | Ok (data', _) => protected_view data' = protected_view data
  | Err _ => True
  end.
Proof.
  simpl. destruct (Obj.lookup collection data) as [items|] eqn:Hl; auto.
  destruct (findIndex id items) as [i|] eqn:Hi; auto.
  destruct (validate cfg _); simpl; auto.
  eapply protected_view_set; eauto.
  apply map_insert_same with (d := []). apply protected_merge_update.
Qed.

End ProtectedFields.

(** C3.  An update never changes the stored [id] or [createdAt] of any
    record, whatever the update payload holds under these two keys: the
    Database written by [update] has, collection by collection and record
    by record, the same [id] and [createdAt] as the one it read, and the
    record returned carries the [id] and [createdAt] of the record that was
    found.  The same holds of an update operation of [bulkOperation]. *)
Theorem update_keeps_id_and_createdAt
    (cfg : GitDB.config) (acquired : bool) (e : GitDB.env)
    (collection : string) (id : JS.value) (updates : JS.obj)
    (st : GitDB.state) (data : GitDB.database) :
  match GitDB.update cfg acquired e collection id updates st with
  | Ok (updatedItem, st') =>
      GitDB.protected_view (GitDB.storage st')
        = GitDB.protected_view (GitDB.storage st)
      /\ exists itemIndex,
           GitDB.findIndex id (GitDB.collection_of collection (GitDB.storage st))
             = Some itemIndex
           /\ GitDB.collection_of collection (GitDB.storage st') !! itemIndex
                = Some updatedItem
           /\ GitDB.protected updatedItem
                = GitDB.protected
                    (nth itemIndex
                       (GitDB.collection_of collection (GitDB.storage st)) [])
  | Err _ => True
  end
  /\ match GitDB.bulk_step cfg e (GitDB.OpUpdate collection id updates) data with
     | Ok (data', _) => GitDB.protected_view data' = GitDB.protected_view data
     | Err _ => True
     end.
Proof.
  split; [|apply bulk_update_protected].
  unfold GitDB.update, GitDB.locked, GitDB.readDataFile, GitDB.collection_of.
  destruct acquired; auto.
  destruct (Obj.lookup collection (GitDB.storage st)) as [items|] eqn:Hl; auto.
  destruct (GitDB.findIndex id items) as [i|] eqn:Hi; auto.
  destruct (GitDB.validate cfg _); simpl; auto.
  split.
  - eapply protected_view_set; eauto.
    apply map_insert_same with (d := []). apply protected_merge_update.
  - exists i. split; [reflexivity|]. split.
    + rewrite lookup_set_same. apply list_lookup_insert_eq.
      now apply findIndex_lt in Hi.
    + apply protected_merge_update.
Qed.

(* ===================================================================== *)
(** ** GitDB: uniqueness of ids under create (C4) *)
(* ===================================================================== *)

Section UniqueIds.
Import JS GitDB.

Lemma collection_of_push collection item (data : database) :
  collection_of collection (push collection item data)
  = collection_of collection data ++ [item].
Proof.
  unfold push, collection_of.
  destruct (Obj.lookup collection data) as [items|] eqn:Hl;
    now rewrite lookup_set_same.
Qed.

Lemma create_ok cfg e collection item st it st' :
  create cfg true e collection item st = Ok (it, st') ->
  it = stamp_new e item
  /\ storage st' = push collection it (storage st)
  /\ cache st' = cache st /\ heap st' = heap st.
Proof.
  unfold create, locked, readDataFile. destruct (validate cfg _); simpl; [|discriminate].
  intros H. injection H as <- <-. auto.
Qed.

Lemma NoDup_ids_snoc (items : list obj) item :
  NoDup (ids items) -> ~ In (get "id" item) (ids items) ->
  NoDup (ids (items ++ [item])).
Proof.
  intros Hnd Hnotin. unfold ids in *. rewrite map_app. simpl.
  apply NoDup_app. split; [exact Hnd|]. split.
  - intros x Hx Hx'. apply list_elem_of_In in Hx.
    apply list_elem_of_singleton in Hx'. subst. contradiction.
  - apply NoDup_singleton.
Qed.

End UniqueIds.

(** C4 (as amended).  After any sequence of [create] calls on a collection
    whose ids are pairwise distinct, the ids are pairwise distinct again,
    provided every call stores an id (the one its item carries, or the
    generated one when the item carries none) that the collection does not
    hold at the time of the call. *)
Theorem create_keeps_ids_distinct
    (cfg : GitDB.config) (collection : string)
    (calls : list (GitDB.env * JS.obj)) (st : GitDB.state) :
  NoDup (GitDB.ids (GitDB.collection_of collection (GitDB.storage st))) ->
  GitDB.fresh_ids cfg collection calls st ->
  NoDup (GitDB.ids
           (GitDB.collection_of collection
              (GitDB.storage (GitDB.create_all cfg collection calls st)))).
Proof.
  revert st.
  induction calls as [|[e item] rest IH]; intros st Hnd Hfresh;
    cbn [GitDB.create_all GitDB.fresh_ids] in *; auto.
  destruct Hfresh as [Hnotin Hrest].
  destruct (GitDB.create cfg true e collection item st) as [[it st']|err] eqn:Hc.
  - apply IH; auto.
    apply create_ok in Hc as (-> & Hst & _). rewrite Hst, collection_of_push.
    now apply NoDup_ids_snoc.
  - now apply IH.
Qed.

(** Two calls on an empty Database: one item with an id of its own, one
    that gets a generated id. *)
Lemma create_keeps_ids_distinct_witness :
  NoDup (GitDB.ids
           (GitDB.collection_of "users"
              (GitDB.storage
                 (GitDB.create_all
                    {| GitDB.validation := ValidationManager.default;
                       GitDB.cacheTimeout := 300000 |}
                    "users"
                    [({| GitDB.uuid := "7d1f"; GitDB.isoNow1 := "t1";
                         GitDB.isoNow2 := "t1" |},
                      [("id", JS.VStr "a"); ("name", JS.VStr "A")]);
                     ({| GitDB.uuid := "9c2e"; GitDB.isoNow1 := "t2";
                         GitDB.isoNow2 := "t2" |},
                      [("name", JS.VStr "B")])]
                    {| GitDB.storage := []; GitDB.heap := ∅;
                       GitDB.next := 0; GitDB.cache := ∅ |})))).
Proof.
  apply create_keeps_ids_distinct.
  - simpl. apply NoDup_nil_2.
  - simpl. repeat split; try exact I.
    + intros [].
    + intros [H|[]]. discriminate H.
Defined.

(** C4 (as stated) fails: [create] does not look at the ids of the
    collection, and two calls whose items carry the id ["1"] leave two
    records with this id. *)
Lemma create_duplicate_id :
  GitDB.ids
    (GitDB.collection_of "users"
       (GitDB.storage
          (GitDB.create_all
             {| GitDB.validation := ValidationManager.default;
                GitDB.cacheTimeout := 300000 |}
             "users"
             [({| GitDB.uuid := "7d1f"; GitDB.isoNow1 := "t1";
                  GitDB.isoNow2 := "t1" |},
               [("id", JS.VStr "1"); ("name", JS.VStr "A")]);
              ({| GitDB.uuid := "9c2e"; GitDB.isoNow1 := "t2";
                  GitDB.isoNow2 := "t2" |},
               [("id", JS.VStr "1"); ("name", JS.VStr "B")])]
             {| GitDB.storage := []; GitDB.heap := ∅;
                GitDB.next := 0; GitDB.cache := ∅ |})))
  = [JS.VStr "1"; JS.VStr "1"]
  /\ ~ NoDup [JS.VStr "1"; JS.VStr "1"].
Proof.
  split; [reflexivity|].
  intros H. apply NoDup_cons in H as [Hnotin _]. apply Hnotin. left.
Qed.

(* ===================================================================== *)
(** ** GitDB: a collection that does not exist (C10) *)
(* ===================================================================== *)

Section MissingCollection.
Import JS GitDB.

Lemma validate_err cfg item err :
  validate cfg item = Err err -> is_not_found err = false.
Proof.
  unfold validate. destruct (ValidationManager.validateItem _ _); [discriminate|].
  now intros [= <-].
Qed.

Lemma bulk_step_err cfg e op data err :
  bulk_step cfg e op data = Err err -> is_not_found err = false.
Proof.
  destruct op as [c item|c id updates|c id|ty c]; simpl.
  - destruct (validate cfg _) eqn:Hv; simpl; [discriminate|].
    intros [= <-]. eapply validate_err; eauto.
  - destruct (Obj.lookup c data); [|discriminate].
    destruct (findIndex id l); [|discriminate].
    destruct (validate cfg _) eqn:Hv; simpl; [discriminate|].
    intros [= <-]. eapply validate_err; eauto.
  - destruct (Obj.lookup c data); [|discriminate].
    destruct (findIndex id l); discriminate.
  - discriminate.
Qed.

Lemma bulk_loop_err cfg ops : forall data err,
  bulk_loop cfg ops data = Err err -> is_not_found err = false.
Proof.
  induction ops as [|[op e] rest IH]; intros data err; simpl; [discriminate|].
  destruct (bulk_step cfg e op data) as [[data1 r]|err1] eqn:Hs; simpl.
  - destruct (bulk_loop cfg rest data1) as [[data2 rs]|err2] eqn:Hl; simpl;
      [discriminate|].
    intros [= <-]. eapply IH; eauto.
  - intros [= <-]. eapply bulk_step_err; eauto.
Qed.

Lemma read_missing cfg now collection q st :
  Obj.lookup collection (storage st) = None ->
  cache_hit cfg now (cacheKey collection q) st = None ->
  read cfg now collection q st = alloc [] st.
Proof.
  intros Hl Hc. unfold read, readDataFile. now rewrite Hc, Hl.
Qed.

Lemma deref_alloc items st :
  deref (snd (alloc items st)) (fst (alloc items st)) = items.
Proof. unfold deref, alloc. simpl. now rewrite lookup_insert_eq. Qed.

End MissingCollection.

(* ===================================================================== *)
(** ** GitDB: the read cache under create and under sort (C5, C7) *)
(* ===================================================================== *)

(** C5 (the code departs from it).  [create] returns without touching the
    cache: a read of the collection that was cached before the call is
    answered again from the cache after it, as long as the entry has not
    expired, with the array of before the call, which lacks the record
    that the collection now holds. *)
Theorem create_leaves_cached_read_stale
    (cfg : GitDB.config) (e : GitDB.env) (collection : string) (item : JS.obj)
    (st st' : GitDB.state) (created : JS.obj)
    (now : Z) (q : GitDB.query) (loc : nat) :
  GitDB.create cfg true e collection item st = Ok (created, st') ->
  GitDB.cache_hit cfg now (GitDB.cacheKey collection q) st = Some loc ->
  GitDB.read cfg now collection q st' = (loc, st')
  /\ GitDB.deref st' loc = GitDB.deref st loc
  /\ GitDB.collection_of collection (GitDB.storage st')
     = GitDB.collection_of collection (GitDB.storage st) ++ [created].
Proof.
  intros Hc Hhit. apply create_ok in Hc as (-> & Hst & Hcache & Hheap).
  repeat split.
  - unfold GitDB.read, GitDB.cache_hit in *. rewrite Hcache.
    destruct (GitDB.cache st !! _) as [[l t]|]; [|discriminate].
    destruct (now - t <? GitDB.cacheTimeout cfg); [|discriminate].
    now injection Hhit as ->.
  - unfold GitDB.deref. now rewrite Hheap.
  - rewrite Hst. apply collection_of_push.
Qed.

(** The collection ["users"] is empty and has been read; a user is created;
    a second later the read still returns the empty array. *)
Lemma create_leaves_cached_read_stale_witness :
  let cfg := {| GitDB.validation := ValidationManager.default;
                GitDB.cacheTimeout := 300000 |} in
  let e := {| GitDB.uuid := "7d1f"; GitDB.isoNow1 := "t1"; GitDB.isoNow2 := "t1" |} in
  let st0 := {| GitDB.storage := [("users", [])];
                GitDB.heap := ∅; GitDB.next := 0; GitDB.cache := ∅ |} in
  let st1 := snd (GitDB.read cfg 0 "users" [] st0) in
  match GitDB.create cfg true e "users" [("name", JS.VStr "A")] st1 with
  | Ok (created, st2) =>
      GitDB.deref st2 (fst (GitDB.read cfg 1000 "users" [] st2)) = []
      /\ GitDB.collection_of "users" (GitDB.storage st2) = [created]
  | Err _ => False
  end.
Proof.
  intros cfg e st0 st1.
  destruct (GitDB.create cfg true e "users" [("name", JS.VStr "A")] st1)
    as [[created st2]|err] eqn:Hc; [|discriminate Hc].
  destruct (create_leaves_cached_read_stale cfg e "users" _ st1 st2 created
              1000 [] 0%nat Hc eq_refl) as (Hr & Hd & Hs).
  rewrite Hr. simpl. split; [rewrite Hd; reflexivity | exact Hs].
Defined.

(** The sibling queries [filter] and [limit] answer with a new array and
    leave the cached one as it is. *)
Lemma filter_limit_keep_cached_array
    (cfg : GitDB.config) (now : Z) (collection : string)
    (predicate : JS.obj -> bool) (n offset : nat) (st : GitDB.state) (loc : nat) :
  GitDB.cache_hit cfg now (GitDB.cacheKey collection []) st = Some loc ->
  (loc < GitDB.next st)%nat ->
  GitDB.deref (snd (GitDB.filter cfg now collection predicate st)) loc
    = GitDB.deref st loc
  /\ GitDB.deref (snd (GitDB.limit cfg now collection n offset st)) loc
     = GitDB.deref st loc.
Proof.
  intros Hhit Hlt. unfold GitDB.filter, GitDB.limit, GitDB.read. rewrite Hhit.
  unfold GitDB.alloc, GitDB.deref. cbn [snd GitDB.heap].
  rewrite !lookup_insert_ne by lia. split; reflexivity.
Qed.

(** C7 (the code departs from it).  [sort] sorts in place the array object
    that [read] returns: when the read is answered from the cache, the
    cached array itself is put in sorted order, while the Database is left
    as it was. *)
Theorem sort_reorders_cached_array
    (cfg : GitDB.config) (now : Z) (collection sortBy order : string)
    (st : GitDB.state) (loc : nat) :
  GitDB.cache_hit cfg now (GitDB.cacheKey collection []) st = Some loc ->
  fst (GitDB.sort cfg now collection sortBy order st) = loc
  /\ GitDB.deref (snd (GitDB.sort cfg now collection sortBy order st)) loc
     = JS.sort (GitDB.compare_by sortBy order) (GitDB.deref st loc)
  /\ GitDB.storage (snd (GitDB.sort cfg now collection sortBy order st))
     = GitDB.storage st
  /\ GitDB.cache (snd (GitDB.sort cfg now collection sortBy order st))
     = GitDB.cache st.
Proof.
  intros Hhit. unfold GitDB.sort, GitDB.read. rewrite Hhit.
  unfold GitDB.sort_in_place. simpl. repeat split.
  unfold GitDB.deref at 1. simpl. now rewrite lookup_insert_eq.
Qed.

(** Two users stored in the order of their creation, aged 30 and 20: after
    a read and a sort by age, the array that the read returned, and that
    the cache holds, lists the user aged 20 first. *)
Lemma sort_reorders_cached_array_witness :
  let cfg := {| GitDB.validation := ValidationManager.default;
                GitDB.cacheTimeout := 300000 |} in
  let u1 := [("id", JS.VStr "1"); ("age", JS.VNum 30)] in
  let u2 := [("id", JS.VStr "2"); ("age", JS.VNum 20)] in
  let st0 := {| GitDB.storage := [("users", [u1; u2])];
                GitDB.heap := ∅; GitDB.next := 0; GitDB.cache := ∅ |} in
  let r := GitDB.read cfg 0 "users" [] st0 in
  let st2 := snd (GitDB.sort cfg 1000 "users" "age" "asc" (snd r)) in
  GitDB.deref (snd r) (fst r) = [u1; u2]
  /\ GitDB.deref st2 (fst r) = [u2; u1]
  /\ GitDB.deref (snd (GitDB.read cfg 2000 "users" [] st2))
       (fst (GitDB.read cfg 2000 "users" [] st2)) = [u2; u1]
  /\ GitDB.storage st2 = [("users", [u1; u2])].
Proof.
  intros cfg u1 u2 st0 r st2.
  destruct (sort_reorders_cached_array cfg 1000 "users" "age" "asc" (snd r)
              0%nat eq_refl) as (_ & Hd & Hs & _).
  split; [reflexivity|]. split; [exact Hd|]. split; [reflexivity|exact Hs].
Defined.

(* ===================================================================== *)
(** ** The version check at write time (C1) *)
(* ===================================================================== *)

(** C1 (as amended).  The write of a mutating operation to the GitHub
    medium supplies, as the expected version, the sha that the write itself
    fetches just before its update request, not the version of the
    snapshot that the operation read.  So the write is rejected with the
    version conflict exactly when the version moves between that fetch and
    the update request; whatever happened to the medium between the read
    of the operation and its write, the write goes through and installs
    the content computed from the snapshot read.  The write to a local
    file supplies no version and always goes through. *)
Theorem write_checks_version_fetched_at_write
    (mutate : string -> string)
    (before_write between : GitHubStorage.remote -> GitHubStorage.remote)
    (before_local : LocalStorage.medium -> LocalStorage.medium)
    (r : GitHubStorage.remote) (m : LocalStorage.medium) :
  (GitHubStorage.current_sha (between (before_write r))
     = GitHubStorage.current_sha (before_write r) ->
   exists r',
     Cycle.github mutate before_write between r = Ok r'
     /\ GitHubStorage.read r' = mutate (GitHubStorage.read r))
  /\ (GitHubStorage.current_sha (between (before_write r))
        <> GitHubStorage.current_sha (before_write r) ->
      Cycle.github mutate before_write between r
      = Err GitHubStorage.VersionConflict)
  /\ LocalStorage.read (Cycle.local mutate before_local m)
     = mutate (LocalStorage.read m).
Proof.
  unfold Cycle.github, Cycle.local, GitHubStorage.write,
    GitHubStorage.getFileInfo, GitHubStorage.createOrUpdateFileContents.
  repeat split.
  - intros Heq. rewrite decide_True by (symmetry; exact Heq).
    eexists. split; reflexivity.
  - intros Hne. rewrite decide_False; [reflexivity|].
    intros Heq. apply Hne. symmetry. exact Heq.
Qed.

(** The data file holds the empty Database at version 1.  An operation
    reads it; another client then replaces the file; the operation writes
    with nothing happening during its write: it goes through.  With the
    other client acting during the write instead, it is rejected. *)
Lemma write_checks_version_fetched_at_write_witness :
  let r0 := {| GitHubStorage.file := Some ("{}", 1%nat); GitHubStorage.fresh := 2%nat |} in
  (exists r',
     Cycle.github (fun content => content +:+ " ")
       (GitHubStorage.other_write "[1]") (fun r => r) r0 = Ok r'
     /\ GitHubStorage.read r' = "{} ")
  /\ Cycle.github (fun content => content +:+ " ")
       (fun r => r) (GitHubStorage.other_write "[1]") r0
     = Err GitHubStorage.VersionConflict.
Proof.
  intros r0. split.
  - apply (proj1 (write_checks_version_fetched_at_write
             (fun content => content +:+ " ")
             (GitHubStorage.other_write "[1]") (fun r => r) (fun m => m) r0 None)).
    reflexivity.
  - apply (proj1 (proj2 (write_checks_version_fetched_at_write
             (fun content => content +:+ " ")
             (fun r => r) (GitHubStorage.other_write "[1]") (fun m => m) r0 None))).
    vm_compute. discriminate.
Defined.

(** C1 (as stated) fails: the operation reads the data file at version 1,
    another client moves it to version 2, and the write of the operation is
    accepted: it names version 2, fetched at write time, and replaces the
    newer snapshot. *)
Lemma write_overwrites_newer_snapshot :
  let r0 := {| GitHubStorage.file := Some ("{}", 1%nat); GitHubStorage.fresh := 2%nat |} in
  GitHubStorage.current_sha r0 = Some 1%nat
  /\ GitHubStorage.other_write "[1]" r0
     = {| GitHubStorage.file := Some ("[1]", 2%nat); GitHubStorage.fresh := 3%nat |}
  /\ Cycle.github (fun content => content +:+ " ")
       (GitHubStorage.other_write "[1]") (fun r => r) r0
     = Ok {| GitHubStorage.file := Some ("{} ", 3%nat); GitHubStorage.fresh := 4%nat |}.
Proof. repeat split. Qed.

(* ===================================================================== *)
(** ** Record history (C2) *)
(* ===================================================================== *)

Section RecordHistory.
Import JS HistoryManager.

Lemma analyze_actions (history : list entry) :
  Forall (fun e => action e = "created" \/ action e = "updated"
                   \/ action e = "unchanged")
    (analyzeRecordHistory history).
Proof.
  induction history as [|current rest IH]; simpl; [constructor|].
  destruct rest as [|previous rest'].
  - constructor; [|constructor]. now left.
  - constructor; [|exact IH].
    simpl. destruct (hasRecordChanged _ _); auto.
Qed.

Lemma analyze_records (history : list entry) :
  map record (analyzeRecordHistory history) = map record history.
Proof.
  induction history as [|current rest IH]; simpl; auto.
  destruct rest as [|previous rest']; simpl in *; [reflexivity|].
  now rewrite IH.
Qed.

End RecordHistory.

(** C2 (the code departs from it).  A record history has one entry for
    each version, of those inspected, whose snapshot holds the record, with
    the record of that version as its body, in the order of the log
    (newest first); each entry is labelled [created], [updated] or
    [unchanged], and none [deleted].  On the example of the specification
    the history of user 1 is [updated] at S3, then [created] at S2;
    nothing reports the deletion at S4. *)
Theorem getRecordHistory_never_reports_deletion :
  (forall (m : HistoryManager.medium) (collection recordId : string) (limit : nat),
     Forall (fun e => HistoryManager.action e = "created"
                      \/ HistoryManager.action e = "updated"
                      \/ HistoryManager.action e = "unchanged")
       (HistoryManager.getRecordHistory m collection recordId limit)
     /\ map HistoryManager.record
          (HistoryManager.getRecordHistory m collection recordId limit)
        = omap (HistoryManager.record_at m collection recordId)
            (HistoryManager.getFileHistory m limit))
  /\ map (fun e => (HistoryManager.entry_commit e, HistoryManager.action e))
       (HistoryManager.getRecordHistory example_medium "users" "1" 50)
     = [("s3", "updated"); ("s2", "created")].
Proof.
  split.
  - intros. split; [apply analyze_actions|].
    unfold HistoryManager.getRecordHistory. rewrite analyze_records.
    induction (HistoryManager.getFileHistory m limit) as [|c commits IH];
      [reflexivity|].
    cbn [omap list_omap].
    destruct (HistoryManager.record_at m collection recordId c);
      cbn [map HistoryManager.record]; now rewrite IH.
  - vm_compute. reflexivity.
Qed.

(* ===================================================================== *)
(** ** History statistics (C9) *)
(* ===================================================================== *)

Section HistoryStats.
Import JS HistoryManager.

Lemma digit_plain c :
  is_digit c = true ->
  is_space c = false /\ Ascii.eqb c "-" = false /\ Ascii.eqb c "+" = false.
Proof.
  destruct c as [[] [] [] [] [] [] [] []]; try discriminate; now repeat split.
Qed.

Lemma trim_end_cons c s :
  trim_end s <> EmptyString \/ is_space c = false ->
  trim_end (String c s) = String c (trim_end s).
Proof.
  intros H. cbn [trim_end]. destruct (trim_end s) eqn:E; [|reflexivity].
  destruct H as [H|H]; [now contradiction H|now rewrite H].
Qed.

(** a string that begins with a digit is read as a number from its first
    character on *)
Lemma string_to_number_digit c r r' :
  is_digit c = true ->
  trim (String c r) = String c r' ->
  string_to_number (String c r) = digits_value 0 (String c r').
Proof.
  intros Hd Ht. unfold string_to_number. rewrite Ht.
  destruct c as [[] [] [] [] [] [] [] []]; try discriminate; reflexivity.
Qed.

(** the time stamps of the service are no numbers *)
Lemma iso_date_not_a_number v : iso_date v = true -> to_number v = None.
Proof.
  destruct v as [| |b|n|s|l|fs]; try discriminate.
  destruct s as [|y1 [|y2 [|y3 [|y4 [|sep t]]]]]; try discriminate.
  cbn [iso_date]. rewrite !andb_true_iff.
  intros [[[[H1 H2] H3] H4] Hsep]. apply Ascii.eqb_eq in Hsep. subst sep.
  destruct (digit_plain _ H1) as (Hs1 & _).
  cbn [to_number to_primitive].
  assert (trim (String y1 (String y2 (String y3 (String y4 (String "-" t)))))
          = String y1 (String y2 (String y3 (String y4
              (String "-" (trim_end t)))))) as Htrim.
  { unfold trim. cbn [trim_start]. rewrite Hs1.
    assert (trim_end (String "-" t) = String "-" (trim_end t)) as E5
      by (apply trim_end_cons; now right).
    assert (forall c s r, trim_end s = String "-" r ->
              trim_end (String c s) = String c (trim_end s)) as Hup.
    { intros c s r E. apply trim_end_cons. left. rewrite E. discriminate. }
    assert (forall c c' s r, trim_end s = String c' r ->
              trim_end (String c s) = String c (String c' r)) as Hup'.
    { intros c c' s r E. rewrite trim_end_cons; [now rewrite E|].
      left. rewrite E. discriminate. }
    rewrite (Hup' y1 y2 _ _
               (Hup' y2 y3 _ _ (Hup' y3 y4 _ _ (Hup' y4 "-"%char _ _ E5)))).
    reflexivity. }
  rewrite (string_to_number_digit _ _ _ H1 Htrim).
  cbn [digits_value].
  destruct (digit_of y1); [|reflexivity].
  destruct (digit_of y2); [|reflexivity].
  destruct (digit_of y3); [|reflexivity].
  destruct (digit_of y4); reflexivity.
Qed.

(** without a number of days, the average is zero *)
Lemma per_day_of_dates n (a b : value) :
  to_number a = None -> to_number b = None ->
  round2 (per_day n (days_between a b)) = PrimFloat.zero.
Proof.
  intros Ha Hb. unfold days_between, number_of. rewrite Ha, Hb.
  unfold per_day.
  replace (PrimFloat.ltb PrimFloat.zero
             (PrimFloat.div (PrimFloat.sub PrimFloat.nan PrimFloat.nan)
                (number_of_Z (1000 * 60 * 60 * 24))))
    with false by (vm_compute; reflexivity).
  vm_compute. reflexivity.
Qed.

Lemma stated_average_positive (total : nat) (dayspan : Q) :
  (0 < total)%nat -> (0 < stated_average total dayspan)%Q.
Proof.
  intros Hn. unfold stated_average.
  apply Qlt_shift_div_l.
  - apply Qlt_le_trans with (y := 1%Q); [reflexivity|apply Q.le_max_l].
  - rewrite Qmult_0_l. unfold Qlt. simpl. lia.
Qed.

End HistoryStats.

(** C9.  The average of [getHistoryStats] is not
    [totalVersions / max(1, dayspan)]: for every non-empty version log
    whose newest and oldest time stamps are the ISO 8601 strings that the
    service delivers, the difference of the two strings is NaN and the
    average is 0, so it is not positive, while the stated average is
    positive whatever the span of days. *)
Theorem history_stats_average_is_zero
    (m : HistoryManager.medium) (newest : HistoryManager.commit)
    (rest : list HistoryManager.commit) :
  HistoryManager.getFileHistory m 100 = newest :: rest ->
  HistoryManager.iso_date
    (HistoryManager.date (HistoryManager.commit_author newest)) = true ->
  HistoryManager.iso_date
    (HistoryManager.date
       (HistoryManager.commit_author (List.last (newest :: rest) newest))) = true ->
  let total := length (newest :: rest) in
  let average := HistoryManager.averageCommitsPerDay (HistoryManager.getHistoryStats m) in
  HistoryManager.totalCommits (HistoryManager.getHistoryStats m) = total
  /\ average = PrimFloat.zero
  /\ PrimFloat.ltb PrimFloat.zero average = false
  /\ forall dayspan : Q, (0 < HistoryManager.stated_average total dayspan)%Q.
Proof.
  intros Hlog Ha Hb total average.
  assert (average = PrimFloat.zero) as Hzero.
  { unfold average, HistoryManager.getHistoryStats. rewrite Hlog.
    cbn [HistoryManager.averageCommitsPerDay].
    apply per_day_of_dates; now apply iso_date_not_a_number. }
  split; [|split; [exact Hzero|split]].
  - unfold HistoryManager.getHistoryStats. now rewrite Hlog.
  - rewrite Hzero. reflexivity.
  - intros dayspan. apply stated_average_positive. unfold total. simpl. lia.
Qed.

(** The four versions of the example of the specification, dated from the
    first to the fourth of January: the stated average is 4/3, the average
    of the code is 0. *)
Lemma history_stats_average_is_zero_witness :
  HistoryManager.totalCommits (HistoryManager.getHistoryStats example_medium) = 4%nat
  /\ HistoryManager.averageCommitsPerDay (HistoryManager.getHistoryStats example_medium)
     = PrimFloat.zero
  /\ (HistoryManager.stated_average 4 3 == 4 # 3)%Q.
Proof.
  destruct (history_stats_average_is_zero example_medium _ _
              eq_refl eq_refl eq_refl) as (Ht & Hz & _).
  split; [exact Ht|]. split; [exact Hz|]. reflexivity.
Defined.

(** Where the time stamps are numbers the average is computed on binary64
    numbers: three versions over 9216000 milliseconds are 28.124999999999996
    versions a day, which [Math.round] brings to 28.12. *)
Lemma history_stats_of_numeric_dates :
  let c (s : string) (t : Z) :=
    {| HistoryManager.sha := s; HistoryManager.message := "Update database";
       HistoryManager.commit_author :=
         {| HistoryManager.name := "dev"; HistoryManager.email := "dev@example.com";
            HistoryManager.date := JS.VNum t |} |} in
  let m := {| HistoryManager.log := [c "s3" 9216000; c "s2" 5; c "s1" 0];
              HistoryManager.file_at := fun _ => None |} in
  HistoryManager.averageCommitsPerDay (HistoryManager.getHistoryStats m)
  = PrimFloat.div (HistoryManager.number_of_Z 2812) (HistoryManager.number_of_Z 100).
Proof. vm_compute. reflexivity. Qed.

(* ===================================================================== *)
(** ** JSON: reading back what [JSON.stringify] writes (C8) *)
(* ===================================================================== *)

Section JSONText.
Import JS JSON.

(** *** Strings *)

Lemma app_cons c s t : String c s +:+ t = String c (s +:+ t).
Proof. reflexivity. Qed.

Lemma app_empty s : EmptyString +:+ s = s.
Proof. reflexivity. Qed.

Lemma app_assoc3 (a b c : string) : (a +:+ b) +:+ c = a +:+ (b +:+ c).
Proof. induction a as [|x a IH]; [reflexivity|]. now rewrite !app_cons, IH. Qed.

Lemma length_app (a b : string) :
  String.length (a +:+ b) = (String.length a + String.length b)%nat.
Proof. induction a as [|x a IH]; [reflexivity|]. rewrite app_cons. simpl. now rewrite IH. Qed.

(** *** White space *)

Lemma blank_app a b : blank a = true -> blank b = true -> blank (a +:+ b) = true.
Proof.
  induction a as [|x a IH]; intros Ha Hb; [exact Hb|].
  rewrite app_cons. simpl in *. apply andb_prop in Ha as [-> Ha]. now apply IH.
Qed.

Lemma blank_spaces n : blank (spaces n) = true.
Proof. induction n; simpl; auto. Qed.

Lemma skip_ws_blank w s : blank w = true -> skip_ws (w +:+ s) = skip_ws s.
Proof.
  induction w as [|x w IH]; intros Hw; [reflexivity|].
  rewrite app_cons. simpl in *. apply andb_prop in Hw as [-> Hw]. now apply IH.
Qed.

Lemma skip_ws_head c s : is_ws c = false -> skip_ws (String c s) = String c s.
Proof. intros H. simpl. now rewrite H. Qed.

Lemma skip_ws_idem s : skip_ws (skip_ws s) = skip_ws s.
Proof.
  induction s as [|c s IH]; [reflexivity|]. simpl.
  destruct (is_ws c) eqn:E; [exact IH|]. simpl. now rewrite E.
Qed.

(** *** String literals *)

Lemma parse_chars_quote_char c tail :
  parse_chars (quote_char c +:+ tail)
  = match parse_chars tail with
    | Some (str, rest) => Some (String c str, rest)
    | None => None
    end.
Proof.
  destruct c as [[] [] [] [] [] [] [] []]; reflexivity.
Qed.

Lemma parse_chars_quote s rest :
  parse_chars (quote_chars s +:+ String DQ rest) = Some (s, rest).
Proof.
  induction s as [|c s IH]; [reflexivity|].
  simpl quote_chars. rewrite app_assoc3, parse_chars_quote_char. now rewrite IH.
Qed.

Lemma quote_app s rest :
  quote s +:+ rest = String DQ (quote_chars s +:+ String DQ rest).
Proof. unfold quote. now rewrite app_cons, app_assoc3. Qed.

Lemma length_quote s : (2 <= String.length (quote s))%nat.
Proof. unfold quote. simpl. rewrite length_app. simpl. lia. Qed.

(** *** Numbers *)

Lemma delimited_blank w c r :
  blank w = true -> delimited (String c r) = true ->
  delimited (w +:+ String c r) = true.
Proof.
  destruct w as [|x w]; intros Hw Hd; [exact Hd|].
  rewrite app_cons. simpl in *. apply andb_prop in Hw as [-> _]. reflexivity.
Qed.

Lemma delimited_ends rest : delimited rest = true -> ends_number rest = true.
Proof.
  destruct rest as [|c r]; [reflexivity|].
  destruct c as [[] [] [] [] [] [] [] []]; simpl; intros H;
    try reflexivity; discriminate H.
Qed.

Lemma delimited_no_digit rest :
  delimited rest = true ->
  match rest with
  | EmptyString => True
  | String c _ => digit_of c = None
  end.
Proof.
  destruct rest as [|c r]; [auto|].
  destruct c as [[] [] [] [] [] [] [] []]; simpl; intros H;
    try reflexivity; discriminate H.
Qed.

Lemma read_uint_string u rest :
  match rest with
  | EmptyString => True
  | String c _ => digit_of c = None
  end ->
  read_uint (NilEmpty.string_of_uint u +:+ rest) = (u, rest).
Proof.
  intros Hrest.
  induction u as [|u IH|u IH|u IH|u IH|u IH|u IH|u IH|u IH|u IH|u IH];
    simpl NilEmpty.string_of_uint;
    rewrite ?app_cons; cbn [read_uint digit_of]; rewrite ?IH; try reflexivity.
  rewrite app_empty. destruct rest as [|c r]; [reflexivity|].
  cbn [read_uint]. now rewrite Hrest.
Qed.

Lemma to_uint_normal (m : N) u : N.to_uint m = Decimal.D0 u -> u = Decimal.Nil.
Proof.
  intros H.
  pose proof (DecimalN.Unsigned.to_of (N.to_uint m)) as Hn.
  rewrite DecimalN.Unsigned.of_to, H in Hn.
  unfold Decimal.unorm in Hn. rewrite DecimalFacts.nzhead_D0 in Hn.
  destruct (Decimal.nzhead u) eqn:E; try discriminate Hn.
  - now injection Hn.
  - exfalso. apply (DecimalFacts.nzhead_nonzero u u0). rewrite E.
    injection Hn as ->. reflexivity.
Qed.

Lemma to_uint_not_nil (m : N) : N.to_uint m <> Decimal.Nil.
Proof.
  intros H. pose proof (DecimalN.Unsigned.to_of (N.to_uint m)) as Hn.
  rewrite DecimalN.Unsigned.of_to, H in Hn. discriminate Hn.
Qed.

Lemma parse_unsigned_to_uint (m : N) rest :
  delimited rest = true ->
  parse_unsigned (NilZero.string_of_uint (N.to_uint m) +:+ rest)
  = Some (Z.of_N m, rest).
Proof.
  intros Hd. unfold parse_unsigned.
  assert (NilZero.string_of_uint (N.to_uint m)
          = NilEmpty.string_of_uint (N.to_uint m)) as ->.
  { pose proof (to_uint_not_nil m). now destruct (N.to_uint m). }
  rewrite read_uint_string by now apply delimited_no_digit.
  rewrite delimited_ends by exact Hd.
  pose proof (DecimalN.Unsigned.of_to m) as Hof.
  pose proof (to_uint_not_nil m) as Hnn.
  pose proof (to_uint_normal m) as Hnorm.
  destruct (N.to_uint m) as [|u|u|u|u|u|u|u|u|u|u]; try congruence.
  rewrite (Hnorm u eq_refl) in *. simpl in Hof. now subst m.
Qed.

End JSONText.

Section JSONValues.
Import JS JSON.

Lemma uint_string_head (u : Decimal.uint) :
  u <> Decimal.Nil ->
  exists c r, NilEmpty.string_of_uint u = String c r /\ digit_of c <> None.
Proof.
  destruct u; intros H; try congruence; simpl; eexists _, _; split;
    try reflexivity; discriminate.
Qed.

(** the first character of a rendered integer *)
Lemma dec_head n :
  exists c r, dec n = String c r
              /\ (c = "-"%char \/ digit_of c <> None).
Proof.
  unfold dec. destruct (n <? 0).
  - rewrite app_cons, app_empty. eexists _, _. split; [reflexivity|now left].
  - rewrite app_empty.
    pose proof (to_uint_not_nil (Z.abs_N n)) as Hnn.
    destruct (uint_string_head _ Hnn) as (c & r & Hs & Hc).
    exists c, r. split; [|now right].
    rewrite <- Hs. now destruct (N.to_uint (Z.abs_N n)).
Qed.

Lemma parse_number_dec n rest :
  delimited rest = true -> parse_number (dec n +:+ rest) = Some (n, rest).
Proof.
  intros Hd. unfold dec.
  destruct (Z.ltb_spec n 0) as [Hneg|Hpos].
  - rewrite !app_cons, !app_empty. unfold parse_number.
    change (after "-" (String "-" (NilZero.string_of_uint (N.to_uint (Z.abs_N n)) +:+ rest)))
      with (Some (NilZero.string_of_uint (N.to_uint (Z.abs_N n)) +:+ rest)).
    cbv iota beta.
    rewrite parse_unsigned_to_uint by exact Hd.
    f_equal. f_equal. lia.
  - rewrite app_empty. unfold parse_number.
    pose proof (to_uint_not_nil (Z.abs_N n)) as Hnn.
    assert (after "-" (NilZero.string_of_uint (N.to_uint (Z.abs_N n)) +:+ rest)
            = None) as ->.
    { destruct (N.to_uint (Z.abs_N n)); try congruence; reflexivity. }
    rewrite parse_unsigned_to_uint by exact Hd.
    f_equal. f_equal. lia.
Qed.

(** a text that starts like a number is read as a number *)
Lemma parse_value_number fuel c s :
  c = "-"%char \/ digit_of c <> None ->
  parse_value (S fuel) (String c s)
  = match parse_number (String c s) with
    | Some (n, rest) => Some (VNum n, rest)
    | None => None
    end.
Proof.
  intros [->|Hc]; [reflexivity|].
  destruct c as [[] [] [] [] [] [] [] []]; try (exfalso; apply Hc; reflexivity);
    reflexivity.
Qed.

(** white space before a value is passed over *)
Lemma parse_value_blank fuel w s :
  blank w = true -> parse_value fuel (w +:+ s) = parse_value fuel s.
Proof.
  intros Hw. destruct fuel as [|fuel]; [reflexivity|].
  cbn [parse_value]. now rewrite skip_ws_blank.
Qed.

(** *** Induction on values *)

Lemma value_induction (P : value -> Prop) :
  P VUndefined -> P VNull -> (forall b, P (VBool b)) -> (forall n, P (VNum n)) ->
  (forall s, P (VStr s)) ->
  (forall l, Forall P l -> P (VArr l)) ->
  (forall fs, Forall (fun kv => P (snd kv)) fs -> P (VObj fs)) ->
  forall v, P v.
Proof.
  intros Hu Hn Hb Hz Hs Ha Ho.
  fix IH 1. intros [| |b|n|s|l|fs].
  - exact Hu.
  - exact Hn.
  - apply Hb.
  - apply Hz.
  - apply Hs.
  - apply Ha. induction l as [|e l IHl]; constructor; [apply IH|exact IHl].
  - apply Ho. induction fs as [|[k e] fs IHfs]; constructor; [apply IH|exact IHfs].
Qed.

(** *** Objects rebuilt member by member *)

Lemma set_fresh (k : string) (v : value) (o : obj) :
  ~ In k (map fst o) -> Obj.set k v o = o ++ [(k, v)].
Proof.
  induction o as [|[k' v'] o IH]; simpl; intros H; [reflexivity|].
  destruct (String.eqb_spec k k') as [->|Hne]; [exfalso; apply H; now left|].
  f_equal. apply IH. intros Hin. apply H. now right.
Qed.

Lemma spread_nodup (fs : obj) : forall acc : obj,
  NoDup (map fst (acc ++ fs)) -> Obj.spread acc fs = acc ++ fs.
Proof.
  unfold Obj.spread.
  induction fs as [|[k v] fs IH]; intros acc Hnd; simpl.
  - now rewrite app_nil_r.
  - rewrite set_fresh.
    + rewrite IH; rewrite <- app_assoc; [reflexivity|exact Hnd].
    + rewrite map_app in Hnd. apply NoDup_app in Hnd as (_ & Hdisj & _).
      intros Hin. apply (Hdisj k); [now apply list_elem_of_In|]. simpl. left.
Qed.

End JSONValues.

Section JSONRoundTrip.
Import JS JSON.

Lemma after_same c s : after c (String c s) = Some s.
Proof. unfold after. now rewrite Ascii.eqb_refl. Qed.

Lemma after_other c c' s : Ascii.eqb c c' = false -> after c (String c' s) = None.
Proof. intros H. unfold after. now rewrite H. Qed.

Lemma wrap_shape opening closing gap ind x partial :
  wrap opening closing gap ind (x :: partial)
  = opening +:+ pre_of gap ind
      +:+ join (String "," (pre_of gap ind)) (x :: partial)
      +:+ post_of gap ind +:+ closing.
Proof.
  unfold wrap, pre_of, post_of.
  destruct (String.eqb gap EmptyString); rewrite ?app_assoc3, ?app_empty; reflexivity.
Qed.

Lemma blank_pre_of gap ind :
  blank gap = true -> blank ind = true -> blank (pre_of gap ind) = true.
Proof.
  intros Hg Hi. unfold pre_of. destruct (String.eqb gap EmptyString); [reflexivity|].
  apply blank_app; [reflexivity|]. now apply blank_app.
Qed.

Lemma blank_post_of gap ind : blank ind = true -> blank (post_of gap ind) = true.
Proof.
  intros Hi. unfold post_of. destruct (String.eqb gap EmptyString); [reflexivity|].
  now apply blank_app.
Qed.

Lemma elements_read (l : list value) gap ind pre :
  Forall reads_back l -> forallb is_json l = true ->
  blank gap = true -> blank ind = true -> blank pre = true ->
  let strs := map (fun e => match ser gap ind e with
                            | Some str => str
                            | None => "null"
                            end) l in
  (need_elements l <= String.length (join (String "," pre) strs) + 1)%nat
  /\ (l <> [] -> head_ok (join (String "," pre) strs))
  /\ forall post fuel rest,
       blank post = true -> (need_elements l <= fuel)%nat -> l <> [] ->
       parse_elements fuel
         (pre +:+ join (String "," pre) strs +:+ post +:+ String "]" rest)
       = Some (l, rest).
Proof.
  intros Hall Hjson Hgap Hind Hpre.
  induction l as [|e l IH]; [simpl; repeat split; try lia; congruence|].
  apply Forall_cons in Hall as [He Hl].
  cbn [forallb] in Hjson. apply andb_prop in Hjson as [Hje Hjl].
  specialize (IH Hl Hjl). cbv zeta in IH. destruct IH as (IHlen & IHhead & IHparse).
  destruct (He Hje gap ind Hgap Hind) as (str & Hser & Hhead & Hlen & Hparse).
  cbv zeta. cbn [map]. rewrite Hser.
  destruct l as [|e' l'].
  - (* the last element *)
    cbn [map join need_elements fold_right]. repeat split.
    + lia.
    + intros _. exact Hhead.
    + intros post fuel rest Hpost Hfuel _.
      destruct fuel as [|fuel]; [lia|]. cbn [parse_elements].
      rewrite parse_value_blank by exact Hpre.
      rewrite Hparse; [|lia|now apply delimited_blank].
      rewrite skip_ws_blank by exact Hpost.
      rewrite skip_ws_head by reflexivity.
      rewrite after_other by reflexivity. now rewrite after_same.
  - (* an element followed by others *)
    set (rest_strs := map _ (e' :: l')) in *.
    assert (join (String "," pre) (str :: rest_strs)
            = str +:+ String "," pre +:+ join (String "," pre) rest_strs) as Hjoin.
    { unfold rest_strs. reflexivity. }
    rewrite Hjoin. set (J := join (String "," pre) rest_strs) in *.
    change (need_elements (e :: e' :: l'))
      with (S (need e + need_elements (e' :: l'))).
    repeat split.
    + rewrite !length_app.
      change (String.length (String "," pre)) with (S (String.length pre)). lia.
    + intros _. destruct Hhead as (c & r & -> & Hc1 & Hc2).
      exists c, (r +:+ String "," pre +:+ J). now rewrite app_cons.
    + intros post fuel rest Hpost Hfuel _.
      destruct fuel as [|fuel]; [lia|]. cbn [parse_elements].
      rewrite parse_value_blank by exact Hpre.
      rewrite !app_assoc3, !app_cons.
      rewrite Hparse; [|lia|reflexivity].
      rewrite skip_ws_head by reflexivity. rewrite after_same.
      rewrite IHparse; [reflexivity|exact Hpost|lia|congruence].
Qed.

Lemma members_read (fs : obj) gap ind sp pre :
  Forall (fun kv => reads_back (snd kv)) fs ->
  forallb (fun kv => is_json (snd kv)) fs = true ->
  blank gap = true -> blank ind = true -> blank sp = true -> blank pre = true ->
  let strs := omap (fun kv => match ser gap ind (snd kv) with
                              | Some str =>
                                  Some (quote (fst kv) +:+ ":" +:+ sp +:+ str)
                              | None => None
                              end) fs in
  (need_members fs <= String.length (join (String "," pre) strs) + 1)%nat
  /\ (fs <> [] -> exists r, join (String "," pre) strs = String DQ r)
  /\ forall post fuel rest,
       blank post = true -> (need_members fs <= fuel)%nat -> fs <> [] ->
       parse_members fuel
         (pre +:+ join (String "," pre) strs +:+ post +:+ String "}" rest)
       = Some (fs, rest).
Proof.
  intros Hall Hjson Hgap Hind Hsp Hpre.
  induction fs as [|[k e] fs IH]; [simpl; repeat split; try lia; congruence|].
  apply Forall_cons in Hall as [He Hl]. cbn [snd] in He.
  cbn [forallb snd] in Hjson. apply andb_prop in Hjson as [Hje Hjl].
  specialize (IH Hl Hjl). cbv zeta in IH. destruct IH as (IHlen & IHhead & IHparse).
  destruct (He Hje gap ind Hgap Hind) as (str & Hser & Hhead & Hlen & Hparse).
  cbv zeta. cbn [omap list_omap snd fst]. rewrite Hser.
  set (member := quote k +:+ ":" +:+ sp +:+ str).
  assert (forall tail, member +:+ tail
            = String DQ (quote_chars k +:+ String DQ
                           (String ":" (sp +:+ str +:+ tail)))) as Hmember.
  { intros tail. unfold member.
    rewrite quote_app.
    repeat (rewrite app_cons || rewrite app_assoc3 || rewrite app_empty).
    reflexivity. }
  assert (need e <= String.length member)%nat as Hmlen.
  { unfold member. rewrite !length_app. lia. }
  destruct fs as [|[k' e'] fs'].
  - (* the last member *)
    cbn [omap list_omap join need_members fold_right snd]. repeat split.
    + lia.
    + intros _. eexists. rewrite <- (app_empty member) at 1.
      rewrite <- (Hmember EmptyString). clear.
      induction member as [|c m IHm]; [reflexivity|]. now rewrite app_cons, <- IHm.
    + intros post fuel rest Hpost Hfuel _.
      destruct fuel as [|fuel]; [lia|]. cbn [parse_members].
      rewrite skip_ws_blank by exact Hpre. rewrite Hmember.
      rewrite skip_ws_head by reflexivity. rewrite after_same.
      rewrite parse_chars_quote.
      rewrite skip_ws_head by reflexivity. rewrite after_same.
      rewrite parse_value_blank by exact Hsp.
      rewrite Hparse; [|lia|now apply delimited_blank].
      rewrite skip_ws_blank by exact Hpost.
      rewrite skip_ws_head by reflexivity.
      rewrite after_other by reflexivity. now rewrite after_same.
  - (* a member followed by others *)
    set (rest_strs := omap _ ((k', e') :: fs')) in *.
    assert (exists m' ms', rest_strs = m' :: ms') as (m' & ms' & Hrest).
    { destruct (IHhead ltac:(congruence)) as (r & Hr).
      destruct rest_strs as [|m' ms']; [discriminate Hr|]. now eexists _, _. }
    assert (join (String "," pre) (member :: rest_strs)
            = member +:+ String "," pre +:+ join (String "," pre) rest_strs) as Hjoin.
    { rewrite Hrest. reflexivity. }
    rewrite Hjoin. set (J := join (String "," pre) rest_strs) in *.
    change (need_members ((k, e) :: (k', e') :: fs'))
      with (S (need e + need_members ((k', e') :: fs'))).
    repeat split.
    + rewrite !length_app.
      change (String.length (String "," pre)) with (S (String.length pre)). lia.
    + intros _. eexists. rewrite Hmember. reflexivity.
    + intros post fuel rest Hpost Hfuel _.
      destruct fuel as [|fuel]; [lia|]. cbn [parse_members].
      rewrite !app_assoc3, !app_cons.
      rewrite skip_ws_blank by exact Hpre. rewrite Hmember.
      rewrite skip_ws_head by reflexivity. rewrite after_same.
      rewrite parse_chars_quote.
      rewrite skip_ws_head by reflexivity. rewrite after_same.
      rewrite parse_value_blank by exact Hsp.
      rewrite Hparse; [|lia|reflexivity].
      rewrite skip_ws_head by reflexivity. rewrite after_same.
      rewrite IHparse; [reflexivity|exact Hpost|lia|congruence].
Qed.

Lemma head_number c :
  c = "-"%char \/ digit_of c <> None ->
  is_ws c = false /\ Ascii.eqb "]" c = false.
Proof.
  intros [->|Hc]; [split; reflexivity|].
  destruct c as [[] [] [] [] [] [] [] []]; try (exfalso; apply Hc; reflexivity);
    split; reflexivity.
Qed.

Lemma parse_value_string fuel s :
  parse_value (S fuel) (String DQ s)
  = match parse_chars s with
    | Some (str, rest) => Some (VStr str, rest)
    | None => None
    end.
Proof. reflexivity. Qed.

Lemma parse_value_array fuel s :
  parse_value (S fuel) (String "[" s)
  = match after "]" (skip_ws s) with
    | Some rest => Some (VArr [], rest)
    | None =>
        match parse_elements fuel s with
        | Some (vs, rest) => Some (VArr vs, rest)
        | None => None
        end
    end.
Proof. reflexivity. Qed.

Lemma parse_value_object fuel s :
  parse_value (S fuel) (String "{" s)
  = match after "}" (skip_ws s) with
    | Some rest => Some (VObj [], rest)
    | None =>
        match parse_members fuel s with
        | Some (ms, rest) => Some (VObj (Obj.spread [] ms), rest)
        | None => None
        end
    end.
Proof. reflexivity. Qed.

(** every JSON value is read back from its text, compact or indented *)
Lemma value_reads_back : forall v, reads_back v.
Proof.
  induction v as [| |b|n|s|l IH|fs IH] using value_induction;
    intros Hjson gap ind Hgap Hind.
  - discriminate Hjson.
  - exists "null". repeat split.
    + now exists "n"%char, "ull".
    + simpl. lia.
    + intros [|fuel] rest Hfuel _; [simpl in Hfuel; lia|reflexivity].
  - exists (if b then "true" else "false"). repeat split.
    + destruct b; [now exists "t"%char, "rue" | now exists "f"%char, "alse"].
    + destruct b; simpl; lia.
    + intros [|fuel] rest Hfuel _; [simpl in Hfuel; lia|]. now destruct b.
  - exists (dec n). destruct (dec_head n) as (c & r & Hdec & Hc).
    repeat split.
    + exists c, r. split; [exact Hdec|]. now apply head_number.
    + rewrite Hdec. simpl. lia.
    + intros [|fuel] rest Hfuel Hd; [simpl in Hfuel; lia|].
      rewrite Hdec, app_cons, parse_value_number by exact Hc.
      rewrite <- app_cons, <- Hdec. now rewrite parse_number_dec.
  - exists (quote s). repeat split.
    + now exists DQ, (quote_chars s +:+ String DQ EmptyString).
    + pose proof (length_quote s). simpl. lia.
    + intros [|fuel] rest Hfuel _; [simpl in Hfuel; lia|].
      now rewrite quote_app, parse_value_string, parse_chars_quote.
  - (* arrays *)
    cbn [is_json] in Hjson. cbn [ser].
    eexists. split; [reflexivity|].
    destruct l as [|e l].
    + repeat split.
      * now exists "["%char, "]".
      * simpl. lia.
      * intros [|fuel] rest Hfuel _; [simpl in Hfuel; lia|reflexivity].
    + pose proof (elements_read (e :: l) gap (ind +:+ gap) (pre_of gap ind) IH Hjson
                    Hgap (blank_app _ _ Hind Hgap) (blank_pre_of _ _ Hgap Hind))
        as (Hlen & Hhead & Hparse).
      cbn [map] in *. rewrite wrap_shape.
      set (J := join _ _) in *.
      repeat split.
      * exists "["%char. eexists. rewrite app_cons, app_empty. repeat split.
      * change (need (VArr (e :: l))) with (S (need_elements (e :: l))).
        rewrite !length_app. change (String.length "[") with 1%nat.
        change (String.length "]") with 1%nat. lia.
      * intros [|fuel] rest Hfuel Hd;
          [change (need (VArr (e :: l))) with (S (need_elements (e :: l))) in Hfuel; lia|].
        change (need (VArr (e :: l))) with (S (need_elements (e :: l))) in Hfuel.
        repeat (rewrite app_cons || rewrite app_assoc3 || rewrite app_empty).
        rewrite parse_value_array.
        rewrite skip_ws_blank by now apply blank_pre_of.
        destruct (Hhead ltac:(congruence)) as (c & r & -> & Hc1 & Hc2).
        rewrite app_cons, skip_ws_head by exact Hc1.
        rewrite after_other by exact Hc2.
        rewrite <- app_cons.
        rewrite Hparse; [reflexivity|now apply blank_post_of|lia|congruence].
  - (* objects *)
    cbn [is_json] in Hjson. apply andb_prop in Hjson as [Hjson Hnd].
    apply bool_decide_eq_true in Hnd. cbn [ser].
    eexists. split; [reflexivity|].
    destruct fs as [|[k e] fs].
    + repeat split.
      * now exists "{"%char, "}".
      * simpl. lia.
      * intros [|fuel] rest Hfuel _; [simpl in Hfuel; lia|reflexivity].
    + assert (blank (if String.eqb gap EmptyString then EmptyString else " ") = true)
        as Hsp by now destruct (String.eqb gap EmptyString).
      pose proof (members_read ((k, e) :: fs) gap (ind +:+ gap) _ (pre_of gap ind)
                    IH Hjson Hgap (blank_app _ _ Hind Hgap) Hsp
                    (blank_pre_of _ _ Hgap Hind))
        as (Hlen & Hhead & Hparse).
      cbv zeta in Hlen, Hhead, Hparse.
      destruct (Hhead ltac:(congruence)) as (r & Hr).
      set (strs := omap _ ((k, e) :: fs)) in *.
      destruct strs as [|m ms] eqn:Hstrs; [discriminate Hr|].
      rewrite wrap_shape. set (J := join _ (m :: ms)) in *.
      repeat split.
      * exists "{"%char. eexists. rewrite app_cons, app_empty. repeat split.
      * change (need (VObj ((k, e) :: fs))) with (S (need_members ((k, e) :: fs))).
        rewrite !length_app. change (String.length "{") with 1%nat.
        change (String.length "}") with 1%nat. lia.
      * intros [|fuel] rest Hfuel Hd;
          [change (need (VObj ((k, e) :: fs)))
             with (S (need_members ((k, e) :: fs))) in Hfuel; lia|].
        change (need (VObj ((k, e) :: fs)))
          with (S (need_members ((k, e) :: fs))) in Hfuel.
        repeat (rewrite app_cons || rewrite app_assoc3 || rewrite app_empty).
        rewrite parse_value_object.
        rewrite skip_ws_blank by now apply blank_pre_of.
        rewrite Hr, app_cons, skip_ws_head by reflexivity.
        rewrite after_other by reflexivity.
        rewrite <- app_cons, <- Hr.
        rewrite Hparse; [|now apply blank_post_of|lia|congruence].
        now rewrite spread_nodup.
Qed.

Lemma app_empty_r (s : string) : s +:+ EmptyString = s.
Proof. induction s as [|c s IH]; [reflexivity|]. now rewrite app_cons, IH. Qed.

Lemma stringify_parse indent v :
  is_json v = true ->
  exists text, stringify indent v = Some text /\ parse text = Some v.
Proof.
  intros Hjson. unfold stringify.
  destruct (value_reads_back v Hjson (spaces (Nat.min 10 indent)) EmptyString
              (blank_spaces _) eq_refl) as (text & Hser & _ & Hlen & Hparse).
  exists text. split; [exact Hser|]. unfold parse.
  rewrite <- (app_empty_r text) at 2.
  rewrite Hparse; [reflexivity|lia|reflexivity].
Qed.

End JSONRoundTrip.

(** For a value made of JSON values of the model (integers, strings of
    code units below 256; no [undefined] inside, no object with two
    members of one name), the JSON codec reads back what it writes,
    indented or compact: [parse(serialize(d)) = d].  The CSV codec writes
    every object as the empty text. *)
Theorem json_codec_round_trip
    (cfg : JSONFormat.config) (csv : CSVFormat.config)
    (d : JS.value) (collections : JS.obj) :
  JSON.is_json d = true ->
  (exists text,
     FormatManager.serialize (Format := JSONFormat.format cfg) d = Some text
     /\ FormatManager.parse (Format := JSONFormat.format cfg) text = Some d)
  /\ FormatManager.serialize (Format := CSVFormat.format csv) (JS.VObj collections)
     = Some EmptyString
  /\ FormatManager.parse (Format := CSVFormat.format csv) EmptyString
     = Some (JS.VArr []).
Proof.
  intros Hjson. split; [|split; reflexivity].
  cbn [FormatManager.serialize FormatManager.parse JSONFormat.format].
  unfold JSONFormat.serialize, JSONFormat.parse.
  destruct (JSONFormat.prettyPrint cfg); now apply stringify_parse.
Qed.

(** A Database with one collection of two records, under the default
    (indented) JSON codec. *)
Lemma json_codec_round_trip_witness :
  let d := JS.VObj
             [("users",
               JS.VArr [JS.VObj [("id", JS.VStr "1"); ("age", JS.VNum 30)];
                        JS.VObj [("id", JS.VStr "2"); ("tags", JS.VArr [])]])] in
  exists text,
    JSONFormat.serialize JSONFormat.default d = Some text
    /\ JSONFormat.parse text = Some d.
Proof.
  intros d.
  exact (proj1 (json_codec_round_trip JSONFormat.default CSVFormat.default d []
                  eq_refl)).
Defined.

(** C8.  The CSV codec is no inverse pair on Databases: a Database is an
    object of collections, not an array, so [serialize] writes every
    Database, under every delimiter, as the empty text, and [parse] reads
    the empty text as the empty array; [parse(serialize(d))] is never [d].
    So it is for the Database with the one collection [users] and the one
    record of id ["1"] under the default options. *)
Theorem csv_codec_loses_every_database :
  (forall (csv : CSVFormat.config) (collections : JS.obj),
     exists text,
       FormatManager.serialize (Format := CSVFormat.format csv) (JS.VObj collections)
         = Some text
       /\ text = EmptyString
       /\ FormatManager.parse (Format := CSVFormat.format csv) text
          = Some (JS.VArr [])
       /\ JS.VArr [] <> JS.VObj collections)
  /\ let d := JS.VObj [("users", JS.VArr [JS.VObj [("id", JS.VStr "1")]])] in
     CSVFormat.serialize CSVFormat.default d = Some EmptyString
     /\ CSVFormat.parse CSVFormat.default EmptyString = Some (JS.VArr []).
Proof.
  split; [|now split].
  intros csv collections. exists EmptyString. repeat split. discriminate.
Qed.

(* ===================================================================== *)
(** ** Cache keys name their collection *)
(* ===================================================================== *)

Section CacheKeys.
Import JS JSON.

Lemma scan_app s (a b : string) : scan s (a +:+ b) = scan (scan s a) b.
Proof.
  revert s. induction a as [|c a IH]; intros s; [reflexivity|].
  rewrite app_cons. simpl. apply IH.
Qed.

Lemma scan_fail text : scan SFail text = SFail.
Proof. induction text as [|c text IH]; [reflexivity|exact IH]. Qed.

Lemma scan_blank w : blank w = true -> scan SOut w = SOut.
Proof.
  induction w as [|c w IH]; [reflexivity|]. cbn [scan blank]. intros H.
  apply andb_prop in H as [Hc Hw].
  assert (scan_step SOut c = SOut) as ->; [|now apply IH].
  destruct c as [[] [] [] [] [] [] [] []]; try discriminate Hc; reflexivity.
Qed.

Lemma scan_quote_char c : scan SIn (quote_char c) = SIn.
Proof. destruct c as [[] [] [] [] [] [] [] []]; reflexivity. Qed.

Lemma scan_quote k : scan SOut (quote k) = SOut.
Proof.
  unfold quote. cbn [scan scan_step]. change (Ascii.eqb DQ DQ) with true. cbv iota.
  rewrite scan_app.
  assert (scan SIn (quote_chars k) = SIn) as ->.
  { induction k as [|c k IH]; [reflexivity|].
    simpl quote_chars. now rewrite scan_app, scan_quote_char. }
  reflexivity.
Qed.

Lemma scan_digits u :
  scan SOut (NilEmpty.string_of_uint u) = SOut
  /\ (u <> Decimal.Nil -> scan SMinus (NilEmpty.string_of_uint u) = SOut).
Proof.
  assert (scan SOut (NilEmpty.string_of_uint u) = SOut) as Hout.
  { induction u; simpl; auto. }
  split; [exact Hout|].
  destruct u; intros H; try congruence; simpl; simpl in Hout; exact Hout.
Qed.

Lemma scan_dec n : scan SOut (dec n) = SOut.
Proof.
  unfold dec.
  assert (NilZero.string_of_uint (N.to_uint (Z.abs_N n))
          = NilEmpty.string_of_uint (N.to_uint (Z.abs_N n))) as ->.
  { pose proof (to_uint_not_nil (Z.abs_N n)). now destruct (N.to_uint (Z.abs_N n)). }
  destruct (n <? 0).
  - rewrite app_cons, app_empty. cbn [scan]. change (scan_step SOut "-") with SMinus.
    apply scan_digits, to_uint_not_nil.
  - rewrite app_empty. apply scan_digits.
Qed.

Lemma scan_join sep strs :
  scan SOut sep = SOut -> Forall (fun s => scan SOut s = SOut) strs ->
  scan SOut (join sep strs) = SOut.
Proof.
  intros Hsep Hall. induction Hall as [|s strs Hs Hall IH]; [reflexivity|].
  destruct strs as [|s' strs']; [exact Hs|].
  change (join sep (s :: s' :: strs')) with (s +:+ sep +:+ join sep (s' :: strs')).
  now rewrite !scan_app, Hs, Hsep.
Qed.

Lemma scan_wrap opening closing gap ind partial :
  blank gap = true -> blank ind = true ->
  scan SOut opening = SOut -> scan SOut closing = SOut ->
  Forall (fun s => scan SOut s = SOut) partial ->
  scan SOut (wrap opening closing gap ind partial) = SOut.
Proof.
  intros Hgap Hind Ho Hc Hall.
  destruct partial as [|x partial]; [unfold wrap; now rewrite scan_app, Ho|].
  rewrite wrap_shape, !scan_app, Ho.
  rewrite (scan_blank (pre_of gap ind)) by now apply blank_pre_of.
  rewrite scan_join; [|
    cbn [scan]; change (scan_step SOut ",") with SOut;
    apply scan_blank; now apply blank_pre_of | exact Hall].
  rewrite (scan_blank (post_of gap ind)) by now apply blank_post_of.
  exact Hc.
Qed.

(** a serialized value is scanned from outside string literals back to
    outside string literals *)
Lemma scan_value v : forall gap ind str,
  blank gap = true -> blank ind = true ->
  ser gap ind v = Some str -> scan SOut str = SOut.
Proof.
  induction v as [| |b|n|s|l IH|fs IH] using value_induction;
    intros gap ind str Hgap Hind Hser; cbn [ser] in Hser;
    try (injection Hser as <-).
  - discriminate Hser.
  - reflexivity.
  - now destruct b.
  - apply scan_dec.
  - apply scan_quote.
  - apply scan_wrap; auto.
    induction IH as [|e l He Hl IHl]; [constructor|].
    cbn [map]. constructor; [|exact IHl].
    destruct (ser gap (ind +:+ gap) e) as [s|] eqn:Hs; [|reflexivity].
    eapply He; [exact Hgap| |exact Hs]. now apply blank_app.
  - apply scan_wrap; auto.
    induction IH as [|[k e] fs He Hfs IHfs]; [constructor|].
    cbn [omap list_omap snd fst].
    destruct (ser gap (ind +:+ gap) e) as [s|] eqn:Hs; [|exact IHfs].
    constructor; [|exact IHfs].
    rewrite !scan_app, scan_quote. cbn [scan]. change (scan_step SOut ":") with SOut.
    rewrite scan_blank by now destruct (String.eqb gap EmptyString).
    cbn [snd] in He. eapply He; [exact Hgap| |exact Hs]. now apply blank_app.
Qed.

Lemma scan_step_opposite s1 s2 c :
  opposite s1 s2 ->
  opposite (scan_step s1 c) (scan_step s2 c)
  \/ scan_step s1 c = SFail \/ scan_step s2 c = SFail.
Proof.
  intros [[-> [->| ->]]|[[->| ->] ->]];
    destruct c as [[] [] [] [] [] [] [] []]; cbv;
    first [ now (right; left) | now (right; right)
          | left; left; split; [reflexivity|]; first [now left | now right]
          | left; right; split; [|reflexivity]; first [now left | now right] ].
Qed.

Lemma scan_opposite text : forall s1 s2,
  opposite s1 s2 -> scan s1 text <> SFail -> scan s2 text <> SFail ->
  opposite (scan s1 text) (scan s2 text).
Proof.
  induction text as [|c text IH]; intros s1 s2 Hop H1 H2; [exact Hop|].
  simpl in *. destruct (scan_step_opposite s1 s2 c Hop) as [Hop'|[Hf|Hf]].
  - now apply IH.
  - rewrite Hf, scan_fail in H1. congruence.
  - rewrite Hf, scan_fail in H2. congruence.
Qed.

(** no JSON text ends with a minus sign followed by a JSON object *)
Lemma no_object_after_minus (text prefix rest : string) :
  scan SOut text = SOut ->
  scan SOut (String "{" rest) = SOut ->
  text <> prefix +:+ String "-" (String "{" rest).
Proof.
  intros Htext Hobj Heq. rewrite Heq, scan_app in Htext.
  cbn [scan] in Htext.
  destruct (scan SOut prefix) eqn:Hp.
  - (* the minus sign is outside string literals: a digit must follow *)
    change (scan_step (scan_step SOut "-") "{") with SFail in Htext.
    rewrite scan_fail in Htext. discriminate Htext.
  - change (scan_step (scan_step SMinus "-") "{") with SFail in Htext.
    rewrite scan_fail in Htext. discriminate Htext.
  - (* the minus sign is inside a string literal *)
    change (scan_step (scan_step SIn "-") "{") with (scan_step SIn "{") in Htext.
    assert (opposite (scan (scan_step SIn "{") rest) (scan (scan_step SOut "{") rest))
      as Hop.
    { apply scan_opposite.
      - left. split; [reflexivity|now left].
      - rewrite Htext. discriminate.
      - cbn [scan] in Hobj. rewrite Hobj. discriminate. }
    cbn [scan] in Hobj. rewrite Htext, Hobj in Hop.
    destruct Hop as [[H _]|[_ H]]; discriminate H.
  - change (scan_step (scan_step SEsc "-") "{") with (scan_step SIn "{") in Htext.
    assert (opposite (scan (scan_step SIn "{") rest) (scan (scan_step SOut "{") rest))
      as Hop.
    { apply scan_opposite.
      - left. split; [reflexivity|now left].
      - rewrite Htext. discriminate.
      - cbn [scan] in Hobj. rewrite Hobj. discriminate. }
    cbn [scan] in Hobj. rewrite Htext, Hobj in Hop.
    destruct Hop as [[H _]|[_ H]]; discriminate H.
  - change (scan_step (scan_step SFail "-") "{") with SFail in Htext.
    rewrite scan_fail in Htext. discriminate Htext.
Qed.

End CacheKeys.

Section CacheInvariant.
Import JS JSON GitDB.

Lemma app_eq_split (a : string) : forall b c d : string,
  a +:+ b = c +:+ d ->
  (exists e, c = a +:+ e /\ b = e +:+ d) \/ (exists e, a = c +:+ e /\ d = e +:+ b).
Proof.
  induction a as [|x a IH]; intros b c d H.
  - left. exists c. now rewrite !app_empty in *.
  - destruct c as [|y c].
    + right. exists (String x a). now rewrite !app_empty in *.
    + rewrite !app_cons in H. injection H as -> H.
      destruct (IH _ _ _ H) as [(e & -> & ->)|(e & -> & ->)];
        [left|right]; exists e; now rewrite app_cons.
Qed.

Lemma stringify_query_object q :
  exists rest,
    stringify_query q = String "{" rest
    /\ scan SOut (stringify_query q) = SOut.
Proof.
  unfold stringify_query, stringify. cbn [ser Nat.min spaces].
  set (partial := omap _ _).
  assert (scan SOut (wrap "{" "}" EmptyString EmptyString partial) = SOut) as Hscan.
  { apply (scan_value (VObj (map (fun kq : string * qvalue =>
                                    (fst kq, match snd kq with
                                             | QVal v => v
                                             | QFun _ => VUndefined
                                             end)) q))
             EmptyString EmptyString); reflexivity. }
  destruct partial as [|x partial].
  - now exists "}".
  - rewrite wrap_shape in *. eexists. split; [|exact Hscan].
    now rewrite app_cons, app_empty.
Qed.

(** a cache key determines the collection that it is a key of *)
Lemma cacheKey_collection c1 q1 c2 q2 :
  cacheKey c1 q1 = cacheKey c2 q2 -> c1 = c2.
Proof.
  unfold cacheKey.
  destruct (stringify_query_object q1) as (r1 & Hq1 & Hs1).
  destruct (stringify_query_object q2) as (r2 & Hq2 & Hs2).
  change ("-" +:+ stringify_query q1) with (String "-" (stringify_query q1)).
  change ("-" +:+ stringify_query q2) with (String "-" (stringify_query q2)).
  intros H. apply app_eq_split in H as [(e & Hc & He)|(e & Hc & He)].
  - destruct e as [|x e]; [now rewrite Hc, app_empty_r|].
    rewrite app_cons in He. injection He as <- He. exfalso.
    rewrite Hq2 in He, Hs2. now apply (no_object_after_minus _ e r2 Hs1 Hs2).
  - destruct e as [|x e]; [now rewrite Hc, app_empty_r|].
    rewrite app_cons in He. injection He as <- He. exfalso.
    rewrite Hq1 in He, Hs1. now apply (no_object_after_minus _ e r1 Hs2 Hs1).
Qed.

Lemma prefix_app (p s : string) : String.prefix p (p +:+ s) = true.
Proof.
  induction p as [|c p IH]; [now destruct s|].
  rewrite app_cons. simpl. destruct (ascii_dec c c); [exact IH|congruence].
Qed.

Lemma prefix_cacheKey collection q :
  String.prefix (collection +:+ "-") (cacheKey collection q) = true.
Proof. unfold cacheKey. rewrite <- app_assoc3. apply prefix_app. Qed.

(** *** Collections under the writes *)

Section Collections.
Context {A : Type}.
Implicit Types (o : list (string * A)) (k : string) (v : A).

Lemma lookup_del_other k k' o :
  k <> k' -> Obj.lookup k (Obj.del k' o) = Obj.lookup k o.
Proof.
  intros Hne. induction o as [|[k'' v''] o IH]; simpl; auto.
  destruct (String.eqb_spec k' k''); simpl.
  - subst. destruct (String.eqb_spec k k''); congruence.
  - destruct (String.eqb_spec k k''); auto.
Qed.

Lemma lookup_set_some k k' v o :
  Obj.lookup k o <> None -> Obj.lookup k (Obj.set k' v o) <> None.
Proof.
  intros H. destruct (String.eqb_spec k k') as [->|Hne].
  - now rewrite lookup_set_same.
  - now rewrite lookup_set_other.
Qed.

Lemma keys_set k v o :
  map fst (Obj.set k v o)
  = match Obj.lookup k o with
    | Some _ => map fst o
    | None => map fst o ++ [k]
    end.
Proof.
  induction o as [|[k' v'] o IH]; simpl; [reflexivity|].
  destruct (String.eqb_spec k k') as [->|Hne]; simpl; [reflexivity|].
  rewrite IH. now destruct (Obj.lookup k o).
Qed.

Lemma lookup_none_keys k o : Obj.lookup k o = None -> ~ In k (map fst o).
Proof.
  induction o as [|[k' v'] o IH]; simpl; [tauto|].
  destruct (String.eqb_spec k k') as [->|Hne]; [discriminate|].
  intros H [Heq|Hin]; [congruence|now apply IH].
Qed.

Lemma NoDup_keys_set k v o :
  NoDup (map fst o) -> NoDup (map fst (Obj.set k v o)).
Proof.
  intros Hnd. rewrite keys_set. destruct (Obj.lookup k o) eqn:Hl; [exact Hnd|].
  apply NoDup_app. split; [exact Hnd|]. split; [|apply NoDup_singleton].
  intros x Hx Hx'. apply list_elem_of_singleton in Hx'. subst.
  apply list_elem_of_In in Hx. now apply (lookup_none_keys _ _ Hl).
Qed.

Lemma keys_del_incl k o x : In x (map fst (Obj.del k o)) -> In x (map fst o).
Proof.
  induction o as [|[k' v'] o IH]; simpl; [tauto|].
  destruct (String.eqb_spec k k'); simpl; [tauto|].
  intros [H|H]; [now left|right; now apply IH].
Qed.

Lemma NoDup_keys_del k o :
  NoDup (map fst o) -> NoDup (map fst (Obj.del k o)).
Proof.
  induction o as [|[k' v'] o IH]; simpl; [auto|].
  intros Hnd. apply NoDup_cons in Hnd as [Hnotin Hnd].
  destruct (String.eqb_spec k k'); simpl; [exact Hnd|].
  apply NoDup_cons. split; [|now apply IH].
  intros Hin. apply Hnotin. apply list_elem_of_In.
  apply list_elem_of_In in Hin. now apply keys_del_incl in Hin.
Qed.

End Collections.

Lemma push_keeps collection item (data : database) :
  (NoDup (map fst data) -> NoDup (map fst (push collection item data)))
  /\ forall c, Obj.lookup c data <> None ->
               Obj.lookup c (push collection item data) <> None.
Proof.
  unfold push. split.
  - intros H. destruct (Obj.lookup collection data); now apply NoDup_keys_set.
  - intros c H. destruct (Obj.lookup collection data); now apply lookup_set_some.
Qed.

Lemma bulk_step_keeps cfg e op (data data' : database) r :
  bulk_step cfg e op data = Ok (data', r) ->
  (NoDup (map fst data) -> NoDup (map fst data'))
  /\ forall c, Obj.lookup c data <> None -> Obj.lookup c data' <> None.
Proof.
  destruct op as [c item|c id updates|c id|ty c]; simpl.
  - destruct (validate cfg _); simpl; [|discriminate].
    intros [= <- <-]. apply push_keeps.
  - destruct (Obj.lookup c data) as [items|]; [|intros [= <- <-]; auto].
    destruct (findIndex id items); [|intros [= <- <-]; auto].
    destruct (validate cfg _); simpl; [|discriminate].
    intros [= <- <-]. split; [apply NoDup_keys_set|intros; now apply lookup_set_some].
  - destruct (Obj.lookup c data) as [items|]; [|intros [= <- <-]; auto].
    destruct (findIndex id items); [|intros [= <- <-]; auto].
    intros [= <- <-]. split; [apply NoDup_keys_set|intros; now apply lookup_set_some].
  - intros [= <- <-]. auto.
Qed.

Lemma bulk_loop_keeps cfg ops : forall (data data' : database) rs,
  bulk_loop cfg ops data = Ok (data', rs) ->
  (NoDup (map fst data) -> NoDup (map fst data'))
  /\ forall c, Obj.lookup c data <> None -> Obj.lookup c data' <> None.
Proof.
  induction ops as [|[op e] rest IH]; intros data data' rs; simpl.
  - intros [= <- <-]. auto.
  - destruct (bulk_step cfg e op data) as [[data1 r]|] eqn:Hs; simpl; [|discriminate].
    destruct (bulk_loop cfg rest data1) as [[data2 rs2]|] eqn:Hl; simpl; [|discriminate].
    intros [= <- <-].
    destruct (bulk_step_keeps _ _ _ _ _ _ Hs) as [Hn1 Hc1].
    destruct (IH _ _ _ Hl) as [Hn2 Hc2]. split; auto.
Qed.

(** *** The cache under the calls *)

Lemma clearCache_lookup collection st key entry :
  cache (clearCache collection st) !! key = Some entry ->
  cache st !! key = Some entry
  /\ String.prefix (collection +:+ "-") key = false.
Proof.
  unfold clearCache. cbn [cache]. intros H.
  apply map_lookup_filter_Some in H as [H1 H2]. auto.
Qed.

Lemma clearCache_all_lookup cs : forall st key entry,
  cache (fold_left (fun s c => clearCache c s) cs st) !! key = Some entry ->
  cache st !! key = Some entry.
Proof.
  induction cs as [|c cs IH]; intros st key entry H; [exact H|].
  simpl in H. apply IH in H. now apply clearCache_lookup in H.
Qed.

Lemma clearCache_all_storage cs : forall st,
  storage (fold_left (fun s c => clearCache c s) cs st) = storage st.
Proof. induction cs as [|c cs IH]; intros st; [reflexivity|]. simpl. now rewrite IH. Qed.

Lemma read_keeps cfg now collection q st :
  cache_of_existing st -> cache_of_existing (snd (read cfg now collection q st)).
Proof.
  intros [Hnd Hinv]. unfold read, readDataFile.
  destruct (cache_hit cfg now (cacheKey collection q) st);
    [exact (conj Hnd Hinv)|].
  destruct (Obj.lookup collection (storage st)) as [all|] eqn:Hl;
    [|exact (conj Hnd Hinv)].
  split; [exact Hnd|]. cbn [snd alloc fst cache storage].
  intros key entry Hk.
  destruct (decide (key = cacheKey collection q)) as [->|Hne].
  - exists collection, q. split; [reflexivity|]. cbn. congruence.
  - rewrite lookup_insert_ne in Hk by congruence. exact (Hinv _ _ Hk).
Qed.

Lemma step_keeps cfg st st' :
  step cfg st st' -> cache_of_existing st -> cache_of_existing st'.
Proof.
  intros Hstep [Hnd Hinv].
  destruct Hstep as
    [acquired e collection item st r st' H
    |acquired e collection id updates st r st' H
    |acquired collection id st r st' H
    |acquired collection st r st' H
    |acquired ops st r st' H
    |now collection q st
    |now collection sortBy order st
    |now collection sortBy order st
    |now collection predicate st
    |now collection n offset st].
  - (* create *)
    destruct acquired; [|discriminate H].
    apply create_ok in H as (_ & Hst & Hc & _).
    destruct (push_keeps collection r (storage st)) as [Hn Hk].
    split; [rewrite Hst; now apply Hn|].
    intros key entry Hkey. rewrite Hc in Hkey.
    destruct (Hinv _ _ Hkey) as (c & q & -> & Hex).
    exists c, q. split; [reflexivity|]. rewrite Hst. now apply Hk.
  - (* update *)
    unfold update, locked, readDataFile in H.
    destruct acquired; [|discriminate H].
    destruct (Obj.lookup collection (storage st)) as [items|] eqn:Hl; [|discriminate H].
    destruct (findIndex id items); [|discriminate H].
    destruct (validate cfg _); simpl in H; [|discriminate H].
    injection H as <- <-. split; [now apply NoDup_keys_set|].
    intros key entry Hkey. apply clearCache_lookup in Hkey as [Hkey _].
    destruct (Hinv _ _ Hkey) as (c & q & -> & Hex).
    exists c, q. split; [reflexivity|]. now apply lookup_set_some.
  - (* delete *)
    unfold delete, locked, readDataFile in H.
    destruct acquired; [|discriminate H].
    destruct (Obj.lookup collection (storage st)) as [items|] eqn:Hl; [|discriminate H].
    destruct (findIndex id items); [|discriminate H].
    injection H as <- <-. split; [now apply NoDup_keys_set|].
    intros key entry Hkey. apply clearCache_lookup in Hkey as [Hkey _].
    destruct (Hinv _ _ Hkey) as (c & q & -> & Hex).
    exists c, q. split; [reflexivity|]. now apply lookup_set_some.
  - (* deleteCollection *)
    unfold deleteCollection, locked, readDataFile in H.
    destruct acquired; [|discriminate H].
    destruct (Obj.lookup collection (storage st)) as [items|] eqn:Hl; [|discriminate H].
    injection H as <- <-. split; [now apply NoDup_keys_del|].
    intros key entry Hkey. apply clearCache_lookup in Hkey as [Hkey Hpre].
    destruct (Hinv _ _ Hkey) as (c & q & -> & Hex).
    exists c, q. split; [reflexivity|].
    unfold clearCache, writeDataFile. cbn [storage].
    rewrite lookup_del_other; [exact Hex|].
    intros ->. now rewrite prefix_cacheKey in Hpre.
  - (* bulkOperation *)
    unfold bulkOperation, locked, readDataFile in H.
    destruct acquired; [|discriminate H].
    destruct (bulk_loop cfg ops (storage st)) as [[data' rs]|] eqn:Hb;
      simpl in H; [|discriminate H].
    injection H as <- <-.
    destruct (bulk_loop_keeps _ _ _ _ _ Hb) as [Hn Hk].
    unfold cache_of_existing. rewrite clearCache_all_storage.
    split; [now apply Hn|].
    intros key entry Hkey. apply clearCache_all_lookup in Hkey.
    destruct (Hinv _ _ Hkey) as (c & q & -> & Hex).
    exists c, q. split; [reflexivity|]. now apply Hk.
  - now apply read_keeps.
  - unfold sort.
    pose proof (read_keeps cfg now collection [] st (conj Hnd Hinv)) as Hr.
    now destruct (read cfg now collection [] st).
  - unfold sortWith.
    pose proof (read_keeps cfg now collection [] st (conj Hnd Hinv)) as Hr.
    now destruct (read cfg now collection [] st).
  - unfold filter.
    pose proof (read_keeps cfg now collection [] st (conj Hnd Hinv)) as Hr.
    now destruct (read cfg now collection [] st).
  - unfold limit.
    pose proof (read_keeps cfg now collection [] st (conj Hnd Hinv)) as Hr.
    now destruct (read cfg now collection [] st).
Qed.

(** in every state that a GitDB object reaches, the cached reads are reads
    of collections that the Database holds *)
Lemma reachable_cache_of_existing cfg st :
  reachable cfg st -> cache_of_existing st.
Proof.
  induction 1 as [data heap0 next0 Hnd|st st' _ IH Hstep].
  - split; [exact Hnd|]. intros key entry H. cbn in H.
    rewrite lookup_empty in H. discriminate H.
  - eapply step_keeps; eauto.
Qed.

(** so the read of a collection that the Database does not hold is never
    answered from the cache *)
Lemma missing_collection_not_cached cfg now collection q st :
  cache_of_existing st ->
  Obj.lookup collection (storage st) = None ->
  cache_hit cfg now (cacheKey collection q) st = None.
Proof.
  intros [_ Hinv] Hl. unfold cache_hit.
  destruct (cache st !! cacheKey collection q) as [[loc t]|] eqn:Hk; [|reflexivity].
  destruct (Hinv _ _ Hk) as (c & q' & Heq & Hex).
  apply cacheKey_collection in Heq. subst c. congruence.
Qed.

End CacheInvariant.

(* ===================================================================== *)
(** ** GitDB: a collection that the Database does not hold (C10) *)
(* ===================================================================== *)

(** C10 (as amended).  Let the Database hold no collection of the given
    name, the name being none that [Object.prototype] defines.  Then
    [read] returns an empty array, with no not-found error, and leaves the
    Database and the cache as they are, provided that the cache holds no
    read of this collection and query that has not expired; so [readById]
    returns [null] under the same proviso.  A cached read that has not expired is
    returned as it is.  The proviso holds in every state that a GitDB
    object reaches by its own calls when it is the only writer of the
    medium.  Whatever the cache holds, [update], [delete] and
    [deleteCollection] raise the collection-not-found error, and neither
    [create] nor [bulkOperation] ever raises a not-found error. *)
Theorem read_of_missing_collection
    (cfg : GitDB.config) (now : Z) (collection : string) (q : GitDB.query)
    (id : JS.value) (e : GitDB.env) (item updates : JS.obj)
    (ops : list (GitDB.operation * GitDB.env)) (acquired : bool)
    (st : GitDB.state) :
  Obj.inherited collection = false ->
  Obj.lookup collection (GitDB.storage st) = None ->
  (GitDB.cache_hit cfg now (GitDB.cacheKey collection q) st = None ->
   GitDB.deref (snd (GitDB.read cfg now collection q st))
     (fst (GitDB.read cfg now collection q st)) = []
   /\ GitDB.storage (snd (GitDB.read cfg now collection q st)) = GitDB.storage st
   /\ GitDB.cache (snd (GitDB.read cfg now collection q st)) = GitDB.cache st)
  /\ (GitDB.cache_hit cfg now
        (GitDB.cacheKey collection [("id", GitDB.QVal id)]) st = None ->
      fst (GitDB.readById cfg now collection id st) = None)
  /\ (forall loc,
        GitDB.cache_hit cfg now (GitDB.cacheKey collection q) st = Some loc ->
        GitDB.read cfg now collection q st = (loc, st))
  /\ (GitDB.reachable cfg st ->
      forall q', GitDB.cache_hit cfg now (GitDB.cacheKey collection q') st = None)
  /\ GitDB.update cfg true e collection id updates st
       = Err (GitDB.CollectionNotFound collection)
  /\ GitDB.delete true collection id st
       = Err (GitDB.CollectionNotFound collection)
  /\ GitDB.deleteCollection true collection st
       = Err (GitDB.CollectionNotFound collection)
  /\ (forall err,
        GitDB.create cfg acquired e collection item st = Err err ->
        GitDB.is_not_found err = false)
  /\ (forall err,
        GitDB.bulkOperation cfg acquired ops st = Err err ->
        GitDB.is_not_found err = false).
Proof.
  intros _ Hl.
  split; [|split; [|split; [|split; [|split; [|split; [|split; [|split]]]]]]].
  - intros Hmiss. rewrite read_missing by auto.
    split; [apply deref_alloc|]. now split.
  - intros Hmiss. unfold GitDB.readById. rewrite read_missing by auto.
    unfold GitDB.alloc, GitDB.deref. simpl. now rewrite lookup_insert_eq.
  - intros loc Hhit. unfold GitDB.read. now rewrite Hhit.
  - intros Hreach q'. apply reachable_cache_of_existing in Hreach.
    now apply missing_collection_not_cached.
  - unfold GitDB.update, GitDB.readDataFile. simpl. now rewrite Hl.
  - unfold GitDB.delete, GitDB.readDataFile. simpl. now rewrite Hl.
  - unfold GitDB.deleteCollection, GitDB.readDataFile. simpl. now rewrite Hl.
  - intros err. unfold GitDB.create, GitDB.locked.
    destruct acquired; [|now intros [= <-]].
    destruct (GitDB.validate cfg _) eqn:Hv; simpl; [discriminate|].
    intros [= <-]. eapply validate_err; eauto.
  - intros err. unfold GitDB.bulkOperation, GitDB.locked.
    destruct acquired; [|now intros [= <-]].
    destruct (GitDB.bulk_loop cfg ops _) as [[data' rs]|err'] eqn:Hb; simpl;
      [discriminate|].
    intros [= <-]. eapply bulk_loop_err; eauto.
Qed.

(** A Database without the collection ["ghosts"], after a GitDB object has
    read and cached its collection ["users"]. *)
Lemma read_of_missing_collection_witness :
  let cfg := {| GitDB.validation := ValidationManager.default;
                GitDB.cacheTimeout := 300000 |} in
  let st0 := {| GitDB.storage := [("users", [[("id", JS.VStr "1")]])];
                GitDB.heap := ∅; GitDB.next := 0; GitDB.cache := ∅ |} in
  let st := snd (GitDB.read cfg 0 "users" [] st0) in
  GitDB.deref (snd (GitDB.read cfg 10 "ghosts" [] st))
    (fst (GitDB.read cfg 10 "ghosts" [] st)) = []
  /\ fst (GitDB.readById cfg 10 "ghosts" (JS.VStr "1") st) = None
  /\ GitDB.update cfg true
       {| GitDB.uuid := "7d1f"; GitDB.isoNow1 := "t1"; GitDB.isoNow2 := "t1" |}
       "ghosts" (JS.VStr "1") [] st
     = Err (GitDB.CollectionNotFound "ghosts").
Proof.
  intros cfg st0 st.
  pose proof (read_of_missing_collection cfg 10 "ghosts" []
                (JS.VStr "1")
                {| GitDB.uuid := "7d1f"; GitDB.isoNow1 := "t1"; GitDB.isoNow2 := "t1" |}
                [] [] [] true st eq_refl eq_refl) as (H1 & H2 & _ & _ & H3 & _).
  split; [exact (proj1 (H1 eq_refl))|]. split; [exact (H2 eq_refl)|exact H3].
Defined.

(** C10 (as stated) fails.  A GitDB object reads the collection [users] and
    caches the array; another client of the medium then deletes the
    collection (here a second GitDB object over the same data file, with
    [deleteCollection]).  Within the cache timeout the first object still
    answers [read('users')] with the cached array of one record, although
    the Database holds no such collection. *)
Lemma cached_read_outlives_its_collection :
  let cfg := {| GitDB.validation := ValidationManager.default;
                GitDB.cacheTimeout := 300000 |} in
  let r := [("id", JS.VStr "1")] in
  let st0 := {| GitDB.storage := [("users", [r])];
                GitDB.heap := ∅; GitDB.next := 0; GitDB.cache := ∅ |} in
  let st1 := snd (GitDB.read cfg 0 "users" [] st0) in
  let other := {| GitDB.storage := GitDB.storage st1;
                  GitDB.heap := ∅; GitDB.next := 0; GitDB.cache := ∅ |} in
  exists other',
    GitDB.deleteCollection true "users" other = Ok ([r], other')
    /\ let st2 := GitDB.writeDataFile (GitDB.storage other') st1 in
       Obj.inherited "users" = false
       /\ Obj.lookup "users" (GitDB.storage st2) = None
       /\ GitDB.deref (snd (GitDB.read cfg 1000 "users" [] st2))
            (fst (GitDB.read cfg 1000 "users" [] st2)) = [r]
       /\ [r] <> [].
Proof.
  intros cfg r st0 st1 other. eexists. split; [reflexivity|].
  cbv zeta. split; [reflexivity|]. split; [reflexivity|].
  split; [|discriminate].
  vm_compute. reflexivity.
Qed.

(* ===================================================================== *)
(** * Further properties of the code *)
(* ===================================================================== *)

(* ===================================================================== *)
(** ** The Database in a JSON data file *)
(* ===================================================================== *)

Section StoredDatabases.
Import JS JSON.

Lemma plain_is_json : forall v, plain v = true -> is_json v = true.
Proof.
  apply (value_induction (fun v => plain v = true -> is_json v = true));
    try (intros; reflexivity).
  - discriminate.
  - intros l IH. cbn [plain is_json].
    induction IH as [|x l Hx _ IHl]; cbn [forallb]; [reflexivity|].
    rewrite !andb_true_iff. intros [H1 H2]. split; [now apply Hx|now apply IHl].
  - intros fs IH. cbn [plain is_json]. rewrite !andb_true_iff.
    intros [Hall Hnd]. split; [|exact Hnd]. clear Hnd.
    induction IH as [|[k x] fs Hx _ IHfs]; cbn [forallb fst snd] in *;
      [reflexivity|].
    rewrite !andb_true_iff in *. destruct Hall as [[_ Hp] Hrest].
    split; [now apply Hx|now apply IHfs].
Qed.

(** the JSON format reads back a Database of plain values *)
Lemma keeps_json (json : JSONFormat.config) (data : list (string * list obj)) :
  plain (DataFile.database_value data) = true ->
  DataFile.keeps (JSONFormat.format json) data.
Proof.
  intros H. apply plain_is_json in H. unfold DataFile.keeps.
  cbn [FormatManager.serialize FormatManager.parse JSONFormat.format].
  unfold JSONFormat.serialize, JSONFormat.parse.
  destruct (JSONFormat.prettyPrint json); now apply stringify_parse.
Qed.

(** the CSV format reads back no Database *)
Lemma csv_keeps_nothing (csv : CSVFormat.config) (data : list (string * list obj)) :
  ~ DataFile.keeps (CSVFormat.format csv) data.
Proof.
  intros (text & Hs & Hp).
  cbn [FormatManager.serialize FormatManager.parse CSVFormat.format] in Hs, Hp.
  unfold DataFile.database_value in Hs. cbn [CSVFormat.serialize] in Hs.
  injection Hs as <-. discriminate Hp.
Qed.

End StoredDatabases.

(* ===================================================================== *)
(** ** GitDB: reads after writes *)
(* ===================================================================== *)

(** a concrete list has no name twice *)
Ltac distinct_names :=
  simpl;
  repeat (apply NoDup_cons_2;
          [let H := fresh in
           intros H; apply list_elem_of_In in H; simpl in H;
           repeat (destruct H as [H|H]; [discriminate H|]); exact H|]);
  apply NoDup_nil_2.

Section ReadsAfterWrites.
Import JS GitDB.

Lemma strict_eq_eq (a b : value) : strict_eq a b = true -> a = b.
Proof.
  destruct a, b; simpl; try discriminate; intros H; try reflexivity.
  - apply Bool.eqb_prop in H. now subst.
  - apply Z.eqb_eq in H. now subst.
  - apply String.eqb_eq in H. now subst.
Qed.

Lemma matches_id id (item : obj) :
  matches [("id", QVal id)] item = strict_eq (get "id" item) id.
Proof. unfold matches. simpl. apply andb_true_r. Qed.

Lemma findIndex_nth id (items : list obj) i :
  findIndex id items = Some i -> strict_eq (get "id" (nth i items [])) id = true.
Proof.
  revert i. induction items as [|item rest IH]; simpl; intros i H; [discriminate|].
  destruct (strict_eq (get "id" item) id) eqn:E.
  - now injection H as <-.
  - destruct (findIndex id rest) as [j|]; [|discriminate].
    injection H as <-. now apply IH.
Qed.

Lemma findIndex_none id (items : list obj) :
  findIndex id items = None ->
  List.filter (matches [("id", QVal id)]) items = [].
Proof.
  induction items as [|item rest IH]; cbn [findIndex List.filter]; intros H;
    [reflexivity|].
  rewrite matches_id.
  destruct (strict_eq (get "id" item) id); [discriminate|].
  apply IH. now destruct (findIndex id rest).
Qed.

Lemma findIndex_in id (items : list obj) i :
  findIndex id items = Some i -> In id (ids items).
Proof.
  revert i. induction items as [|item rest IH]; simpl; intros i H; [discriminate|].
  destruct (strict_eq (get "id" item) id) eqn:E.
  - left. now apply strict_eq_eq.
  - destruct (findIndex id rest) as [j|] eqn:Hj; [|discriminate].
    right. now apply (IH j).
Qed.

Lemma head_filter_insert id (r : obj) (items : list obj) i :
  findIndex id items = Some i ->
  strict_eq (get "id" r) id = true ->
  head (List.filter (matches [("id", QVal id)]) (<[i := r]> items)) = Some r.
Proof.
  intros Hi Hr. revert i Hi.
  induction items as [|item rest IH]; cbn [findIndex]; intros i Hi; [discriminate|].
  destruct (strict_eq (get "id" item) id) eqn:E.
  - injection Hi as <-. cbn [insert list_insert List.filter]. now rewrite matches_id, Hr.
  - destruct (findIndex id rest) as [j|]; [|discriminate].
    injection Hi as <-. cbn [insert list_insert List.filter].
    rewrite matches_id, E. now apply IH.
Qed.

Lemma findIndex_splice id (items : list obj) i :
  NoDup (ids items) ->
  findIndex id items = Some i ->
  findIndex id (splice1 i items) = None.
Proof.
  intros Hnd. revert i.
  induction items as [|item rest IH]; simpl; intros i Hi; [discriminate|].
  apply NoDup_cons in Hnd as [Hnotin Hnd].
  destruct (strict_eq (get "id" item) id) eqn:E.
  - injection Hi as <-. unfold splice1. simpl. rewrite drop_0.
    destruct (findIndex id rest) as [j|] eqn:Hj; [|reflexivity].
    exfalso. apply Hnotin. apply list_elem_of_In.
    apply strict_eq_eq in E. rewrite E. now apply (findIndex_in _ _ j).
  - destruct (findIndex id rest) as [j|] eqn:Hj; [|discriminate].
    injection Hi as <-. unfold splice1 in *. simpl. rewrite E.
    now rewrite (IH Hnd j eq_refl).
Qed.

Lemma length_splice1 (items : list obj) i :
  (i < length items)%nat -> S (length (splice1 i items)) = length items.
Proof.
  intros Hlt. unfold splice1.
  rewrite List.length_app, length_take, length_drop. lia.
Qed.

Lemma read_fresh cfg now collection q st all :
  cache_hit cfg now (cacheKey collection q) st = None ->
  Obj.lookup collection (storage st) = Some all ->
  deref (snd (read cfg now collection q st)) (fst (read cfg now collection q st))
    = selected q all
  /\ storage (snd (read cfg now collection q st)) = storage st.
Proof.
  intros Hc Hl. unfold read, readDataFile. rewrite Hc, Hl.
  unfold alloc, deref, selected. cbn. now rewrite lookup_insert_eq.
Qed.

Lemma clearCache_miss cfg now collection q st :
  cache_hit cfg now (cacheKey collection q) (clearCache collection st) = None.
Proof.
  unfold cache_hit.
  destruct (cache (clearCache collection st) !! cacheKey collection q)
    as [[loc t]|] eqn:H; [|reflexivity].
  apply clearCache_lookup in H as [_ H].
  rewrite prefix_cacheKey in H. discriminate H.
Qed.

Lemma readById_fresh cfg now collection id st all :
  cache_hit cfg now (cacheKey collection [("id", QVal id)]) st = None ->
  Obj.lookup collection (storage st) = Some all ->
  fst (readById cfg now collection id st)
    = head (List.filter (matches [("id", QVal id)]) all).
Proof.
  intros Hc Hl. unfold readById.
  destruct (read_fresh cfg now collection [("id", QVal id)] st all Hc Hl) as [Hd _].
  destruct (read cfg now collection [("id", QVal id)] st) as [loc st1].
  simpl in *. now rewrite Hd.
Qed.


End ReadsAfterWrites.

(** X1.  A successful [update] is read back.  When the configured format
    reads back the Database that [update] writes (the JSON format does so
    for a Database of plain values, so when the updated record has no
    [undefined] member: the record found had a [createdAt]), [update] has
    removed every cached read of its collection, so that any later [read]
    of the collection, at any time and with any query on fields that
    [Object.prototype] does not define, is answered from the Database just
    written, and [readById] with the id of the call returns the record
    that [update] returned. *)
Theorem update_is_read_back
    (cfg : GitDB.config) (fmt : FormatManager.Format) (acquired : bool)
    (e : GitDB.env) (collection : string) (id : JS.value) (updates : JS.obj)
    (st st' : GitDB.state) (r : JS.obj) (now : Z) (q : GitDB.query) :
  GitDB.update cfg acquired e collection id updates st = Ok (r, st') ->
  DataFile.keeps fmt (GitDB.storage st') ->
  forallb (fun kq => negb (Obj.inherited (fst kq))) q = true ->
  GitDB.cache_hit cfg now (GitDB.cacheKey collection q) st' = None
  /\ GitDB.deref (snd (GitDB.read cfg now collection q st'))
       (fst (GitDB.read cfg now collection q st'))
     = GitDB.selected q (GitDB.collection_of collection (GitDB.storage st'))
  /\ fst (GitDB.readById cfg now collection id st') = Some r.
Proof.
  intros H _ _. revert H.
  unfold GitDB.update, GitDB.locked, GitDB.readDataFile.
  destruct acquired; [|discriminate].
  destruct (Obj.lookup collection (GitDB.storage st)) as [items|] eqn:Hl;
    [|discriminate].
  destruct (GitDB.findIndex id items) as [i|] eqn:Hi; [|discriminate].
  destruct (GitDB.validate cfg _); simpl; [|discriminate].
  intros H. injection H as <- <-.
  set (r := GitDB.merge_update _ _ _).
  set (st1 := GitDB.writeDataFile _ _).
  assert (Obj.lookup collection (GitDB.storage (GitDB.clearCache collection st1))
          = Some (<[i := r]> items)) as Hl'.
  { unfold st1. cbn. apply lookup_set_same. }
  split; [apply clearCache_miss|]. split.
  - unfold GitDB.collection_of. rewrite Hl'.
    apply read_fresh; [apply clearCache_miss|exact Hl'].
  - rewrite (readById_fresh _ _ _ _ _ _ (clearCache_miss _ _ _ _ _) Hl').
    apply head_filter_insert; [exact Hi|].
    assert (JS.get "id" r = JS.get "id" (nth i items [])) as ->.
    { pose proof (protected_merge_update (GitDB.isoNow1 e) (nth i items []) updates)
        as Hp. unfold GitDB.protected in Hp. now injection Hp. }
    now apply findIndex_nth.
Qed.

(** A record is updated, then read back by its id. *)
Lemma update_is_read_back_witness :
  let cfg := {| GitDB.validation := ValidationManager.default;
                GitDB.cacheTimeout := 300000 |} in
  let e := {| GitDB.uuid := "7d1f"; GitDB.isoNow1 := "t2"; GitDB.isoNow2 := "t2" |} in
  let st := {| GitDB.storage :=
                 [("users", [[("id", JS.VStr "1"); ("age", JS.VNum 30);
                              ("createdAt", JS.VStr "t1")]])];
               GitDB.heap := ∅; GitDB.next := 0; GitDB.cache := ∅ |} in
  exists r st',
    GitDB.update cfg true e "users" (JS.VStr "1") [("age", JS.VNum 31)] st
      = Ok (r, st')
    /\ DataFile.keeps (JSONFormat.format JSONFormat.default) (GitDB.storage st')
    /\ fst (GitDB.readById cfg 5 "users" (JS.VStr "1") st') = Some r
    /\ JS.get "age" r = JS.VNum 31.
Proof.
  intros cfg e st.
  destruct (GitDB.update cfg true e "users" (JS.VStr "1") [("age", JS.VNum 31)] st)
    as [[r st']|err] eqn:H; [|discriminate H].
  exists r, st'. split; [reflexivity|].
  assert (DataFile.keeps (JSONFormat.format JSONFormat.default) (GitDB.storage st'))
    as Hkeeps.
  { vm_compute in H. injection H as <- <-.
    eexists. split; [vm_compute; reflexivity|vm_compute; reflexivity]. }
  split; [exact Hkeeps|]. split.
  - exact (proj2 (proj2
             (update_is_read_back cfg (JSONFormat.format JSONFormat.default) true e
                "users" (JS.VStr "1") [("age", JS.VNum 31)] st st' r 5 []
                H Hkeeps eq_refl))).
  - vm_compute in H. injection H as <- _. reflexivity.
Defined.

Section FirstRecord.
Import JS GitDB.

(** [findIndex] finds the first record with the id *)
Lemma findIndex_first id (items : list obj) i :
  findIndex id items = Some i ->
  forall j x, (j < i)%nat -> items !! j = Some x ->
    strict_eq (get "id" x) id = false.
Proof.
  revert i. induction items as [|item rest IH]; cbn [findIndex]; intros i Hi;
    [discriminate|].
  destruct (strict_eq (get "id" item) id) eqn:E.
  - injection Hi as <-. intros j x Hj. lia.
  - destruct (findIndex id rest) as [k|] eqn:Hk; [|discriminate].
    injection Hi as <-. intros [|j] x Hj Hx.
    + now injection Hx as <-.
    + apply (IH k eq_refl j x); [lia|exact Hx].
Qed.

Lemma findIndex_lookup id (items : list obj) i :
  findIndex id items = Some i -> items !! i = Some (nth i items []).
Proof.
  intros Hi. apply findIndex_lt in Hi.
  destruct (lookup_lt_is_Some_2 items i Hi) as [x Hx].
  now rewrite (nth_lookup_Some _ _ [] _ Hx).
Qed.

End FirstRecord.

(** X2.  [delete] removes and returns one record, the first of the
    collection whose id is the given one; the records before it and after
    it stay, in their order, and the other collections are as they were.
    When the ids of the collection are pairwise distinct, no record with
    this id is left: [readById] returns [null] at any time, and a second
    [delete] raises the item-not-found error. *)
Theorem delete_removes_the_record
    (cfg : GitDB.config) (acquired : bool) (collection : string) (id : JS.value)
    (st st' : GitDB.state) (r : JS.obj) (now : Z) :
  GitDB.delete acquired collection id st = Ok (r, st') ->
  exists i,
    GitDB.collection_of collection (GitDB.storage st) !! i = Some r
    /\ JS.strict_eq (JS.get "id" r) id = true
    /\ (forall j x, (j < i)%nat ->
          GitDB.collection_of collection (GitDB.storage st) !! j = Some x ->
          JS.strict_eq (JS.get "id" x) id = false)
    /\ GitDB.collection_of collection (GitDB.storage st')
       = take i (GitDB.collection_of collection (GitDB.storage st))
         ++ drop (S i) (GitDB.collection_of collection (GitDB.storage st))
    /\ (forall c, c <> collection ->
          Obj.lookup c (GitDB.storage st') = Obj.lookup c (GitDB.storage st))
    /\ (NoDup (GitDB.ids (GitDB.collection_of collection (GitDB.storage st))) ->
        fst (GitDB.readById cfg now collection id st') = None
        /\ GitDB.delete acquired collection id st'
           = Err (GitDB.ItemNotFound id collection)).
Proof.
  unfold GitDB.delete, GitDB.locked, GitDB.readDataFile, GitDB.collection_of.
  destruct acquired; [|discriminate].
  destruct (Obj.lookup collection (GitDB.storage st)) as [items|] eqn:Hl;
    [|discriminate].
  destruct (GitDB.findIndex id items) as [i|] eqn:Hi; [|discriminate].
  intros H. injection H as <- <-.
  set (st1 := GitDB.writeDataFile _ _).
  assert (Obj.lookup collection (GitDB.storage (GitDB.clearCache collection st1))
          = Some (GitDB.splice1 i items)) as Hl'.
  { unfold st1. cbn. apply lookup_set_same. }
  rewrite Hl'. exists i.
  split; [exact (findIndex_lookup id items i Hi)|].
  split; [now apply findIndex_nth|].
  split; [exact (findIndex_first id items i Hi)|].
  split; [reflexivity|]. split.
  - intros c Hc. unfold st1. cbn. now apply lookup_set_other.
  - intros Hnd. pose proof (findIndex_splice id items i Hnd Hi) as Hnone. split.
    + rewrite (readById_fresh _ _ _ _ _ _ (clearCache_miss _ _ _ _ _) Hl').
      now rewrite findIndex_none.
    + now rewrite Hnone.
Qed.

(** Of two users the first is deleted. *)
Lemma delete_removes_the_record_witness :
  let cfg := {| GitDB.validation := ValidationManager.default;
                GitDB.cacheTimeout := 300000 |} in
  let st := {| GitDB.storage :=
                 [("users", [[("id", JS.VStr "1")]; [("id", JS.VStr "2")]])];
               GitDB.heap := ∅; GitDB.next := 0; GitDB.cache := ∅ |} in
  exists r st',
    GitDB.delete true "users" (JS.VStr "1") st = Ok (r, st')
    /\ GitDB.collection_of "users" (GitDB.storage st') = [[("id", JS.VStr "2")]]
    /\ fst (GitDB.readById cfg 5 "users" (JS.VStr "1") st') = None
    /\ GitDB.delete true "users" (JS.VStr "1") st'
       = Err (GitDB.ItemNotFound (JS.VStr "1") "users").
Proof.
  intros cfg st.
  destruct (GitDB.delete true "users" (JS.VStr "1") st) as [[r st']|err] eqn:H;
    [|discriminate H].
  exists r, st'. split; [reflexivity|].
  assert (NoDup (GitDB.ids (GitDB.collection_of "users" (GitDB.storage st)))) as Hnd.
  { simpl. apply NoDup_cons_2.
    - intros Hin. apply list_elem_of_In in Hin. simpl in Hin.
      destruct Hin as [Heq|[]]. discriminate Heq.
    - apply NoDup_cons_2; [apply not_elem_of_nil|apply NoDup_nil_2]. }
  destruct (delete_removes_the_record cfg true "users" (JS.VStr "1") st st' r 5 H)
    as (i & Hr & _ & _ & Hrest & _ & Hgone).
  destruct (Hgone Hnd) as [H1 H2].
  split; [|split; [exact H1|exact H2]].
  rewrite Hrest. destruct i as [|[|i]]; [reflexivity| |discriminate Hr].
  vm_compute in H. injection H as <- _. discriminate Hr.
Defined.

Section CollectionsAfterWrites.
Import JS GitDB.

Lemma lookup_push collection item (data : database) :
  Obj.lookup collection (push collection item data)
  = Some (collection_of collection data ++ [item]).
Proof.
  unfold push, collection_of.
  destruct (Obj.lookup collection data); now rewrite lookup_set_same.
Qed.

Lemma lookup_push_other c collection item (data : database) :
  c <> collection ->
  Obj.lookup c (push collection item data) = Obj.lookup c data.
Proof.
  intros Hne. unfold push.
  destruct (Obj.lookup collection data); now rewrite lookup_set_other.
Qed.

Lemma bulk_step_other cfg e op (data data' : database) r c :
  bulk_step cfg e op data = Ok (data', r) ->
  c <> op_collection op ->
  Obj.lookup c data' = Obj.lookup c data.
Proof.
  destruct op as [c0 item|c0 id updates|c0 id|ty c0]; simpl; intros H Hne.
  - destruct (validate cfg _); simpl in H; [|discriminate].
    injection H as <- _. now apply lookup_push_other.
  - destruct (Obj.lookup c0 data) as [items|]; [|now injection H as <- _].
    destruct (findIndex id items); [|now injection H as <- _].
    destruct (validate cfg _); simpl in H; [|discriminate].
    injection H as <- _. now apply lookup_set_other.
  - destruct (Obj.lookup c0 data) as [items|]; [|now injection H as <- _].
    destruct (findIndex id items); [|now injection H as <- _].
    injection H as <- _. now apply lookup_set_other.
  - now injection H as <- _.
Qed.

Lemma bulk_loop_other cfg c ops : forall (data data' : database) rs,
  bulk_loop cfg ops data = Ok (data', rs) ->
  ~ In c (map (fun oe => op_collection (fst oe)) ops) ->
  Obj.lookup c data' = Obj.lookup c data.
Proof.
  induction ops as [|[op e] rest IH]; intros data data' rs; simpl.
  - now intros [= <- <-].
  - destruct (bulk_step cfg e op data) as [[data1 r]|] eqn:Hs; simpl; [|discriminate].
    destruct (bulk_loop cfg rest data1) as [[data2 rs2]|] eqn:Hl; simpl; [|discriminate].
    intros [= <- <-] Hnotin.
    rewrite (IH _ _ _ Hl) by tauto.
    apply (bulk_step_other _ _ _ _ _ _ _ Hs). intros ->. tauto.
Qed.

Lemma clearCache_all_heap cs : forall st,
  heap (fold_left (fun s c => clearCache c s) cs st) = heap st.
Proof. induction cs as [|c cs IH]; intros st; [reflexivity|]. simpl. now rewrite IH. Qed.

End CollectionsAfterWrites.



(** X4.  A call that writes the Database ([create], [update], [delete],
    [deleteCollection], [bulkOperation]) leaves every collection that it
    does not name as it was, and adds no read to the cache and replaces
    none: every read that the cache holds afterwards was cached before,
    with the same array object and the same time.  (What the array object
    holds is another matter: [create] writes the id and the time stamps
    into the item it is given, and a caller may give it a record of a
    cached array.) *)
Theorem writes_leave_other_collections
    (cfg : GitDB.config) (cs : list string) (st st' : GitDB.state) (c : string) :
  GitDB.writes cfg cs st st' ->
  ~ In c cs ->
  Obj.lookup c (GitDB.storage st') = Obj.lookup c (GitDB.storage st)
  /\ forall key entry,
       GitDB.cache st' !! key = Some entry -> GitDB.cache st !! key = Some entry.
Proof.
  intros Hw Hnotin.
  destruct Hw as
    [acquired e collection item st r st' H
    |acquired e collection id updates st r st' H
    |acquired collection id st r st' H
    |acquired collection st r st' H
    |acquired ops st r st' H].
  - destruct acquired; [|discriminate H].
    apply create_ok in H as (_ & Hst & Hc & Hh).
    rewrite Hst, Hc. split; [|auto].
    apply lookup_push_other. intros ->. apply Hnotin. now left.
  - unfold GitDB.update, GitDB.locked, GitDB.readDataFile in H.
    destruct acquired; [|discriminate H].
    destruct (Obj.lookup collection (GitDB.storage st)) as [items|]; [|discriminate H].
    destruct (GitDB.findIndex id items); [|discriminate H].
    destruct (GitDB.validate cfg _); simpl in H; [|discriminate H].
    injection H as <- <-. cbn. split.
    + apply lookup_set_other. intros ->. apply Hnotin. now left.
    + intros key entry Hk. now apply clearCache_lookup in Hk as [Hk _].
  - unfold GitDB.delete, GitDB.locked, GitDB.readDataFile in H.
    destruct acquired; [|discriminate H].
    destruct (Obj.lookup collection (GitDB.storage st)) as [items|]; [|discriminate H].
    destruct (GitDB.findIndex id items); [|discriminate H].
    injection H as <- <-. cbn. split.
    + apply lookup_set_other. intros ->. apply Hnotin. now left.
    + intros key entry Hk. now apply clearCache_lookup in Hk as [Hk _].
  - unfold GitDB.deleteCollection, GitDB.locked, GitDB.readDataFile in H.
    destruct acquired; [|discriminate H].
    destruct (Obj.lookup collection (GitDB.storage st)) as [items|]; [|discriminate H].
    injection H as <- <-. cbn. split.
    + apply lookup_del_other. intros ->. apply Hnotin. now left.
    + intros key entry Hk. now apply clearCache_lookup in Hk as [Hk _].
  - unfold GitDB.bulkOperation, GitDB.locked, GitDB.readDataFile in H.
    destruct acquired; [|discriminate H].
    destruct (GitDB.bulk_loop cfg ops (GitDB.storage st)) as [[data' rs]|] eqn:Hb;
      simpl in H; [|discriminate H].
    injection H as <- <-.
    rewrite clearCache_all_storage. cbn. split.
    + now apply (bulk_loop_other _ _ _ _ _ _ Hb).
    + intros key entry Hk. now apply clearCache_all_lookup in Hk.
Qed.

(** A user is created; the posts are as before. *)
Lemma writes_leave_other_collections_witness :
  let cfg := {| GitDB.validation := ValidationManager.default;
                GitDB.cacheTimeout := 300000 |} in
  let e := {| GitDB.uuid := "7d1f"; GitDB.isoNow1 := "t1"; GitDB.isoNow2 := "t1" |} in
  let st := {| GitDB.storage := [("posts", [[("id", JS.VStr "p1")]])];
               GitDB.heap := ∅; GitDB.next := 0; GitDB.cache := ∅ |} in
  exists r st',
    GitDB.create cfg true e "users" [("name", JS.VStr "A")] st = Ok (r, st')
    /\ Obj.lookup "posts" (GitDB.storage st') = Some [[("id", JS.VStr "p1")]].
Proof.
  intros cfg e st.
  destruct (GitDB.create cfg true e "users" [("name", JS.VStr "A")] st)
    as [[r st']|err] eqn:H; [|discriminate H].
  exists r, st'. split; [reflexivity|].
  assert (~ In "posts" ["users"]) as Hnotin.
  { simpl. intros [Heq|[]]. discriminate Heq. }
  exact (proj1 (writes_leave_other_collections cfg ["users"] st st' "posts"
                  (GitDB.writes_create cfg true e "users" _ st r st' H) Hnotin)).
Defined.

Section CreatedRecords.
Import JS GitDB.

Lemma filter_id_absent id (items : list obj) :
  ~ In id (ids items) -> List.filter (matches [("id", QVal id)]) items = [].
Proof.
  intros Hnotin. apply findIndex_none.
  destruct (findIndex id items) as [i|] eqn:Hi; [|reflexivity].
  exfalso. apply Hnotin. now apply (findIndex_in _ _ i).
Qed.

Lemma truthy_has k (item : obj) : truthy (get k item) = true -> has k item = true.
Proof. unfold get, has. now destruct (Obj.lookup k item). Qed.

Lemma has_set_same k v (item : obj) : has k (Obj.set k v item) = true.
Proof. unfold has. now rewrite lookup_set_same. Qed.

Lemma has_set_other k k' v (item : obj) :
  k <> k' -> has k (Obj.set k' v item) = has k item.
Proof. intros H. unfold has. now rewrite lookup_set_other. Qed.

Lemma get_stamp_new_id e (item : obj) :
  get "id" (stamp_new e item)
  = if truthy (get "id" item) then get "id" item else VStr (uuid e).
Proof.
  unfold stamp_new.
  rewrite get_set_other by discriminate. rewrite get_set_other by discriminate.
  destruct (truthy (get "id" item)); [reflexivity|apply get_set_same].
Qed.

End CreatedRecords.

(** X5.  [create] returns the item with an id and the two timestamps: a
    truthy id of the item is kept, any other ([undefined], [null], [0], the
    empty string, [false]) is replaced by the generated one; every other
    field is as given.  When the configured format reads back the Database
    written (the JSON format does so for a Database of plain values; the
    CSV format never does), the data file holds the Database with the
    record appended to its collection. *)
Theorem create_stamps_the_item
    (cfg : GitDB.config) (fmt : FormatManager.Format) (acquired : bool)
    (e : GitDB.env) (collection : string) (item : JS.obj)
    (st st' : GitDB.state) (r : JS.obj) :
  GitDB.create cfg acquired e collection item st = Ok (r, st') ->
  JS.get "id" r
    = (if JS.truthy (JS.get "id" item) then JS.get "id" item
       else JS.VStr (GitDB.uuid e))
  /\ JS.get "createdAt" r = JS.VStr (GitDB.isoNow1 e)
  /\ JS.get "updatedAt" r = JS.VStr (GitDB.isoNow2 e)
  /\ (forall k, k <> "id" -> k <> "createdAt" -> k <> "updatedAt" ->
        JS.get k r = JS.get k item)
  /\ (DataFile.keeps fmt (GitDB.storage st') ->
      GitDB.collection_of collection (GitDB.storage st')
      = GitDB.collection_of collection (GitDB.storage st) ++ [r]).
Proof.
  destruct acquired; [|discriminate].
  intros H. apply create_ok in H as (-> & Hst & _ & _).
  split; [apply get_stamp_new_id|]. split; [|split; [|split]].
  - unfold GitDB.stamp_new. rewrite get_set_other by discriminate.
    apply get_set_same.
  - unfold GitDB.stamp_new. apply get_set_same.
  - intros k H1 H2 H3. unfold GitDB.stamp_new.
    rewrite !get_set_other by assumption.
    destruct (JS.truthy (JS.get "id" item)); [reflexivity|].
    now rewrite get_set_other.
  - intros _. rewrite Hst. apply collection_of_push.
Qed.

(** An item that carries the id [0] is stored under the generated id. *)
Lemma create_stamps_the_item_witness :
  let cfg := {| GitDB.validation := ValidationManager.default;
                GitDB.cacheTimeout := 300000 |} in
  let e := {| GitDB.uuid := "7d1f"; GitDB.isoNow1 := "t1"; GitDB.isoNow2 := "t1" |} in
  let st := {| GitDB.storage := []; GitDB.heap := ∅; GitDB.next := 0;
               GitDB.cache := ∅ |} in
  exists r st',
    GitDB.create cfg true e "users" [("id", JS.VNum 0); ("name", JS.VStr "A")] st
      = Ok (r, st')
    /\ JS.get "id" r = JS.VStr "7d1f"
    /\ JS.get "name" r = JS.VStr "A".
Proof.
  intros cfg e st.
  destruct (GitDB.create cfg true e "users"
              [("id", JS.VNum 0); ("name", JS.VStr "A")] st)
    as [[r st']|err] eqn:H; [|discriminate H].
  exists r, st'. split; [reflexivity|].
  destruct (create_stamps_the_item cfg (JSONFormat.format JSONFormat.default) true e
              "users" _ st st' r H)
    as (H1 & _ & _ & H2 & _).
  split; [exact H1|]. rewrite H2 by discriminate. reflexivity.
Defined.

(** X6.  A created record is read back by its id: when the configured
    format reads back the Database that [create] writes (the JSON format
    does so for a Database of plain values, so when the item has no
    [undefined] member; the CSV format never does), the id under which
    [create] stored the record is a primitive value that no record of the
    collection carried before, and no read under this id is cached,
    [readById] returns the record that [create] returned. *)
Theorem create_is_read_back_by_id
    (cfg : GitDB.config) (fmt : FormatManager.Format) (acquired : bool)
    (e : GitDB.env) (collection : string) (item : JS.obj)
    (st st' : GitDB.state) (r : JS.obj) (now : Z) :
  GitDB.create cfg acquired e collection item st = Ok (r, st') ->
  DataFile.keeps fmt (GitDB.storage st') ->
  JS.strict_eq (JS.get "id" r) (JS.get "id" r) = true ->
  ~ In (JS.get "id" r)
       (GitDB.ids (GitDB.collection_of collection (GitDB.storage st))) ->
  GitDB.cache_hit cfg now
    (GitDB.cacheKey collection [("id", GitDB.QVal (JS.get "id" r))]) st = None ->
  fst (GitDB.readById cfg now collection (JS.get "id" r) st') = Some r.
Proof.
  destruct acquired; [|discriminate].
  intros H _ Hprim Hnew Hmiss.
  apply create_ok in H as (Hr & Hst & Hc & _).
  assert (GitDB.cache_hit cfg now
            (GitDB.cacheKey collection [("id", GitDB.QVal (JS.get "id" r))]) st'
          = None) as Hmiss'.
  { unfold GitDB.cache_hit in *. now rewrite Hc. }
  rewrite (readById_fresh cfg now collection _ st'
             (GitDB.collection_of collection (GitDB.storage st) ++ [r]) Hmiss').
  - rewrite List.filter_app, filter_id_absent by exact Hnew.
    cbn [List.filter app]. now rewrite matches_id, Hprim.
  - rewrite Hst. apply lookup_push.
Qed.

(** A user is created in a new Database and read back by the generated id. *)
Lemma create_is_read_back_by_id_witness :
  let cfg := {| GitDB.validation := ValidationManager.default;
                GitDB.cacheTimeout := 300000 |} in
  let e := {| GitDB.uuid := "7d1f"; GitDB.isoNow1 := "t1"; GitDB.isoNow2 := "t1" |} in
  let st := {| GitDB.storage := []; GitDB.heap := ∅; GitDB.next := 0;
               GitDB.cache := ∅ |} in
  exists r st',
    GitDB.create cfg true e "users" [("name", JS.VStr "A")] st = Ok (r, st')
    /\ DataFile.keeps (JSONFormat.format JSONFormat.default) (GitDB.storage st')
    /\ fst (GitDB.readById cfg 5 "users" (JS.VStr "7d1f") st') = Some r.
Proof.
  intros cfg e st.
  destruct (GitDB.create cfg true e "users" [("name", JS.VStr "A")] st)
    as [[r st']|err] eqn:H; [|discriminate H].
  exists r, st'. split; [reflexivity|].
  pose proof (create_is_read_back_by_id cfg (JSONFormat.format JSONFormat.default)
                true e "users" _ st st' r 5 H) as Hread.
  injection H as <- <-.
  assert (DataFile.keeps (JSONFormat.format JSONFormat.default)
            [("users", [[("name", JS.VStr "A"); ("id", JS.VStr "7d1f");
                         ("createdAt", JS.VStr "t1"); ("updatedAt", JS.VStr "t1")]])])
    as Hkeeps by (eexists; split; [vm_compute; reflexivity|vm_compute; reflexivity]).
  split; [exact Hkeeps|].
  apply Hread; [exact Hkeeps|reflexivity| |reflexivity].
  simpl. tauto.
Defined.

Section MergedFields.
Import JS GitDB.

Lemma has_get_cons k k' v (o : obj) :
  k <> k' -> has k ((k', v) :: o) = has k o /\ get k ((k', v) :: o) = get k o.
Proof.
  intros Hne. unfold has, get. simpl.
  destruct (String.eqb_spec k k'); [contradiction|]. auto.
Qed.

Lemma lookup_none_has k (o : obj) : ~ In k (map fst o) -> has k o = false.
Proof.
  induction o as [|[k' v'] o IH]; simpl; intros H; [reflexivity|].
  unfold has in *. simpl.
  destruct (String.eqb_spec k k') as [->|Hne]; [exfalso; apply H; now left|].
  apply IH. tauto.
Qed.

(** [{...target, ...src}] field by field *)
Lemma get_spread k (src : obj) : forall target : obj,
  NoDup (map fst src) ->
  get k (Obj.spread target src) = if has k src then get k src else get k target.
Proof.
  unfold Obj.spread.
  induction src as [|[k' v'] src IH]; intros target Hnd; [reflexivity|].
  apply NoDup_cons in Hnd as [Hnotin Hnd]. cbn [fold_left fst snd].
  rewrite IH by exact Hnd.
  destruct (String.eqb_spec k k') as [->|Hne].
  - rewrite lookup_none_has
      by (intros Hin; apply Hnotin; now apply list_elem_of_In).
    rewrite get_set_same. unfold has, get. simpl. now rewrite String.eqb_refl.
  - destruct (has_get_cons k k' v' src Hne) as [-> ->].
    now rewrite get_set_other.
Qed.

Lemma get_spread_nil k (src : obj) :
  NoDup (map fst src) -> get k (Obj.spread [] src) = get k src.
Proof.
  intros Hnd. rewrite get_spread by exact Hnd. unfold has, get.
  now destruct (Obj.lookup k src).
Qed.

End MergedFields.

(** X7.  The record that [update] returns is the record found, field by
    field, with the fields of the payload written over it, except that
    [id] and [createdAt] stay those of the record found and that
    [updatedAt] is the time of the call.  When the configured format reads
    back the Database written (the JSON format does so for a Database of
    plain values, so when the record returned has no [undefined] member),
    the data file holds the Database with this record in the place of the
    record found. *)
Theorem update_merges_the_payload
    (cfg : GitDB.config) (fmt : FormatManager.Format) (acquired : bool)
    (e : GitDB.env) (collection : string) (id : JS.value) (updates : JS.obj)
    (st st' : GitDB.state) (r : JS.obj) :
  GitDB.update cfg acquired e collection id updates st = Ok (r, st') ->
  exists i original,
    GitDB.findIndex id (GitDB.collection_of collection (GitDB.storage st)) = Some i
    /\ GitDB.collection_of collection (GitDB.storage st) !! i = Some original
    /\ JS.get "updatedAt" r = JS.VStr (GitDB.isoNow1 e)
    /\ JS.get "id" r = JS.get "id" original
    /\ JS.get "createdAt" r = JS.get "createdAt" original
    /\ (NoDup (map fst original) -> NoDup (map fst updates) ->
        forall k, k <> "id" -> k <> "createdAt" -> k <> "updatedAt" ->
          JS.get k r
          = if JS.has k updates then JS.get k updates else JS.get k original)
    /\ (DataFile.keeps fmt (GitDB.storage st') ->
        GitDB.collection_of collection (GitDB.storage st')
        = <[i := r]> (GitDB.collection_of collection (GitDB.storage st))).
Proof.
  unfold GitDB.update, GitDB.locked, GitDB.readDataFile, GitDB.collection_of.
  destruct acquired; [|discriminate].
  destruct (Obj.lookup collection (GitDB.storage st)) as [items|] eqn:Hl;
    [|discriminate].
  destruct (GitDB.findIndex id items) as [i|] eqn:Hi; [|discriminate].
  destruct (GitDB.validate cfg _); simpl; [|discriminate].
  intros H. injection H as <- <-.
  exists i, (nth i items []). split; [reflexivity|].
  split; [exact (findIndex_lookup id items i Hi)|].
  pose proof (protected_merge_update (GitDB.isoNow1 e) (nth i items []) updates) as Hp.
  unfold GitDB.protected in Hp. injection Hp as Hid Hcreated.
  split; [apply get_set_same|]. split; [exact Hid|]. split; [exact Hcreated|].
  split.
  - intros Hnd1 Hnd2 k H1 H2 H3. unfold GitDB.merge_update.
    rewrite !get_set_other by assumption.
    rewrite get_spread by exact Hnd2. now rewrite get_spread_nil.
  - intros _. cbn [GitDB.storage GitDB.clearCache GitDB.writeDataFile].
    now rewrite lookup_set_same.
Qed.

(** The age of a user is updated; the payload also names an id, which is
    not taken. *)
Lemma update_merges_the_payload_witness :
  let cfg := {| GitDB.validation := ValidationManager.default;
                GitDB.cacheTimeout := 300000 |} in
  let e := {| GitDB.uuid := "7d1f"; GitDB.isoNow1 := "t2"; GitDB.isoNow2 := "t2" |} in
  let st := {| GitDB.storage :=
                 [("users", [[("id", JS.VStr "1"); ("name", JS.VStr "A");
                              ("age", JS.VNum 30)]])];
               GitDB.heap := ∅; GitDB.next := 0; GitDB.cache := ∅ |} in
  exists r st',
    GitDB.update cfg true e "users" (JS.VStr "1")
      [("age", JS.VNum 31); ("id", JS.VStr "2")] st = Ok (r, st')
    /\ JS.get "age" r = JS.VNum 31
    /\ JS.get "name" r = JS.VStr "A"
    /\ JS.get "id" r = JS.VStr "1".
Proof.
  intros cfg e st.
  destruct (GitDB.update cfg true e "users" (JS.VStr "1")
              [("age", JS.VNum 31); ("id", JS.VStr "2")] st)
    as [[r st']|err] eqn:H; [|discriminate H].
  exists r, st'. split; [reflexivity|].
  destruct (update_merges_the_payload cfg (JSONFormat.format JSONFormat.default)
              true e "users" _ _ st st' r H)
    as (i & original & Hi & Ho & _ & Hid & _ & Hk & _).
  vm_compute in Hi. injection Hi as <-.
  vm_compute in Ho. injection Ho as <-.
  assert (NoDup (map fst [("id", JS.VStr "1"); ("name", JS.VStr "A");
                          ("age", JS.VNum 30)])) as Hnd1 by distinct_names.
  assert (NoDup (map fst [("age", JS.VNum 31); ("id", JS.VStr "2")])) as Hnd2
    by distinct_names.
  split; [|split].
  - rewrite (Hk Hnd1 Hnd2 "age") by discriminate. reflexivity.
  - rewrite (Hk Hnd1 Hnd2 "name") by discriminate. reflexivity.
  - rewrite Hid. reflexivity.
Defined.

(* ===================================================================== *)
(** ** GitDB: bulk operations *)
(* ===================================================================== *)

Section BulkFacts.
Import JS GitDB.

Lemma set_same {A} k (v : A) (o : list (string * A)) :
  Obj.lookup k o = Some v -> Obj.set k v o = o.
Proof.
  induction o as [|[k' v'] o IH]; simpl; [discriminate|].
  destruct (String.eqb_spec k k') as [->|Hne].
  - now intros [= ->].
  - intros H. now rewrite IH.
Qed.

Lemma bulk_create_item e (item : obj) :
  NoDup (map fst item) ->
  Obj.set "updatedAt" (VStr (isoNow2 e))
    (Obj.set "createdAt" (VStr (isoNow1 e))
       (Obj.set "id"
          (if truthy (get "id" item) then get "id" item else VStr (uuid e))
          (Obj.spread [] item)))
  = stamp_new e item.
Proof.
  intros Hnd. unfold stamp_new. rewrite (spread_nodup item []) by exact Hnd.
  simpl app. destruct (truthy (get "id" item)) eqn:Ht; [|reflexivity].
  rewrite (set_same "id" (get "id" item) item); [reflexivity|].
  unfold get in *. now destruct (Obj.lookup "id" item).
Qed.

Lemma bulk_loop_app cfg ops1 : forall ops2 (data data1 data2 : database) rs1 rs2,
  bulk_loop cfg ops1 data = Ok (data1, rs1) ->
  bulk_loop cfg ops2 data1 = Ok (data2, rs2) ->
  bulk_loop cfg (ops1 ++ ops2) data = Ok (data2, rs1 ++ rs2).
Proof.
  induction ops1 as [|[op e] rest IH]; intros ops2 data data1 data2 rs1 rs2; simpl.
  - now intros [= <- <-].
  - destruct (bulk_step cfg e op data) as [[d r]|] eqn:Hs; simpl; [|discriminate].
    destruct (bulk_loop cfg rest d) as [[d' rs]|] eqn:Hl; simpl; [|discriminate].
    intros [= <- <-] H2. now rewrite (IH _ _ _ _ _ _ Hl H2).
Qed.

Lemma clearCache_all_write cs : forall (data : database) st,
  fold_left (fun s c => clearCache c s) cs (writeDataFile data st)
  = writeDataFile data (fold_left (fun s c => clearCache c s) cs st).
Proof.
  induction cs as [|c cs IH]; intros data st; [reflexivity|]. simpl.
  now rewrite <- IH.
Qed.

Lemma bulk_loop_length cfg ops : forall (data data' : database) rs,
  bulk_loop cfg ops data = Ok (data', rs) -> length rs = length ops.
Proof.
  induction ops as [|[op e] rest IH]; intros data data' rs; simpl.
  - now intros [= <- <-].
  - destruct (bulk_step cfg e op data) as [[d r]|] eqn:Hs; simpl; [|discriminate].
    destruct (bulk_loop cfg rest d) as [[d' rs']|] eqn:Hl; simpl; [|discriminate].
    intros [= <- <-]. simpl. f_equal. eauto.
Qed.

End BulkFacts.

(** X8.  A bulk operation of one [update] or one [delete] that the single
    call would carry out does what the single call does: the same record is
    returned in the one result, and the same state is reached.  A bulk
    operation of one [create] stores and returns the record that [create]
    would, and in addition removes the cached reads of the collection,
    which [create] leaves in place. *)
Theorem bulk_of_one_is_the_single_call
    (cfg : GitDB.config) (e : GitDB.env) (collection : string)
    (id : JS.value) (item updates : JS.obj) (st st' : GitDB.state) (r : JS.obj) :
  (GitDB.update cfg true e collection id updates st = Ok (r, st') ->
   GitDB.bulkOperation cfg true [(GitDB.OpUpdate collection id updates, e)] st
   = Ok ([GitDB.Success "update" r], st'))
  /\ (GitDB.delete true collection id st = Ok (r, st') ->
      GitDB.bulkOperation cfg true [(GitDB.OpDelete collection id, e)] st
      = Ok ([GitDB.Success "delete" r], st'))
  /\ (GitDB.create cfg true e collection item st = Ok (r, st') ->
      NoDup (map fst item) ->
      GitDB.bulkOperation cfg true [(GitDB.OpCreate collection item, e)] st
      = Ok ([GitDB.Success "create" r], GitDB.clearCache collection st')).
Proof.
  unfold GitDB.update, GitDB.delete, GitDB.create, GitDB.bulkOperation,
    GitDB.locked, GitDB.readDataFile.
  cbn [GitDB.bulk_loop GitDB.bulk_step map fold_left fst GitDB.op_collection].
  split; [|split].
  - destruct (Obj.lookup collection (GitDB.storage st)) as [items|]; [|discriminate].
    destruct (GitDB.findIndex id items); [|discriminate].
    destruct (GitDB.validate cfg _); simpl; [|discriminate].
    now intros [= <- <-].
  - destruct (Obj.lookup collection (GitDB.storage st)) as [items|]; [|discriminate].
    destruct (GitDB.findIndex id items); [|discriminate].
    simpl. now intros [= <- <-].
  - intros H Hnd. rewrite bulk_create_item by exact Hnd.
    destruct (GitDB.validate cfg _); simpl in *; [|discriminate].
    now injection H as <- <-.
Qed.

(** X9.  A bulk operation is its operations carried out in order: when two
    bulk operations succeed one after the other and the configured format
    reads back the Database that the first writes (the JSON format does so
    for a Database of plain values), so that the second reads from the
    data file what the first held in memory, the bulk operation of the two
    lists put together succeeds from the first state, returns the results
    of both in order, and reaches the same final state. *)
Theorem bulk_operations_compose
    (cfg : GitDB.config) (fmt : FormatManager.Format) (acquired : bool)
    (ops1 ops2 : list (GitDB.operation * GitDB.env))
    (st st1 st2 : GitDB.state) (rs1 rs2 : list GitDB.op_result) :
  GitDB.bulkOperation cfg acquired ops1 st = Ok (rs1, st1) ->
  DataFile.keeps fmt (GitDB.storage st1) ->
  GitDB.bulkOperation cfg acquired ops2 st1 = Ok (rs2, st2) ->
  GitDB.bulkOperation cfg acquired (ops1 ++ ops2) st = Ok (rs1 ++ rs2, st2)
  /\ length rs1 = length ops1 /\ length rs2 = length ops2.
Proof.
  intros H1 _ H2. revert H1 H2.
  unfold GitDB.bulkOperation, GitDB.locked, GitDB.readDataFile.
  destruct acquired; [|discriminate].
  destruct (GitDB.bulk_loop cfg ops1 (GitDB.storage st)) as [[d1 r1]|] eqn:H1;
    simpl; [|discriminate].
  intros [= <- <-]. rewrite clearCache_all_storage. cbn [GitDB.storage GitDB.writeDataFile].
  destruct (GitDB.bulk_loop cfg ops2 d1) as [[d2 r2]|] eqn:H2; simpl; [|discriminate].
  intros [= <- <-].
  rewrite (bulk_loop_app _ _ _ _ _ _ _ _ H1 H2). simpl.
  split; [|split; eapply bulk_loop_length; eauto].
  f_equal. f_equal. rewrite map_app, fold_left_app.
  now rewrite !clearCache_all_write.
Qed.

(** A user is created by one bulk operation and updated by the next. *)
Lemma bulk_operations_compose_witness :
  let cfg := {| GitDB.validation := ValidationManager.default;
                GitDB.cacheTimeout := 300000 |} in
  let e := {| GitDB.uuid := "7d1f"; GitDB.isoNow1 := "t1"; GitDB.isoNow2 := "t1" |} in
  let st := {| GitDB.storage := []; GitDB.heap := ∅; GitDB.next := 0;
               GitDB.cache := ∅ |} in
  let ops1 := [(GitDB.OpCreate "users" [("id", JS.VStr "1")], e)] in
  let ops2 := [(GitDB.OpUpdate "users" (JS.VStr "1") [("age", JS.VNum 31)], e);
               (GitDB.OpDelete "users" (JS.VStr "9"), e)] in
  exists rs1 st1 rs2 st2,
    GitDB.bulkOperation cfg true ops1 st = Ok (rs1, st1)
    /\ DataFile.keeps (JSONFormat.format JSONFormat.default) (GitDB.storage st1)
    /\ GitDB.bulkOperation cfg true ops2 st1 = Ok (rs2, st2)
    /\ GitDB.bulkOperation cfg true (ops1 ++ ops2) st = Ok (rs1 ++ rs2, st2)
    /\ length (rs1 ++ rs2) = 3%nat.
Proof.
  intros cfg e st ops1 ops2.
  destruct (GitDB.bulkOperation cfg true ops1 st) as [[rs1 st1]|err] eqn:H1;
    [|discriminate H1].
  destruct (GitDB.bulkOperation cfg true ops2 st1) as [[rs2 st2]|err] eqn:H2;
    [|vm_compute in H1; injection H1 as <- <-; discriminate H2].
  exists rs1, st1, rs2, st2.
  assert (DataFile.keeps (JSONFormat.format JSONFormat.default) (GitDB.storage st1))
    as Hkeeps.
  { vm_compute in H1. injection H1 as <- <-.
    eexists. split; [vm_compute; reflexivity|vm_compute; reflexivity]. }
  destruct (bulk_operations_compose cfg (JSONFormat.format JSONFormat.default) true
              ops1 ops2 st st1 st2 rs1 rs2 H1 Hkeeps H2)
    as (H & L1 & L2).
  split; [reflexivity|]. split; [exact Hkeeps|]. split; [exact H2|].
  split; [exact H|].
  rewrite List.length_app, L1, L2. reflexivity.
Defined.

(* ===================================================================== *)
(** ** GitDB: the read cache *)
(* ===================================================================== *)

Section CacheFacts.
Import JS GitDB.

Lemma read_miss_state cfg now collection q st all :
  cache_hit cfg now (cacheKey collection q) st = None ->
  Obj.lookup collection (storage st) = Some all ->
  read cfg now collection q st
  = (next st,
     {| storage := storage st;
        heap := <[next st := selected q all]> (heap st);
        next := S (next st);
        cache := <[cacheKey collection q := (next st, now)]> (cache st) |}).
Proof.
  intros Hc Hl. unfold read, readDataFile. rewrite Hc, Hl. reflexivity.
Qed.

Lemma prefix_app_l (p s t : string) :
  String.prefix p s = true -> String.prefix p (s +:+ t) = true.
Proof.
  revert s. induction p as [|c p IH]; intros [|d s].
  - intros _. now destruct t.
  - intros _. now rewrite app_cons.
  - discriminate.
  - rewrite app_cons. simpl. destruct (ascii_dec c d); [apply IH|discriminate].
Qed.


End CacheFacts.



(** X12.  The cached reads that a write removes are chosen by the prefix
    [collection-] of their key: a successful [update] (likewise [delete],
    [deleteCollection] and a bulk operation) also removes the cached reads
    of every other collection whose name starts with this prefix, and
    leaves every cached read in place whose key does not start with it. *)
Theorem update_clears_cache_by_prefix
    (cfg : GitDB.config) (acquired : bool) (e : GitDB.env)
    (collection : string) (id : JS.value) (updates : JS.obj)
    (st st' : GitDB.state) (r : JS.obj)
    (other : string) (q : GitDB.query) (now : Z) :
  GitDB.update cfg acquired e collection id updates st = Ok (r, st') ->
  (String.prefix (collection +:+ "-") other = true ->
   GitDB.cache_hit cfg now (GitDB.cacheKey other q) st' = None)
  /\ (String.prefix (collection +:+ "-") (GitDB.cacheKey other q) = false ->
      GitDB.cache_hit cfg now (GitDB.cacheKey other q) st'
      = GitDB.cache_hit cfg now (GitDB.cacheKey other q) st).
Proof.
  unfold GitDB.update, GitDB.locked, GitDB.readDataFile.
  destruct acquired; [|discriminate].
  destruct (Obj.lookup collection (GitDB.storage st)) as [items|]; [|discriminate].
  destruct (GitDB.findIndex id items); [|discriminate].
  destruct (GitDB.validate cfg _); simpl; [|discriminate].
  intros H. injection H as <- <-. unfold GitDB.cache_hit, GitDB.clearCache.
  cbn [GitDB.cache GitDB.writeDataFile]. split.
  - intros Hp.
    rewrite map_lookup_filter_None_2; [reflexivity|].
    right. intros entry _. cbn [fst]. unfold GitDB.cacheKey.
    rewrite prefix_app_l by exact Hp. discriminate.
  - intros Hp.
    destruct (GitDB.cache st !! GitDB.cacheKey other q) as [entry|] eqn:Hk.
    + rewrite (map_lookup_filter_Some_2 _ _ _ _ Hk Hp). reflexivity.
    + rewrite map_lookup_filter_None_2; [reflexivity|now left].
Qed.

(** The reads of the collections [user-notes] and [posts] are cached, then
    a record of [user] is updated. *)
Lemma update_clears_cache_by_prefix_witness :
  let cfg := {| GitDB.validation := ValidationManager.default;
                GitDB.cacheTimeout := 300000 |} in
  let e := {| GitDB.uuid := "7d1f"; GitDB.isoNow1 := "t2"; GitDB.isoNow2 := "t2" |} in
  let st0 := {| GitDB.storage :=
                  [("user", [[("id", JS.VStr "1")]]);
                   ("user-notes", [[("id", JS.VStr "n1")]]);
                   ("posts", [[("id", JS.VStr "p1")]])];
                GitDB.heap := ∅; GitDB.next := 0; GitDB.cache := ∅ |} in
  let st := snd (GitDB.read cfg 0 "posts" []
                   (snd (GitDB.read cfg 0 "user-notes" [] st0))) in
  exists r st',
    GitDB.update cfg true e "user" (JS.VStr "1") [] st = Ok (r, st')
    /\ GitDB.cache_hit cfg 5 (GitDB.cacheKey "user-notes" []) st = Some 0%nat
    /\ GitDB.cache_hit cfg 5 (GitDB.cacheKey "user-notes" []) st' = None
    /\ GitDB.cache_hit cfg 5 (GitDB.cacheKey "posts" []) st' = Some 1%nat.
Proof.
  intros cfg e st0 st.
  destruct (GitDB.update cfg true e "user" (JS.VStr "1") [] st)
    as [[r st']|err] eqn:H; [|discriminate H].
  exists r, st'. split; [reflexivity|]. split; [reflexivity|].
  split.
  - exact (proj1 (update_clears_cache_by_prefix cfg true e "user" _ _ st st' r
                    "user-notes" [] 5 H) eq_refl).
  - rewrite (proj2 (update_clears_cache_by_prefix cfg true e "user" _ _ st st' r
                      "posts" [] 5 H) eq_refl).
    reflexivity.
Defined.



(** X14.  [filter] and [limit] answer with a new array: when the read of
    the whole collection is cached, in an array that an earlier read
    handed out, the array returned is another one, it holds the records of
    the cached array that pass the predicate (for [limit]: the [limit]
    records from [offset] on), and the cached array and the cache are as
    they were. *)
Theorem filter_and_limit_answer_with_new_arrays
    (cfg : GitDB.config) (now : Z) (collection : string)
    (predicate : JS.obj -> bool) (n offset : nat) (st : GitDB.state) (loc : nat) :
  GitDB.cache_hit cfg now (GitDB.cacheKey collection []) st = Some loc ->
  (loc < GitDB.next st)%nat ->
  let filtered := GitDB.filter cfg now collection predicate st in
  let limited := GitDB.limit cfg now collection n offset st in
  (fst filtered <> loc
   /\ GitDB.deref (snd filtered) (fst filtered)
      = List.filter predicate (GitDB.deref st loc)
   /\ GitDB.deref (snd filtered) loc = GitDB.deref st loc
   /\ GitDB.cache (snd filtered) = GitDB.cache st)
  /\ (fst limited <> loc
      /\ GitDB.deref (snd limited) (fst limited)
         = take n (drop offset (GitDB.deref st loc))
      /\ GitDB.deref (snd limited) loc = GitDB.deref st loc
      /\ GitDB.cache (snd limited) = GitDB.cache st).
Proof.
  intros Hhit Hlt filtered limited. subst filtered limited.
  unfold GitDB.filter, GitDB.limit, GitDB.read. rewrite Hhit.
  unfold GitDB.alloc, GitDB.deref. cbn [fst snd GitDB.heap GitDB.cache].
  rewrite !lookup_insert_eq.
  rewrite !lookup_insert_ne by lia.
  repeat split; try reflexivity; lia.
Qed.

(** The users are read, then filtered and limited. *)
Lemma filter_and_limit_answer_with_new_arrays_witness :
  let cfg := {| GitDB.validation := ValidationManager.default;
                GitDB.cacheTimeout := 300000 |} in
  let st0 := {| GitDB.storage :=
                  [("users", [[("id", JS.VStr "1")]; [("id", JS.VStr "2")]])];
                GitDB.heap := ∅; GitDB.next := 0; GitDB.cache := ∅ |} in
  let st := snd (GitDB.read cfg 0 "users" [] st0) in
  GitDB.deref (snd (GitDB.filter cfg 5 "users" (fun _ => false) st))
    (fst (GitDB.filter cfg 5 "users" (fun _ => false) st)) = []
  /\ GitDB.deref (snd (GitDB.filter cfg 5 "users" (fun _ => false) st)) 0%nat
     = [[("id", JS.VStr "1")]; [("id", JS.VStr "2")]]
  /\ GitDB.deref (snd (GitDB.limit cfg 5 "users" 1 0 st))
       (fst (GitDB.limit cfg 5 "users" 1 0 st)) = [[("id", JS.VStr "1")]].
Proof.
  intros cfg st0 st.
  assert (0 < GitDB.next st)%nat as Hlt by (vm_compute; lia).
  destruct (filter_and_limit_answer_with_new_arrays cfg 5 "users" (fun _ => false)
              1 0 st 0%nat eq_refl Hlt)
    as ((_ & Hf & Hkept & _) & (_ & Hl & _)).
  split; [exact Hf|]. split; [exact Hkept|exact Hl].
Defined.

(* ===================================================================== *)
(** ** GitDB: where, select and join *)
(* ===================================================================== *)

Section QueryFacts.
Import JS GitDB Query.

Lemma filter_by_total {A} (f : A -> result exn bool) (g : A -> bool) (l : list A) :
  (forall x, f x = Ok (g x)) -> filter_by f l = Ok (List.filter g l).
Proof.
  intros H. induction l as [|x l IH]; [reflexivity|].
  cbn [filter_by List.filter]. rewrite H, IH. now destruct (g x).
Qed.

Lemma filter_all {A} (l : list A) : List.filter (fun _ => true) l = l.
Proof. induction l as [|x l IH]; [reflexivity|]. simpl. now rewrite IH. Qed.

Lemma selected_filter (q : query) (all : list obj) :
  selected q all = List.filter (matches q) all.
Proof.
  destruct q as [|kq q]; [|reflexivity].
  unfold selected, matches. simpl. now rewrite filter_all.
Qed.

Lemma evaluateCondition_plain regex_test (item : obj) key (v : value) :
  String.eqb (typeof v) "object" = false ->
  evaluateCondition regex_test item key v = Ok (strict_eq (get key item) v).
Proof. intros H. unfold evaluateCondition. now rewrite H. Qed.

(** a where clause of plain values is the query of [read] *)
Lemma evaluateWhereClause_plain regex_test (item : obj) (fs : obj) :
  forallb (fun kv => negb (String.eqb (typeof (snd kv)) "object")) fs = true ->
  evaluateWhereClause regex_test item (CondVal (VObj fs))
  = Ok (matches (map (fun kv => (fst kv, QVal (snd kv))) fs) item).
Proof.
  intros Hplain. unfold evaluateWhereClause. cbn [typeof entries].
  change (String.eqb "object" "object") with true. cbv iota.
  induction fs as [|[k v] fs IH]; [reflexivity|].
  simpl in Hplain. apply andb_true_iff in Hplain as [Hv Hfs].
  cbn [every fst snd]. apply negb_true_iff in Hv.
  rewrite (evaluateCondition_plain _ _ _ _ Hv).
  unfold matches. cbn [map forallb fst snd].
  destruct (strict_eq (get k item) v); [|reflexivity].
  rewrite (IH Hfs). reflexivity.
Qed.

Lemma where_fresh regex_test cfg now collection c st all :
  Obj.lookup collection (storage st) = Some all ->
  cache_hit cfg now (cacheKey collection []) st = None ->
  fst (where_ regex_test cfg now collection c st)
  = filter_by (fun item => evaluateWhereClause regex_test item c) all.
Proof.
  intros Hl Hc. unfold where_.
  destruct (read_fresh cfg now collection [] st all Hc Hl) as [Hd _].
  destruct (read cfg now collection [] st) as [loc st1]. simpl in *.
  now rewrite Hd.
Qed.

Lemma toLowerCase_nonempty (s : string) :
  toLowerCase s <> EmptyString -> s <> EmptyString.
Proof. now destruct s. Qed.

Lemma lt_opt_undefined_r (a : value) : lt_opt a VUndefined = None.
Proof.
  unfold lt_opt. cbn [to_primitive].
  destruct (to_primitive a); cbn [to_number to_primitive];
    try reflexivity;
    match goal with
    | |- match ?x with _ => _ end = _ => destruct x; reflexivity
    end.
Qed.

Lemma lt_opt_undefined_l (b : value) : lt_opt VUndefined b = None.
Proof.
  unfold lt_opt. cbn [to_primitive].
  destruct (to_primitive b); reflexivity.
Qed.

End QueryFacts.

(** X15.  A where clause whose conditions are plain values (no [null], no
    array, no object) selects the records that [read] selects with the
    same object as query: on a collection of which neither read is cached,
    [where] returns what [read] returns. *)
Theorem where_agrees_with_read
    (regex_test : string -> string -> option bool)
    (cfg : GitDB.config) (now : Z) (collection : string) (fs : JS.obj)
    (st : GitDB.state) (all : list JS.obj) :
  let q := map (fun kv => (fst kv, GitDB.QVal (snd kv))) fs in
  Obj.lookup collection (GitDB.storage st) = Some all ->
  forallb (fun kv => negb (String.eqb (JS.typeof (snd kv)) "object")) fs = true ->
  GitDB.cache_hit cfg now (GitDB.cacheKey collection []) st = None ->
  GitDB.cache_hit cfg now (GitDB.cacheKey collection q) st = None ->
  fst (Query.where_ regex_test cfg now collection (Query.CondVal (JS.VObj fs)) st)
  = Ok (GitDB.deref (snd (GitDB.read cfg now collection q st))
          (fst (GitDB.read cfg now collection q st))).
Proof.
  intros q Hl Hplain Hc0 Hcq.
  rewrite (where_fresh _ _ _ _ _ _ _ Hl Hc0).
  rewrite (proj1 (read_fresh _ _ _ _ _ _ Hcq Hl)), selected_filter.
  apply filter_by_total. intros item. now apply evaluateWhereClause_plain.
Qed.

(** The users of one city, by [where] and by [read]. *)
Lemma where_agrees_with_read_witness :
  let cfg := {| GitDB.validation := ValidationManager.default;
                GitDB.cacheTimeout := 300000 |} in
  let u1 := [("id", JS.VStr "1"); ("city", JS.VStr "Oslo")] in
  let u2 := [("id", JS.VStr "2"); ("city", JS.VStr "Rome")] in
  let st := {| GitDB.storage := [("users", [u1; u2])];
               GitDB.heap := ∅; GitDB.next := 0; GitDB.cache := ∅ |} in
  fst (Query.where_ (fun _ _ => None) cfg 0 "users"
         (Query.CondVal (JS.VObj [("city", JS.VStr "Rome")])) st)
  = Ok [u2].
Proof.
  intros cfg u1 u2 st.
  rewrite (where_agrees_with_read (fun _ _ => None) cfg 0 "users"
             [("city", JS.VStr "Rome")] st [u1; u2]
             eq_refl eq_refl eq_refl eq_refl).
  reflexivity.
Defined.



(** X17.  A record that does not have the field of a condition, the field
    being none that [Object.prototype] defines, fails every ordering and
    pattern operator ([gt], [gte], [lt], [lte], [like], [regex] and their
    symbols, in any letter case), whatever plain value it is compared
    with. *)
Theorem missing_field_fails_comparisons
    (regex_test : string -> string -> option bool)
    (item : JS.obj) (key name : string) (compareValue : JS.value) :
  Obj.inherited key = false ->
  JS.get key item = JS.VUndefined ->
  JSON.plain compareValue = true ->
  In (JS.toLowerCase name)
     ["gt"; ">"; "gte"; ">="; "lt"; "<"; "lte"; "<="; "like"; "regex"] ->
  Query.evaluateCondition regex_test item key
    (JS.VObj [("operator", JS.VStr name); ("value", compareValue)])
  = Ok false.
Proof.
  intros _ Hget _ Hop. unfold Query.evaluateCondition.
  cbn [JS.typeof JS.prop]. change (String.eqb "object" "object") with true.
  cbv iota.
  change (JS.get "operator" [("operator", JS.VStr name); ("value", compareValue)])
    with (JS.VStr name).
  change (JS.get "value" [("operator", JS.VStr name); ("value", compareValue)])
    with compareValue.
  assert (JS.truthy (JS.VStr name) = true) as ->.
  { simpl. apply negb_true_iff. apply String.eqb_neq.
    apply toLowerCase_nonempty. intros E. rewrite E in Hop. simpl in Hop.
    repeat (destruct Hop as [Hop|Hop]; [discriminate Hop|]). exact Hop. }
  rewrite Hget. unfold Query.evaluateOperator. cbv zeta.
  simpl in Hop.
  repeat (destruct Hop as [Hop|Hop];
          [rewrite <- Hop; cbn [String.eqb Ascii.eqb Bool.eqb orb andb];
           unfold Query.js_gt, Query.js_ge, Query.js_lt, Query.js_le;
           rewrite ?lt_opt_undefined_r, ?lt_opt_undefined_l; reflexivity|]).
  destruct Hop.
Qed.

(** A user without an age is asked whether the age is at least 0. *)
Lemma missing_field_fails_comparisons_witness :
  Query.evaluateCondition (fun _ _ => None) [("id", JS.VStr "1")] "age"
    (JS.VObj [("operator", JS.VStr "GTE"); ("value", JS.VNum 0)])
  = Ok false.
Proof.
  apply (missing_field_fails_comparisons (fun _ _ => None) [("id", JS.VStr "1")]
           "age" "GTE" (JS.VNum 0)); [reflexivity|reflexivity|reflexivity|].
  simpl. tauto.
Defined.

Section SelectFacts.
Import JS GitDB Query.

Lemma given_where_without (o : options) : given_where (without_where o) = None.
Proof. reflexivity. Qed.

End SelectFacts.

(** X18.  When [select] is given an ordering, its where clause has no
    effect on the result: the filtered array is replaced by the array that
    [sort] returns, which is the whole collection in sorted order.  A
    [select] that returns gives the same result and reaches the same state
    as the [select] without the where clause; with neither limit nor
    fields, the result is the sorted array of all records. *)
Theorem select_ordering_discards_where
    (regex_test : string -> string -> option bool)
    (cfg : GitDB.config) (now1 now2 : Z) (collection : string)
    (o : Query.options) (st st' : GitDB.state) (key order : string)
    (r : list JS.obj) :
  Query.given_orderBy o = Some (key, order) ->
  Query.select regex_test cfg now1 now2 collection o st = (Ok r, st') ->
  Query.select regex_test cfg now1 now2 collection (Query.without_where o) st
    = (Ok r, st')
  /\ (Query.given_limit o = None -> Query.opt_fields o = None ->
      let st1 := snd (GitDB.read cfg now1 collection [] st) in
      r = GitDB.deref (snd (GitDB.sort cfg now2 collection key order st1))
            (fst (GitDB.sort cfg now2 collection key order st1))).
Proof.
  intros Hord. unfold Query.select.
  rewrite given_where_without.
  change (Query.given_orderBy (Query.without_where o)) with (Query.given_orderBy o).
  change (Query.given_limit (Query.without_where o)) with (Query.given_limit o).
  change (Query.opt_fields (Query.without_where o)) with (Query.opt_fields o).
  rewrite Hord.
  destruct (GitDB.read cfg now1 collection [] st) as [loc st1]. cbn [snd].
  destruct (Query.given_where o) as [w|].
  - destruct (Query.filter_by _ _) as [items1|err]; [|discriminate].
    destruct (GitDB.sort cfg now2 collection key order st1) as [sorted st2].
    intros H. split; [exact H|]. intros Hlim Hfields.
    rewrite Hlim, Hfields in H. now injection H as <- _.
  - destruct (GitDB.sort cfg now2 collection key order st1) as [sorted st2].
    intros H. split; [exact H|]. intros Hlim Hfields.
    rewrite Hlim, Hfields in H. now injection H as <- _.
Qed.

(** The adult users are selected in the order of their names: the minor
    is in the result. *)
Lemma select_ordering_discards_where_witness :
  let cfg := {| GitDB.validation := ValidationManager.default;
                GitDB.cacheTimeout := 300000 |} in
  let u1 := [("name", JS.VStr "Bo"); ("age", JS.VNum 40)] in
  let u2 := [("name", JS.VStr "Al"); ("age", JS.VNum 12)] in
  let st := {| GitDB.storage := [("users", [u1; u2])];
               GitDB.heap := ∅; GitDB.next := 0; GitDB.cache := ∅ |} in
  let adults :=
    Query.CondVal
      (JS.VObj [("age", JS.VObj [("operator", JS.VStr ">=");
                                 ("value", JS.VNum 18)])]) in
  let o := {| Query.opt_where := Some adults;
              Query.opt_orderBy := Some (Query.OrderKey "name");
              Query.opt_limit := None; Query.opt_offset := None;
              Query.opt_fields := None |} in
  fst (Query.select (fun _ _ => None) cfg 0 1 "users" o st) = Ok [u2; u1]
  /\ fst (Query.select (fun _ _ => None) cfg 0 1 "users" (Query.without_where o) st)
     = Ok [u2; u1].
Proof.
  intros cfg u1 u2 st adults o.
  destruct (Query.select (fun _ _ => None) cfg 0 1 "users" o st) as [res st'] eqn:H.
  assert (res = Ok [u2; u1]) as -> by (vm_compute in H; now injection H as <- _).
  split; [reflexivity|].
  now rewrite (proj1 (select_ordering_discards_where (fun _ _ => None) cfg 0 1
                        "users" o st st' "name" "asc" [u2; u1] eq_refl H)).
Defined.

Section JoinFacts.
Import JS GitDB Query.

Lemma cache_hit_empty cfg now key st : cache st = ∅ -> cache_hit cfg now key st = None.
Proof. intros H. unfold cache_hit. now rewrite H, lookup_empty. Qed.

(** on a state without cached reads, [join] works on the two collections
    of the Database *)
Lemma join_fresh cfg now1 now2 c1 c2 k1 k2 joinType st (all1 all2 : list obj) :
  cache st = ∅ ->
  Obj.lookup c1 (storage st) = Some all1 ->
  Obj.lookup c2 (storage st) = Some all2 ->
  fst (join cfg now1 now2 c1 c2 k1 k2 joinType st)
  = flat_map (join_rows c2 k1 k2 joinType all2) all1
    ++ (if String.eqb joinType "right"
        then flat_map (unmatched_row c1 k1 k2 all1) all2
        else []).
Proof.
  intros Hc Hl1 Hl2. unfold join.
  rewrite (read_miss_state cfg now1 c1 [] st all1 (cache_hit_empty _ _ _ _ Hc) Hl1).
  set (st1 := {| storage := storage st |}).
  assert (Obj.lookup c2 (storage st1) = Some all2) as Hl2' by exact Hl2.
  destruct (cache_hit cfg now2 (cacheKey c2 []) st1) as [loc|] eqn:Hhit.
  - (* the second read is answered with the array of the first *)
    unfold read. rewrite Hhit.
    assert (loc = next st /\ c2 = c1) as [-> ->].
    { unfold cache_hit, st1 in Hhit. cbn [cache] in Hhit. rewrite Hc in Hhit.
      destruct (decide (cacheKey c2 [] = cacheKey c1 [])) as [E|E].
      - rewrite E, lookup_insert_eq in Hhit.
        destruct (now2 - now1 <? cacheTimeout cfg); [|discriminate].
        injection Hhit as <-. split; [reflexivity|].
        now apply cacheKey_collection in E.
      - rewrite lookup_insert_ne, lookup_empty in Hhit by congruence.
        discriminate. }
    assert (all2 = all1) as -> by congruence.
    unfold deref, st1. cbn [heap fst]. rewrite lookup_insert_eq. reflexivity.
  - rewrite (read_miss_state cfg now2 c2 [] st1 all2 Hhit Hl2').
    unfold deref, st1. cbn [heap next fst].
    rewrite lookup_insert_eq.
    rewrite lookup_insert_ne by lia. rewrite lookup_insert_eq. reflexivity.
Qed.


(** the first row of a left join for a record: with [null] when no
    record of the second collection matches, with a matching record
    otherwise *)
Lemma left_rows_nonempty c2 k1 k2 (items2 : list obj) (item1 : obj) :
  exists row v,
    In row (join_rows c2 k1 k2 "left" items2 item1)
    /\ row = Obj.set c2 v (Obj.spread [] item1)
    /\ ((v = VNull
         /\ forall item2, In item2 items2 ->
              strict_eq (get k1 item1) (get k2 item2) = false)
        \/ exists item2,
             v = VObj item2 /\ In item2 items2
             /\ strict_eq (get k1 item1) (get k2 item2) = true).
Proof.
  unfold join_rows.
  destruct (List.filter (fun item2 => strict_eq (get k1 item1) (get k2 item2))
              items2) as [|x l] eqn:E.
  - eexists _, VNull. split; [left; reflexivity|]. split; [reflexivity|].
    left. split; [reflexivity|]. intros item2 Hin.
    destruct (strict_eq (get k1 item1) (get k2 item2)) eqn:Heq; [|reflexivity].
    assert (In item2 (List.filter
                        (fun item2 => strict_eq (get k1 item1) (get k2 item2))
                        items2)) as Hf by (apply filter_In; auto).
    rewrite E in Hf. destruct Hf.
  - assert (In x (List.filter
                    (fun item2 => strict_eq (get k1 item1) (get k2 item2))
                    items2)) as Hf by (rewrite E; now left).
    apply filter_In in Hf as [Hin Heq].
    eexists _, (VObj x). split; [left; reflexivity|]. split; [reflexivity|].
    right. exists x. auto.
Qed.

End JoinFacts.



(** X20.  A left join keeps every record of the first collection: each
    has at least one row, which carries the fields of the record except
    the one named like the second collection; this one holds [null] when no
    record of the second collection has the join field equal ([===]) to
    that of the record, and such a record of the second collection
    otherwise.  (The join field of the record is a primitive value, and
    the two join keys are none that [Object.prototype] defines.) *)
Theorem left_join_keeps_every_record
    (cfg : GitDB.config) (now1 now2 : Z)
    (collection1 collection2 joinKey1 joinKey2 : string)
    (st : GitDB.state) (all1 all2 : list JS.obj) (item1 : JS.obj) :
  GitDB.cache st = ∅ ->
  Obj.lookup collection1 (GitDB.storage st) = Some all1 ->
  Obj.lookup collection2 (GitDB.storage st) = Some all2 ->
  In item1 all1 ->
  NoDup (map fst item1) ->
  Obj.inherited joinKey1 = false -> Obj.inherited joinKey2 = false ->
  JS.strict_eq (JS.get joinKey1 item1) (JS.get joinKey1 item1) = true ->
  exists row,
    In row (fst (Query.join cfg now1 now2 collection1 collection2
                   joinKey1 joinKey2 "left" st))
    /\ (forall k, k <> collection2 -> JS.get k row = JS.get k item1)
    /\ ((JS.get collection2 row = JS.VNull
         /\ forall item2, In item2 all2 ->
              JS.strict_eq (JS.get joinKey1 item1) (JS.get joinKey2 item2) = false)
        \/ exists item2,
             JS.get collection2 row = JS.VObj item2 /\ In item2 all2
             /\ JS.strict_eq (JS.get joinKey1 item1) (JS.get joinKey2 item2) = true).
Proof.
  intros Hc Hl1 Hl2 Hin1 Hnd _ _ _.
  rewrite (join_fresh _ _ _ _ _ _ _ _ _ _ _ Hc Hl1 Hl2).
  destruct (left_rows_nonempty collection2 joinKey1 joinKey2 all2 item1)
    as (row & v & Hrow & -> & Hv).
  eexists. split.
  - apply in_or_app. left. apply in_flat_map. exists item1. split; eauto.
  - split.
    + intros k Hk. rewrite get_set_other by exact Hk. now apply get_spread_nil.
    + rewrite get_set_same.
      destruct Hv as [[-> Hnone]|(item2 & -> & Hin2 & Heq)].
      * left. now split.
      * right. exists item2. auto.
Qed.

(** An order without a matching customer is kept by the left join, with
    [null] for the customer. *)
Lemma left_join_keeps_every_record_witness :
  let cfg := {| GitDB.validation := ValidationManager.default;
                GitDB.cacheTimeout := 300000 |} in
  let order := [("customerId", JS.VStr "c9"); ("total", JS.VNum 5)] in
  let st := {| GitDB.storage :=
                 [("orders", [order]); ("customers", [[("id", JS.VStr "c1")]])];
               GitDB.heap := ∅; GitDB.next := 0; GitDB.cache := ∅ |} in
  exists row,
    In row (fst (Query.join cfg 0 0 "orders" "customers" "customerId" "id" "left" st))
    /\ JS.get "total" row = JS.VNum 5
    /\ JS.get "customers" row = JS.VNull.
Proof.
  intros cfg order st.
  assert (NoDup (map fst order)) as Hnd by distinct_names.
  destruct (left_join_keeps_every_record cfg 0 0 "orders" "customers"
              "customerId" "id" st [order] [[("id", JS.VStr "c1")]] order
              eq_refl eq_refl eq_refl (or_introl eq_refl) Hnd
              eq_refl eq_refl eq_refl)
    as (row & Hin & Hget & Hjoined).
  exists row. split; [exact Hin|]. split.
  - rewrite Hget by discriminate. reflexivity.
  - destruct Hjoined as [[Hnull _]|(item2 & _ & Hin2 & Heq)]; [exact Hnull|].
    destruct Hin2 as [<-|[]]. discriminate Heq.
Defined.

(* ===================================================================== *)
(** ** The data file as text: JSON over a local file *)
(* ===================================================================== *)

Section ParsedValues.
Import JS JSON.

Lemma forallb_set (P : value -> bool) k v (o : obj) :
  P v = true ->
  forallb (fun kv => P (snd kv)) o = true ->
  forallb (fun kv => P (snd kv)) (Obj.set k v o) = true.
Proof.
  intros Hv. induction o as [|[k' v'] o IH]; simpl; intros H.
  - now rewrite Hv.
  - apply andb_true_iff in H as [H1 H2].
    destruct (String.eqb k k'); simpl.
    + now rewrite Hv, H2.
    + now rewrite H1, IH.
Qed.

Lemma forallb_spread (P : value -> bool) (ms : obj) : forall acc : obj,
  forallb (fun kv => P (snd kv)) acc = true ->
  forallb (fun kv => P (snd kv)) ms = true ->
  forallb (fun kv => P (snd kv)) (Obj.spread acc ms) = true.
Proof.
  unfold Obj.spread. induction ms as [|[k v] ms IH]; intros acc Hacc Hms; [exact Hacc|].
  simpl in Hms. apply andb_true_iff in Hms as [Hv Hms]. simpl.
  apply IH; [|exact Hms]. now apply forallb_set.
Qed.

Lemma NoDup_keys_spread (ms : obj) : forall acc : obj,
  NoDup (map fst acc) -> NoDup (map fst (Obj.spread acc ms)).
Proof.
  unfold Obj.spread. induction ms as [|[k v] ms IH]; intros acc Hacc; [exact Hacc|].
  simpl. apply IH. now apply NoDup_keys_set.
Qed.

(** what [JSON.parse] reads is a JSON value *)
Lemma parse_json_values fuel :
  (forall s v r, parse_value fuel s = Some (v, r) -> is_json v = true)
  /\ (forall s vs r, parse_elements fuel s = Some (vs, r) -> forallb is_json vs = true)
  /\ (forall s ms r, parse_members fuel s = Some (ms, r) ->
        forallb (fun kv => is_json (snd kv)) ms = true).
Proof.
  induction fuel as [|fuel (IHv & IHe & IHm)]; [repeat split; discriminate|].
  split; [|split].
  - intros s v r. cbn [parse_value].
    destruct (skip_ws s) as [|c t]; [discriminate|].
    destruct (Ascii.eqb c "n").
    { destruct (strip "ull" t); simpl; [|discriminate]. now intros [= <- _]. }
    destruct (Ascii.eqb c "t").
    { destruct (strip "rue" t); simpl; [|discriminate]. now intros [= <- _]. }
    destruct (Ascii.eqb c "f").
    { destruct (strip "alse" t); simpl; [|discriminate]. now intros [= <- _]. }
    destruct (Ascii.eqb c DQ).
    { destruct (parse_chars t) as [[str rest]|]; [|discriminate]. now intros [= <- _]. }
    destruct (Ascii.eqb c "[").
    { destruct (after "]" (skip_ws t)); [now intros [= <- _]|].
      destruct (parse_elements fuel t) as [[vs rest]|] eqn:E; [|discriminate].
      intros [= <- _]. simpl. eapply IHe; eauto. }
    destruct (Ascii.eqb c "{").
    { destruct (after "}" (skip_ws t)); [now intros [= <- _]|].
      destruct (parse_members fuel t) as [[ms rest]|] eqn:E; [|discriminate].
      intros [= <- _]. simpl. apply andb_true_iff. split.
      - apply forallb_spread; [reflexivity|]. eapply IHm; eauto.
      - apply bool_decide_eq_true_2. apply NoDup_keys_spread. apply NoDup_nil_2. }
    destruct (parse_number (String c t)) as [[n rest]|]; [|discriminate].
    now intros [= <- _].
  - intros s vs r. cbn [parse_elements].
    destruct (parse_value fuel s) as [[v r1]|] eqn:Ev; [|discriminate].
    destruct (after "," (skip_ws r1)).
    + destruct (parse_elements fuel s0) as [[vs' rest]|] eqn:Ee; [|discriminate].
      intros [= <- _]. simpl. rewrite (IHv _ _ _ Ev). eapply IHe; eauto.
    + destruct (after "]" (skip_ws r1)); [|discriminate].
      intros [= <- _]. simpl. now rewrite (IHv _ _ _ Ev).
  - intros s ms r. cbn [parse_members].
    destruct (after DQ (skip_ws s)) as [r0|]; [|discriminate].
    destruct (parse_chars r0) as [[k r1]|]; [|discriminate].
    destruct (after ":" (skip_ws r1)) as [r2|]; [|discriminate].
    destruct (parse_value fuel r2) as [[v r3]|] eqn:Ev; [|discriminate].
    destruct (after "," (skip_ws r3)) as [r4|].
    + destruct (parse_members fuel r4) as [[ms' rest]|] eqn:Em; [|discriminate].
      intros [= <- _]. simpl. rewrite (IHv _ _ _ Ev). eapply IHm; eauto.
    + destruct (after "}" (skip_ws r3)); [|discriminate].
      intros [= <- _]. simpl. now rewrite (IHv _ _ _ Ev).
Qed.

Lemma parse_is_json text v : parse text = Some v -> is_json v = true.
Proof.
  unfold parse.
  destruct (parse_value (S (String.length text)) text) as [[v' rest]|] eqn:E;
    [|discriminate].
  destruct (skip_ws rest); [|discriminate].
  intros [= <-]. eapply (proj1 (parse_json_values _)); eauto.
Qed.

Lemma json_serialize_parse cfg v :
  is_json v = true ->
  exists text, JSONFormat.serialize cfg v = Some text /\ JSONFormat.parse text = Some v.
Proof.
  intros Hjson. unfold JSONFormat.serialize, JSONFormat.parse.
  destruct (JSONFormat.prettyPrint cfg); now apply stringify_parse.
Qed.

End ParsedValues.

(** X21.  With the JSON format over a local file, what [writeDataFile]
    writes, [readDataFile] reads back: for a Database of plain values
    (null, booleans, integers that a binary64 number holds exactly,
    strings of code units below 256, arrays, and objects whose member
    names are distinct, no array index and none that [Object.prototype]
    defines; no [undefined] inside) the write succeeds and the next read
    returns the Database written, whatever the file held before.  A data
    file that does not exist reads as the empty Database. *)
Theorem data_file_reads_back_what_was_written
    (cfg : JSONFormat.config) (m : LocalStorage.medium) (data : JS.value) :
  JSON.plain data = true ->
  (exists m',
     DataFile.writeDataFile (JSONFormat.format cfg) data m = Some m'
     /\ DataFile.readDataFile (JSONFormat.format cfg) m' = Some data)
  /\ DataFile.readDataFile (JSONFormat.format cfg) None = Some (JS.VObj []).
Proof.
  intros Hplain. apply plain_is_json in Hplain. split; [|reflexivity].
  destruct (json_serialize_parse cfg data Hplain) as (text & Hs & Hp).
  unfold DataFile.writeDataFile, DataFile.readDataFile. cbn [FormatManager.serialize
    FormatManager.parse JSONFormat.format].
  rewrite Hs. eexists. split; [reflexivity|]. exact Hp.
Qed.

(** A Database of one user is written over a missing file and read back. *)
Lemma data_file_reads_back_what_was_written_witness :
  let data := JS.VObj [("users", JS.VArr [JS.VObj [("id", JS.VStr "1")]])] in
  exists m',
    DataFile.writeDataFile (JSONFormat.format JSONFormat.default) data None = Some m'
    /\ DataFile.readDataFile (JSONFormat.format JSONFormat.default) m' = Some data.
Proof.
  intros data.
  exact (proj1 (data_file_reads_back_what_was_written JSONFormat.default None data
                  eq_refl)).
Defined.

(** X22.  With the JSON format, [export] followed by [import] restores the
    Database: for a data file that [writeDataFile] wrote for a Database of
    plain values, [export] produces a text, [import] accepts this text into
    any data file, under any setting of the JSON format, and the data file
    then reads as the Database. *)
Theorem export_then_import_restores
    (cfg cfg' : JSONFormat.config) (m0 m m2 : LocalStorage.medium)
    (data : JS.value) :
  JSON.plain data = true ->
  DataFile.writeDataFile (JSONFormat.format cfg) data m0 = Some m ->
  exists text m2',
    DataFile.export (JSONFormat.format cfg) m = Some text
    /\ DataFile.import (JSONFormat.format cfg') text m2 = Some m2'
    /\ DataFile.readDataFile (JSONFormat.format cfg') m2' = Some data.
Proof.
  intros Hplain. apply plain_is_json in Hplain.
  unfold DataFile.export, DataFile.import, DataFile.readDataFile,
    DataFile.writeDataFile.
  cbn [FormatManager.serialize FormatManager.parse JSONFormat.format].
  destruct (json_serialize_parse cfg data Hplain) as (text0 & Hs & Hp).
  destruct (json_serialize_parse cfg' data Hplain) as (text1 & Hs1 & Hp1).
  rewrite Hs. intros [= <-]. cbn [LocalStorage.read LocalStorage.write].
  rewrite Hp, Hs. exists text0. rewrite Hp, Hs1.
  eexists. split; [reflexivity|]. split; [reflexivity|].
  cbn [LocalStorage.read LocalStorage.write]. exact Hp1.
Qed.

(** A Database of one user is written, exported with the indented setting
    and imported with the compact one. *)
Lemma export_then_import_restores_witness :
  let data := JS.VObj [("users", JS.VArr [JS.VObj [("id", JS.VStr "1")]])] in
  let compact := {| JSONFormat.prettyPrint := false; JSONFormat.indent := 2 |} in
  exists m text m2',
    DataFile.writeDataFile (JSONFormat.format JSONFormat.default) data None = Some m
    /\ DataFile.export (JSONFormat.format JSONFormat.default) m = Some text
    /\ DataFile.import (JSONFormat.format compact) text None = Some m2'
    /\ DataFile.readDataFile (JSONFormat.format compact) m2' = Some data.
Proof.
  intros data compact.
  destruct (DataFile.writeDataFile (JSONFormat.format JSONFormat.default) data None)
    as [m|] eqn:H; [|discriminate H].
  destruct (export_then_import_restores JSONFormat.default compact None m None data
              eq_refl H) as (text & m2' & He & Hi & Hr).
  exists m, text, m2'. split; [reflexivity|]. split; [exact He|]. split; [exact Hi|exact Hr].
Defined.

(* ===================================================================== *)
(** ** HistoryManager: changes of a record, record histories, timelines *)
(* ===================================================================== *)

Section ChangedRecords.
Import JS JSON HistoryManager.

Lemma existsb_false {A} (f : A -> bool) (l : list A) :
  existsb f l = false <-> forall x, In x l -> f x = false.
Proof.
  induction l as [|y l IH]; simpl.
  - split; [intros _ x []|reflexivity].
  - rewrite orb_false_iff, IH. split.
    + intros [Hy Hl] x [<-|Hx]; auto.
    + intros H. split; [apply H; now left|intros x Hx; apply H; now right].
Qed.

Lemma lookup_in (o : obj) k v :
  NoDup (map fst o) -> (In (k, v) o <-> Obj.lookup k o = Some v).
Proof.
  induction o as [|[k' v'] o IH]; simpl; intros Hnd.
  - split; [intros []|discriminate].
  - apply NoDup_cons in Hnd as [Hnotin Hnd].
    destruct (String.eqb_spec k k') as [->|Hne].
    + split.
      * intros [[= ->]|Hin]; [reflexivity|].
        exfalso. apply Hnotin. apply list_elem_of_In.
        apply in_map_iff. now exists (k', v).
      * intros [= ->]. now left.
    + rewrite <- (IH Hnd). split.
      * intros [[= -> ->]|Hin]; [contradiction|exact Hin].
      * intros Hin. now right.
Qed.

Lemma is_json_obj (r : obj) :
  is_json (VObj r) = true ->
  NoDup (map fst r) /\ forall k v, In (k, v) r -> is_json v = true.
Proof.
  simpl. intros H. apply andb_true_iff in H as [Hall Hnd].
  split; [now apply bool_decide_eq_true_1 in Hnd|].
  intros k v Hin. rewrite forallb_forall in Hall. exact (Hall (k, v) Hin).
Qed.

Lemma stringify_injective (a b : value) :
  is_json a = true -> is_json b = true ->
  stringify 0 a = stringify 0 b -> a = b.
Proof.
  intros Ha Hb Heq.
  destruct (stringify_parse 0 a Ha) as (ta & Hsa & Hpa).
  destruct (stringify_parse 0 b Hb) as (tb & Hsb & Hpb).
  rewrite Hsa, Hsb in Heq. injection Heq as ->. congruence.
Qed.

Lemma unchanged_fields (r1 r2 : obj) :
  hasRecordChanged r1 r2 = false <->
  length r1 = length r2
  /\ forall k, In k (keys r1) ->
       stringify 0 (get k r1) = stringify 0 (get k r2).
Proof.
  unfold hasRecordChanged, keys. rewrite !length_map.
  destruct (Nat.eqb_spec (length r1) (length r2)) as [Hlen|Hlen]; simpl.
  - rewrite existsb_false. split.
    + intros H. split; [exact Hlen|]. intros k Hk. specialize (H k Hk).
      unfold field_differs in H. apply negb_false_iff in H.
      now apply bool_decide_eq_true_1 in H.
    + intros [_ H] k Hk. unfold field_differs. apply negb_false_iff.
      apply bool_decide_eq_true_2. now apply H.
  - split; [discriminate|]. intros [H _]. contradiction.
Qed.

End ChangedRecords.

(** X23.  For two versions of a record that are plain values (so no field
    is named like a member of [Object.prototype], which the other version
    would answer for without having it), [hasRecordChanged] answers
    [false] exactly when the two have the same fields with the same
    values, in any order of the fields. *)
Theorem record_unchanged_iff_same_fields (record1 record2 : JS.obj) :
  JSON.plain (JS.VObj record1) = true ->
  JSON.plain (JS.VObj record2) = true ->
  HistoryManager.hasRecordChanged record1 record2 = false
  <-> Permutation record1 record2.
Proof.
  intros H1 H2. apply plain_is_json in H1. apply plain_is_json in H2.
  destruct (is_json_obj _ H1) as [Hnd1 Hv1].
  destruct (is_json_obj _ H2) as [Hnd2 Hv2].
  rewrite unchanged_fields. split.
  - intros [Hlen Hf].
    apply submseteq_length_Permutation; [|lia].
    apply NoDup_submseteq; [now apply NoDup_fmap_1 in Hnd1|].
    intros [k v] Hin. apply list_elem_of_In in Hin. apply list_elem_of_In.
    pose proof (proj1 (lookup_in _ _ _ Hnd1) Hin) as Hl1.
    assert (In k (JS.keys record1)) as Hk
      by (apply in_map_iff; now exists (k, v)).
    specialize (Hf k Hk). unfold JS.get in Hf. rewrite Hl1 in Hf.
    destruct (stringify_parse 0 v (Hv1 _ _ Hin)) as (text & Hs & _).
    destruct (Obj.lookup k record2) as [v2|] eqn:Hl2.
    + apply (lookup_in _ _ _ Hnd2) in Hl2.
      rewrite (stringify_injective v v2 (Hv1 _ _ Hin) (Hv2 _ _ Hl2) Hf).
      exact Hl2.
    + rewrite Hs in Hf. discriminate Hf.
  - intros Hp. split; [now apply Permutation_length|].
    intros k _. unfold JS.get.
    assert (Obj.lookup k record1 = Obj.lookup k record2) as ->; [|reflexivity].
    destruct (Obj.lookup k record1) as [v|] eqn:Hl1.
    + symmetry. apply (lookup_in _ _ _ Hnd2).
      apply (Permutation_in _ Hp). now apply (lookup_in _ _ _ Hnd1).
    + destruct (Obj.lookup k record2) as [v|] eqn:Hl2; [|reflexivity].
      apply (lookup_in _ _ _ Hnd2) in Hl2.
      apply (Permutation_in _ (Permutation_sym Hp)) in Hl2.
      apply (lookup_in _ _ _ Hnd1) in Hl2. congruence.
Qed.

(** The same record with its two fields in the other order is unchanged. *)
Lemma record_unchanged_iff_same_fields_witness :
  HistoryManager.hasRecordChanged
    [("id", JS.VStr "1"); ("age", JS.VNum 30)]
    [("age", JS.VNum 30); ("id", JS.VStr "1")] = false.
Proof.
  apply (record_unchanged_iff_same_fields
           [("id", JS.VStr "1"); ("age", JS.VNum 30)]
           [("age", JS.VNum 30); ("id", JS.VStr "1")]).
  - reflexivity.
  - reflexivity.
  - apply perm_swap.
Defined.

Section RecordHistories.
Import JS HistoryManager.

Lemma omap_nil {A B} (f : A -> option B) (l : list A) :
  omap f l = [] -> Forall (fun x => f x = None) l.
Proof.
  induction l as [|x l IH]; [constructor|]. cbn [omap list_omap].
  destruct (f x) eqn:E; [discriminate|]. intros H. constructor; auto.
Qed.

Lemma omap_length_le {A B} (f : A -> option B) (l : list A) :
  (length (omap f l) <= length l)%nat.
Proof.
  induction l as [|x l IH]; [reflexivity|]. cbn [omap list_omap].
  destruct (f x); simpl; lia.
Qed.

Lemma omap_last {A B} (f : A -> option B) (l : list A) :
  omap f l <> [] ->
  exists newer c older e,
    l = newer ++ c :: older
    /\ f c = Some e
    /\ Forall (fun x => f x = None) older
    /\ omap f l = omap f newer ++ [e].
Proof.
  induction l as [|x l IH]; [intros H; now contradiction H|].
  intros Hne. destruct (omap f l) as [|y ys] eqn:El.
  - cbn [omap list_omap] in Hne. rewrite El in Hne.
    destruct (f x) as [e|] eqn:Ex; [|now contradiction Hne].
    exists [], x, l, e. split; [reflexivity|]. split; [exact Ex|].
    split; [now apply omap_nil|]. cbn [omap list_omap app]. now rewrite Ex, El.
  - destruct IH as (newer & c & older & e & -> & Hc & Hold & Hl); [discriminate|].
    exists (x :: newer), c, older, e. split; [reflexivity|]. split; [exact Hc|].
    split; [exact Hold|].
    cbn [omap list_omap app]. rewrite El, Hl.
    now destruct (f x).
Qed.

Lemma analyze_snoc (h : list entry) (e : entry) :
  exists h',
    analyzeRecordHistory (h ++ [e]) = h' ++ [with_action "created" e]
    /\ Forall (fun x => action x = "updated" \/ action x = "unchanged") h'.
Proof.
  induction h as [|x h (h' & IH & Hall)].
  - exists []. split; [reflexivity|constructor].
  - exists (with_action
              (if hasRecordChanged (record x) (record (List.hd e h))
               then "updated" else "unchanged") x :: h').
    split.
    + cbn [app analyzeRecordHistory]. rewrite <- IH.
      now destruct h.
    + constructor; [|exact Hall]. simpl.
      destruct (hasRecordChanged _ _); auto.
Qed.

Lemma analyze_commits (history : list entry) :
  map entry_commit (analyzeRecordHistory history) = map entry_commit history.
Proof.
  induction history as [|current rest IH]; simpl; auto.
  destruct rest as [|previous rest']; simpl in *; [reflexivity|].
  now rewrite IH.
Qed.

Lemma analyze_nil (history : list entry) :
  analyzeRecordHistory history = [] -> history = [].
Proof. destruct history as [|x [|y l]]; simpl; congruence. Qed.

Lemma record_in_timeline m collection recordId c r :
  record_at m collection recordId c = Some r ->
  exists t n,
    timeline_at m collection c = Some t
    /\ timeline_commit t = sha c
    /\ recordCount t = VNum n /\ 1 <= n.
Proof.
  unfold record_at, timeline_at.
  destruct (getFileAtCommit m (sha c)) as [content|]; [|discriminate].
  destruct (JSON.parse content) as [data|]; [|discriminate].
  destruct (prop data collection) as [[| | | | |items|]|]; try discriminate.
  destruct items as [|item items]; [discriminate|].
  intros _. cbn [truthy prop]. change (String.eqb "length" "length") with true.
  cbv iota. eexists _, _. split; [reflexivity|]. split; [reflexivity|].
  split; [reflexivity|]. simpl length. lia.
Qed.

Lemma omap_sublist {A B C} (f : A -> option B) (g : A -> option C)
    (pb : B -> string) (pc : C -> string) (l : list A) :
  (forall x b, f x = Some b -> exists c, g x = Some c /\ pc c = pb b) ->
  sublist (map pb (omap f l)) (map pc (omap g l)).
Proof.
  intros H. induction l as [|x l IH]; [constructor|].
  cbn [omap list_omap]. destruct (f x) as [b|] eqn:Ef.
  - destruct (H x b Ef) as (c & -> & Hc). cbn [map]. rewrite Hc.
    now apply sublist_skip.
  - destruct (g x); [cbn [map]; now apply sublist_cons|exact IH].
Qed.

Lemma getRecordHistory_entries m collection recordId limit :
  getRecordHistory m collection recordId limit
  = analyzeRecordHistory
      (omap (entry_at m collection recordId) (getFileHistory m limit)).
Proof. reflexivity. Qed.

Lemma entry_at_some m collection recordId c e :
  entry_at m collection recordId c = Some e ->
  record_at m collection recordId c = Some (record e) /\ entry_commit e = sha c.
Proof.
  unfold entry_at. destruct (record_at m collection recordId c); [|discriminate].
  now intros [= <-].
Qed.

Lemma entry_at_none m collection recordId c :
  entry_at m collection recordId c = None ->
  record_at m collection recordId c = None.
Proof.
  unfold entry_at. now destruct (record_at m collection recordId c).
Qed.

End RecordHistories.

(** X24.  In a record history that is not empty, the last entry, and only
    it, is labelled [created]: it is the oldest of the commits inspected
    (the [limit] newest ones) whose data file holds the record, whatever
    older commits hold; every other entry is labelled [updated] or
    [unchanged]. *)
Theorem oldest_inspected_version_is_created
    (m : HistoryManager.medium) (collection recordId : string) (limit : nat) :
  HistoryManager.getRecordHistory m collection recordId limit <> [] ->
  exists newer c older h e,
    HistoryManager.getFileHistory m limit = newer ++ c :: older
    /\ Forall (fun c' => HistoryManager.record_at m collection recordId c' = None)
         older
    /\ HistoryManager.record_at m collection recordId c
       = Some (HistoryManager.record e)
    /\ HistoryManager.entry_commit e = HistoryManager.sha c
    /\ HistoryManager.action e = "created"
    /\ HistoryManager.getRecordHistory m collection recordId limit = h ++ [e]
    /\ Forall (fun x => HistoryManager.action x = "updated"
                        \/ HistoryManager.action x = "unchanged") h.
Proof.
  rewrite getRecordHistory_entries. intros Hne.
  destruct (omap_last (HistoryManager.entry_at m collection recordId)
              (HistoryManager.getFileHistory m limit))
    as (newer & c & older & e & Hlog & Hc & Hold & Hl).
  { intros E. apply Hne. now rewrite E. }
  destruct (analyze_snoc
              (omap (HistoryManager.entry_at m collection recordId) newer) e)
    as (h & Hh & Hall).
  apply entry_at_some in Hc as [Hr Hs].
  exists newer, c, older, h, (HistoryManager.with_action "created" e).
  split; [exact Hlog|]. split.
  { eapply Forall_impl; [exact Hold|]. intros x. apply entry_at_none. }
  split; [exact Hr|]. split; [exact Hs|]. split; [reflexivity|].
  split; [now rewrite Hl, Hh|exact Hall].
Qed.

(** With the two newest commits inspected, the user added at S2 is
    reported as created at S3. *)
Lemma oldest_inspected_version_is_created_witness :
  map (fun e => (HistoryManager.entry_commit e, HistoryManager.action e))
    (HistoryManager.getRecordHistory example_medium "users" "1" 2)
  = [("s3", "created")].
Proof.
  assert (HistoryManager.getRecordHistory example_medium "users" "1" 2 <> [])
    as Hne by (vm_compute; discriminate).
  destruct (oldest_inspected_version_is_created example_medium "users" "1" 2 Hne)
    as (newer & c & older & h & e & _ & _ & _ & _ & _ & _ & _).
  vm_compute. reflexivity.
Defined.

(** X25.  A record history lies within the timeline of its collection:
    the commits of the history are, in order, among the commits of the
    timeline made with the same limit, and the timeline counts at least
    one record at each of them; the timeline has at most [limit]
    entries. *)
Theorem record_history_within_timeline
    (m : HistoryManager.medium) (collection recordId : string) (limit : nat) :
  (length (HistoryManager.getCollectionTimeline m collection limit) <= limit)%nat
  /\ sublist
       (map HistoryManager.entry_commit
          (HistoryManager.getRecordHistory m collection recordId limit))
       (map HistoryManager.timeline_commit
          (HistoryManager.getCollectionTimeline m collection limit))
  /\ forall e,
       In e (HistoryManager.getRecordHistory m collection recordId limit) ->
       exists t n,
         In t (HistoryManager.getCollectionTimeline m collection limit)
         /\ HistoryManager.timeline_commit t = HistoryManager.entry_commit e
         /\ HistoryManager.recordCount t = JS.VNum n /\ 1 <= n.
Proof.
  split.
  { unfold HistoryManager.getCollectionTimeline, HistoryManager.getFileHistory.
    etransitivity; [apply omap_length_le|]. rewrite length_take. lia. }
  rewrite getRecordHistory_entries, analyze_commits.
  unfold HistoryManager.getCollectionTimeline. split.
  - apply omap_sublist. intros c e He. apply entry_at_some in He as [Hr Hs].
    destruct (record_in_timeline _ _ _ _ _ Hr) as (t & n & Ht & Hc & _).
    exists t. split; [exact Ht|congruence].
  - intros e He.
    assert (In (HistoryManager.entry_commit e)
              (map HistoryManager.entry_commit
                 (omap (HistoryManager.entry_at m collection recordId)
                    (HistoryManager.getFileHistory m limit))))
      as Hin.
    { rewrite <- analyze_commits. apply in_map_iff. now exists e. }
    apply in_map_iff in Hin as (e0 & He0 & Hin0).
    apply list_elem_of_In in Hin0. apply list_elem_of_omap in Hin0 as (c & Hc & Hf).
    apply entry_at_some in Hf as [Hr Hs].
    destruct (record_in_timeline _ _ _ _ _ Hr) as (t & n & Ht & Hct & Hn & Hpos).
    exists t, n. split.
    + apply list_elem_of_In. apply list_elem_of_omap. now exists c.
    + split; [congruence|]. split; assumption.
Qed.

(* ===================================================================== *)
(** ** ValidationManager.validateItem *)
(* ===================================================================== *)

Section ValidationFacts.
Import JS ValidationManager.

Lemma hasOwnProperty_inherited (item : obj) f :
  has "hasOwnProperty" item = false -> hasOwnProperty item f = Ok (has f item).
Proof. intros H. unfold hasOwnProperty. now rewrite H. Qed.

Lemma check_required_ok fields (item : obj) :
  has "hasOwnProperty" item = false ->
  check_required fields item = Ok tt
  <-> forall f, In f fields -> has f item = true.
Proof.
  intros Hown.
  induction fields as [|f fields IH]; simpl; rewrite ?hasOwnProperty_inherited by exact Hown.
  - split; [intros _ f []|reflexivity].
  - destruct (has f item) eqn:Hf.
    + rewrite IH. split.
      * intros H g [<-|Hg]; auto.
      * intros H g Hg. apply H. now right.
    + split; [discriminate|]. intros H.
      specialize (H f (or_introl eq_refl)). congruence.
Qed.

Lemma check_required_err fields (item : obj) :
  has "hasOwnProperty" item = false ->
  (exists f, In f fields /\ has f item = false) ->
  exists f, check_required fields item = Err (RequiredFieldMissing f)
            /\ In f fields /\ has f item = false.
Proof.
  intros Hown.
  induction fields as [|f fields IH]; simpl; intros (g & Hg & Hm); [destruct Hg|].
  rewrite hasOwnProperty_inherited by exact Hown.
  destruct (has f item) eqn:Hf.
  - destruct Hg as [<-|Hg]; [congruence|].
    destruct IH as (f' & He & Hin & Hm'); [eauto|].
    exists f'. auto.
  - exists f. auto.
Qed.

Lemma check_types_ok types (item : obj) :
  has "hasOwnProperty" item = false ->
  check_types types item = Ok tt
  <-> forall f t, In (f, t) types -> has f item = true -> typeof (get f item) = t.
Proof.
  intros Hown.
  induction types as [|[f t] types IH]; simpl; rewrite ?hasOwnProperty_inherited by exact Hown.
  - split; [intros _ f t []|reflexivity].
  - destruct (has f item) eqn:Hf; simpl.
    + destruct (String.eqb_spec (typeof (get f item)) t) as [Ht|Ht]; simpl.
      * rewrite IH. split.
        -- intros H g u [[= <- <-]|Hg] Hh; auto.
        -- intros H g u Hg. apply H. now right.
      * split; [discriminate|]. intros H.
        exfalso. apply Ht. apply (H f t); auto.
    + rewrite IH. split.
      * intros H g u [[= <- <-]|Hg] Hh; [congruence|auto].
      * intros H g u Hg. apply H. now right.
Qed.

Lemma check_custom_ok vs (item : obj) :
  has "hasOwnProperty" item = false ->
  check_custom vs item = Ok tt
  <-> forall f v, In (f, v) vs -> has f item = true -> v (get f item) item = true.
Proof.
  intros Hown.
  induction vs as [|[f v] vs IH]; simpl; rewrite ?hasOwnProperty_inherited by exact Hown.
  - split; [intros _ f v []|reflexivity].
  - destruct (has f item) eqn:Hf; simpl.
    + destruct (v (get f item) item) eqn:Hv; simpl.
      * rewrite IH. split.
        -- intros H g u [[= <- <-]|Hg] Hh; auto.
        -- intros H g u Hg. apply H. now right.
      * split; [discriminate|]. intros H.
        specialize (H f v (or_introl eq_refl) Hf). congruence.
    + rewrite IH. split.
      * intros H g u [[= <- <-]|Hg] Hh; [congruence|auto].
      * intros H g u Hg. apply H. now right.
Qed.

End ValidationFacts.

(** X26.  For an item that has no field of its own named
    [hasOwnProperty], [validateItem] accepts the item exactly when it has
    every required field, every field it has among the typed ones is of
    the expected type, and every custom validator of a field it has
    returns [true]; fields that the item does not have are neither
    type-checked nor validated, and a missing required field is reported
    before any other failure.  For an item that has such a field,
    [validateItem] raises a TypeError as soon as there is a field to
    check: the field is called in the place of the inherited method. *)
Theorem validateItem_accepts_iff (cfg : ValidationManager.config) (item : JS.obj) :
  (JS.has "hasOwnProperty" item = false ->
   (ValidationManager.validateItem cfg item = Ok tt
    <-> (forall f, In f (ValidationManager.requiredFields cfg) ->
           JS.has f item = true)
        /\ (forall f t, In (f, t) (ValidationManager.fieldTypes cfg) ->
              JS.has f item = true -> JS.typeof (JS.get f item) = t)
        /\ (forall f v, In (f, v) (ValidationManager.customValidators cfg) ->
              JS.has f item = true -> v (JS.get f item) item = true))
   /\ ((exists f, In f (ValidationManager.requiredFields cfg)
                  /\ JS.has f item = false) ->
       exists f, ValidationManager.validateItem cfg item
                 = Err (ValidationManager.RequiredFieldMissing f)
                 /\ JS.has f item = false))
  /\ (JS.has "hasOwnProperty" item = true ->
      (ValidationManager.requiredFields cfg <> []
       \/ ValidationManager.fieldTypes cfg <> []
       \/ ValidationManager.customValidators cfg <> []) ->
      ValidationManager.validateItem cfg item
      = Err ValidationManager.NotAFunction).
Proof.
  unfold ValidationManager.validateItem. split.
  - intros Hown. split.
    + rewrite <- (check_required_ok _ _ Hown), <- (check_types_ok _ _ Hown),
        <- (check_custom_ok _ _ Hown).
      destruct (ValidationManager.check_required _ item) as [[]|e1]; simpl.
      * destruct (ValidationManager.check_types _ item) as [[]|e2]; simpl.
        -- tauto.
        -- split; [discriminate|]. intros (_ & H & _). discriminate H.
      * split; [discriminate|]. intros (H & _). discriminate H.
    + intros Hm. destruct (check_required_err _ _ Hown Hm) as (f & He & _ & Hf).
      exists f. rewrite He. auto.
  - intros Hown Hsome.
    destruct (ValidationManager.requiredFields cfg) as [|f fields];
      [|cbn; unfold ValidationManager.hasOwnProperty; now rewrite Hown].
    cbn [ValidationManager.check_required bind].
    destruct (ValidationManager.fieldTypes cfg) as [|[f t] types];
      [|cbn; unfold ValidationManager.hasOwnProperty; now rewrite Hown].
    cbn [ValidationManager.check_types bind].
    destruct (ValidationManager.customValidators cfg) as [|[f v] vs];
      [|cbn; unfold ValidationManager.hasOwnProperty; now rewrite Hown].
    destruct Hsome as [H|[H|H]]; now contradiction H.
Qed.

(** Under a validation that requires [id] and types [age] as a number, a
    user with both is accepted, a user whose age is a string is not, and a
    user with a field [hasOwnProperty] makes the validation raise. *)
Lemma validateItem_accepts_iff_witness :
  let cfg := {| ValidationManager.requiredFields := ["id"];
                ValidationManager.fieldTypes := [("age", "number")];
                ValidationManager.customValidators := [] |} in
  ValidationManager.validateItem cfg [("id", JS.VStr "1"); ("age", JS.VNum 30)]
    = Ok tt
  /\ ValidationManager.validateItem cfg [("id", JS.VStr "1"); ("age", JS.VStr "30")]
     <> Ok tt
  /\ ValidationManager.validateItem cfg
       [("id", JS.VStr "1"); ("hasOwnProperty", JS.VNum 1)]
     = Err ValidationManager.NotAFunction.
Proof.
  intros cfg. split; [|split].
  - apply (proj1 (proj1 (validateItem_accepts_iff cfg
                           [("id", JS.VStr "1"); ("age", JS.VNum 30)]) eq_refl)).
    split; [|split].
    + intros f [<-|[]]. reflexivity.
    + intros f t [[= <- <-]|[]] _. reflexivity.
    + intros f v [].
  - intros H.
    apply (proj1 (proj1 (validateItem_accepts_iff cfg
                           [("id", JS.VStr "1"); ("age", JS.VStr "30")]) eq_refl))
      in H.
    destruct H as (_ & Ht & _).
    specialize (Ht "age" "number" (or_introl eq_refl) eq_refl). discriminate Ht.
  - apply (proj2 (validateItem_accepts_iff cfg
                    [("id", JS.VStr "1"); ("hasOwnProperty", JS.VNum 1)]));
      [reflexivity|left; discriminate].
Defined.

(* ===================================================================== *)
(** ** LockManager: a lock file that stays stale *)
(* ===================================================================== *)



(* ===================================================================== *)
(** ** BackupManager.cleanupOldBackups *)
(* ===================================================================== *)

Section BackupFacts.
Import BackupManager.

Let by_time (a b : file) : Z := snd a - snd b.

Lemma sort_insert_perm (x : file) (l : list file) :
  Permutation (JS.sort_insert by_time x l) (x :: l).
Proof.
  induction l as [|y l IH]; simpl; [reflexivity|].
  destruct (by_time x y <=? 0); [reflexivity|].
  rewrite IH. apply perm_swap.
Qed.

Lemma sort_perm (l : list file) : Permutation (JS.sort by_time l) l.
Proof.
  induction l as [|x l IH]; simpl; [reflexivity|].
  rewrite sort_insert_perm. now constructor.
Qed.

Lemma sort_insert_ascending (x : file) (l : list file) :
  ascending l -> ascending (JS.sort_insert by_time x l).
Proof.
  induction l as [|y l IH]; simpl; intros Hl; [auto|].
  destruct Hl as [Hy Hl]. unfold by_time at 1.
  destruct (Z.leb_spec (snd x - snd y) 0) as [Hle|Hgt]; simpl.
  - split; [|split; assumption].
    constructor; [lia|]. eapply Forall_impl; [exact Hy|]. simpl. intros g Hg. lia.
  - split; [|now apply IH].
    rewrite (Forall_forall (fun g => snd y <= snd g)). intros g Hg.
    apply list_elem_of_In in Hg.
    apply (Permutation_in _ (sort_insert_perm x l)) in Hg.
    destruct Hg as [<-|Hg]; [lia|].
    rewrite (Forall_forall (fun g => snd y <= snd g)) in Hy.
    apply Hy. now apply list_elem_of_In.
Qed.

Lemma sort_ascending (l : list file) : ascending (JS.sort by_time l).
Proof.
  induction l as [|x l IH]; simpl; [exact I|]. now apply sort_insert_ascending.
Qed.

Lemma ascending_app (l1 l2 : list file) f g :
  ascending (l1 ++ l2) -> In f l1 -> In g l2 -> snd f <= snd g.
Proof.
  induction l1 as [|x l1 IH]; simpl; intros Hasc Hf Hg; [destruct Hf|].
  destruct Hasc as [Hx Hasc]. destruct Hf as [<-|Hf]; [|now apply IH].
  rewrite (Forall_forall (fun g => snd x <= snd g)) in Hx. apply Hx.
  apply list_elem_of_In. apply in_or_app. now right.
Qed.

(** the names that a list of files holds *)
Let named (names : list string) (f : file) : bool :=
  existsb (String.eqb (fst f)) names.

Lemma named_in names (f : file) : named names f = true <-> In (fst f) names.
Proof.
  unfold named. rewrite existsb_exists. split.
  - intros (n & Hn & E). apply String.eqb_eq in E. now subst.
  - intros H. exists (fst f). split; [exact H|apply String.eqb_refl].
Qed.

Lemma unlink_all (removed : list file) : forall dir : list file,
  fold_left (fun d f => unlink (fst f) d) removed dir
  = List.filter (fun g => negb (named (map fst removed) g)) dir.
Proof.
  induction removed as [|r removed IH]; intros dir; simpl.
  - induction dir as [|g dir IHd]; simpl; [reflexivity|]. now rewrite <- IHd.
  - rewrite IH. unfold unlink.
    induction dir as [|g dir IHd]; simpl; [reflexivity|].
    unfold named at 2. simpl. fold (named (map fst removed) g).
    destruct (String.eqb (fst g) (fst r)); simpl.
    + exact IHd.
    + destruct (named (map fst removed) g); simpl; [exact IHd|now rewrite IHd].
Qed.

Lemma filter_filter_comm {A} (p q : A -> bool) (l : list A) :
  List.filter p (List.filter q l) = List.filter q (List.filter p l).
Proof.
  induction l as [|x l IH]; simpl; [reflexivity|].
  destruct (p x) eqn:Hp, (q x) eqn:Hq; simpl; rewrite ?Hp, ?Hq, IH; reflexivity.
Qed.

Lemma filter_none {A} (p : A -> bool) (l : list A) :
  (forall x, In x l -> p x = false) -> List.filter p l = [].
Proof.
  induction l as [|x l IH]; simpl; intros H; [reflexivity|].
  rewrite (H x) by now left. apply IH. intros y Hy. apply H. now right.
Qed.

Lemma filter_every {A} (p : A -> bool) (l : list A) :
  (forall x, In x l -> p x = true) -> List.filter p l = l.
Proof.
  induction l as [|x l IH]; simpl; intros H; [reflexivity|].
  rewrite (H x) by now left. f_equal. apply IH. intros y Hy. apply H. now right.
Qed.

Lemma filter_perm {A} (p : A -> bool) (l l' : list A) :
  Permutation l l' -> Permutation (List.filter p l) (List.filter p l').
Proof.
  induction 1 as [|x l l' _ IH|x y l|l l' l'' _ IH1 _ IH2]; simpl.
  - reflexivity.
  - destruct (p x); [now constructor|exact IH].
  - destruct (p x), (p y); try reflexivity. apply perm_swap.
  - now transitivity (List.filter p l').
Qed.

Lemma NoDup_names_app (l1 l2 : list file) :
  NoDup (map fst (l1 ++ l2)) ->
  forall g, In g l2 -> ~ In (fst g) (map fst l1).
Proof.
  rewrite map_app. intros Hnd g Hg Hin.
  apply NoDup_app in Hnd as (_ & Hdisj & _).
  apply (Hdisj (fst g)); apply list_elem_of_In; [exact Hin|].
  apply in_map_iff. now exists g.
Qed.

Lemma NoDup_names_filter (p : file -> bool) (dir : list file) :
  NoDup (map fst dir) -> NoDup (map fst (List.filter p dir)).
Proof.
  induction dir as [|f dir IH]; simpl; intros Hnd; [constructor|].
  apply NoDup_cons in Hnd as [Hnotin Hnd].
  destruct (p f); simpl; [|now apply IH].
  apply NoDup_cons. split; [|now apply IH].
  intros Hin. apply Hnotin. apply list_elem_of_In. apply list_elem_of_In in Hin.
  apply in_map_iff in Hin as (g & Hg & Hin). apply filter_In in Hin as [Hin _].
  apply in_map_iff. now exists g.
Qed.

(** what is left of the backups when [k] of them are removed *)
Lemma cleanup_split (maxBackups : nat) (dir : list file) :
  NoDup (map fst dir) ->
  (maxBackups < length (backups dir))%nat ->
  let sorted := JS.sort by_time (backups dir) in
  let k := (length sorted - maxBackups)%nat in
  cleanupOldBackups maxBackups dir
    = List.filter (fun g => negb (named (map fst (take k sorted)) g)) dir
  /\ Permutation (backups (cleanupOldBackups maxBackups dir)) (drop k sorted)
  /\ forall f, In f (backups dir) -> ~ In f (cleanupOldBackups maxBackups dir) ->
       In f (take k sorted).
Proof.
  intros Hnd Hlt sorted k.
  assert (cleanupOldBackups maxBackups dir
          = List.filter (fun g => negb (named (map fst (take k sorted)) g)) dir)
    as Hdir.
  { unfold cleanupOldBackups. fold (backups dir).
    destruct (Nat.ltb_spec maxBackups (length (backups dir))); [|lia].
    apply unlink_all. }
  pose proof (sort_perm (backups dir)) as Hperm. fold sorted in Hperm.
  assert (NoDup (map fst (take k sorted ++ drop k sorted))) as Hnames.
  { rewrite take_drop. rewrite Hperm. now apply NoDup_names_filter. }
  split; [exact Hdir|]. split.
  - rewrite Hdir. unfold backups. rewrite filter_filter_comm. fold (backups dir).
    rewrite (filter_perm _ _ _ (Permutation_sym Hperm)).
    rewrite <- (take_drop k sorted) at 1. rewrite List.filter_app.
    rewrite filter_none, filter_every; [reflexivity| |].
    + intros g Hg. apply negb_true_iff.
      destruct (named (map fst (take k sorted)) g) eqn:E; [|reflexivity].
      apply named_in in E. exfalso. exact (NoDup_names_app _ _ Hnames g Hg E).
    + intros g Hg. apply negb_false_iff. apply named_in.
      apply in_map_iff. now exists g.
  - intros f Hf Hgone. rewrite Hdir in Hgone.
    assert (In f dir) as Hin by (unfold backups in Hf; now apply filter_In in Hf).
    assert (In (fst f) (map fst (take k sorted))) as Hname.
    { destruct (named (map fst (take k sorted)) f) eqn:E; [now apply named_in|].
      exfalso. apply Hgone. apply filter_In. split; [exact Hin|]. now rewrite E. }
    assert (In f (take k sorted ++ drop k sorted)) as Hs.
    { rewrite take_drop. now apply (Permutation_in _ (Permutation_sym Hperm)). }
    apply in_app_or in Hs as [Hs|Hs]; [exact Hs|].
    exfalso. exact (NoDup_names_app _ _ Hnames f Hs Hname).
Qed.

End BackupFacts.

(** X28.  [cleanupOldBackups] keeps the newest backups: in a directory
    whose files have distinct names, when every removal succeeds, the
    number of backup files afterwards is the number before or [maxBackups],
    whichever is smaller; every backup removed is at most as recent as
    every backup kept; and the files that are no backups stay. *)
Theorem cleanup_keeps_the_newest_backups
    (maxBackups : nat) (dir : list BackupManager.file) :
  NoDup (map fst dir) ->
  let dir' := BackupManager.cleanupOldBackups maxBackups dir in
  length (BackupManager.backups dir')
    = Nat.min (length (BackupManager.backups dir)) maxBackups
  /\ BackupManager.others dir' = BackupManager.others dir
  /\ (forall g, In g dir' -> In g dir)
  /\ (forall f g,
        In f (BackupManager.backups dir) -> ~ In f dir' ->
        In g (BackupManager.backups dir') ->
        snd f <= snd g).
Proof.
  intros Hnd dir'.
  destruct (Nat.ltb_spec maxBackups (length (BackupManager.backups dir)))
    as [Hlt|Hge].
  - destruct (cleanup_split maxBackups dir Hnd Hlt) as (Hdir & Hkept & Hgone).
    fold dir' in Hdir, Hkept, Hgone.
    set (sorted := JS.sort _ (BackupManager.backups dir)) in *.
    set (k := (length sorted - maxBackups)%nat) in *.
    assert (length sorted = length (BackupManager.backups dir)) as Hlen
      by (apply Permutation_length, sort_perm).
    split; [|split; [|split]].
    + rewrite (Permutation_length Hkept), length_drop. lia.
    + rewrite Hdir. unfold BackupManager.others. rewrite filter_filter_comm.
      apply filter_every. intros g Hg. apply filter_In in Hg as [_ Hg].
      apply negb_true_iff.
      match goal with |- ?t = false => destruct t eqn:E end; [|reflexivity].
      exfalso.
      match type of E with
      | existsb _ ?names = true =>
          apply existsb_exists in E as (n & Hn & Hname)
      end.
      apply String.eqb_eq in Hname.
      apply in_map_iff in Hn as (r & <- & Hr).
      assert (In r (BackupManager.backups dir)) as Hb.
      { apply (Permutation_in _ (sort_perm _)). fold sorted.
        rewrite <- (take_drop k sorted). apply in_or_app. now left. }
      unfold BackupManager.backups in Hb. apply filter_In in Hb as [_ Hb].
      rewrite <- Hname in Hb. rewrite Hb in Hg. discriminate Hg.
    + intros g Hg. rewrite Hdir in Hg. now apply filter_In in Hg.
    + intros f g Hf Hno Hg.
      apply (ascending_app (take k sorted) (drop k sorted)).
      * rewrite take_drop. apply sort_ascending.
      * now apply Hgone.
      * now apply (Permutation_in _ Hkept).
  - assert (dir' = dir) as ->.
    { unfold dir', BackupManager.cleanupOldBackups.
      fold (BackupManager.backups dir).
      destruct (Nat.ltb_spec maxBackups (length (BackupManager.backups dir)));
        [lia|reflexivity]. }
    split; [lia|]. split; [reflexivity|]. split; [auto|].
    intros f g Hf Hno. exfalso. apply Hno.
    unfold BackupManager.backups in Hf. now apply filter_In in Hf.
Qed.

(** Three backups and the data file, with two backups allowed. *)
Lemma cleanup_keeps_the_newest_backups_witness :
  BackupManager.cleanupOldBackups 2
    [("backup-b.json", 20); ("database.json", 5); ("backup-a.json", 10);
     ("backup-c.json", 30)]
  = [("backup-b.json", 20); ("database.json", 5); ("backup-c.json", 30)]
  /\ length (BackupManager.backups
               (BackupManager.cleanupOldBackups 2
                  [("backup-b.json", 20); ("database.json", 5);
                   ("backup-a.json", 10); ("backup-c.json", 30)])) = 2%nat.
Proof.
  split; [reflexivity|].
  assert (NoDup (map fst [("backup-b.json", 20); ("database.json", 5);
                          ("backup-a.json", 10); ("backup-c.json", 30)]))
    as Hnd by distinct_names.
  exact (proj1 (cleanup_keeps_the_newest_backups 2 _ Hnd)).
Defined.

(* ===================================================================== *)
(** ** CSVFormat: tables of clean cells *)
(* ===================================================================== *)

Section CSVText.
Import JS CSVFormat.

Lemma rev_app_append (s : string) : forall acc x : string,
  String.rev_app s acc +:+ x = String.rev_app s (acc +:+ x).
Proof.
  induction s as [|a s IH]; intros acc x; [reflexivity|].
  simpl. rewrite IH. now rewrite app_cons.
Qed.

Lemma rev_cons_append a (cur x : string) :
  String.rev (String a cur) +:+ x = String.rev cur +:+ String a x.
Proof.
  unfold String.rev. simpl. rewrite !rev_app_append.
  now rewrite app_cons, !app_empty.
Qed.

Lemma prefix_char c a (s : string) :
  String.prefix (String c EmptyString) (String a s) = Ascii.eqb a c.
Proof.
  simpl. destruct (ascii_dec c a) as [->|Hne].
  - rewrite Ascii.eqb_refl. now destruct s.
  - symmetry. apply Ascii.eqb_neq. congruence.
Qed.

(** a piece without the separator, up to the end of the text *)
Lemma split_go_end c (x : string) : forall cur : string,
  lacks c x = true ->
  split_go (String c EmptyString) 0 cur x = [String.rev cur +:+ x].
Proof.
  induction x as [|a x IH]; intros cur Hx.
  - simpl. now rewrite app_empty_r.
  - simpl in Hx. apply andb_true_iff in Hx as [Ha Hx].
    cbn [split_go]. rewrite prefix_char.
    apply negb_true_iff in Ha. rewrite Ha.
    rewrite (IH _ Hx). now rewrite rev_cons_append.
Qed.

(** a piece without the separator, up to a separator *)
Lemma split_go_piece c (x rest : string) : forall cur : string,
  lacks c x = true ->
  split_go (String c EmptyString) 0 cur (x +:+ String c rest)
  = (String.rev cur +:+ x) :: split_go (String c EmptyString) 0 EmptyString rest.
Proof.
  induction x as [|a x IH]; intros cur Hx.
  - rewrite app_empty. cbn [split_go]. rewrite prefix_char, Ascii.eqb_refl.
    now rewrite app_empty_r.
  - simpl in Hx. apply andb_true_iff in Hx as [Ha Hx].
    rewrite app_cons. cbn [split_go]. rewrite prefix_char.
    apply negb_true_iff in Ha. rewrite Ha.
    rewrite (IH _ Hx). now rewrite rev_cons_append.
Qed.

(** [split] undoes [join] on pieces without the separator *)
Lemma split_join c (l : list string) : forall x : string,
  Forall (fun y => lacks c y = true) (x :: l) ->
  split (String c EmptyString) (join (String c EmptyString) (x :: l)) = x :: l.
Proof.
  unfold split.
  induction l as [|y l IH]; intros x Hall.
  - apply Forall_cons in Hall as [Hx _]. cbn [join].
    rewrite (split_go_end _ _ _ Hx). now rewrite app_empty.
  - apply Forall_cons in Hall as [Hx Hall].
    change (join (String c EmptyString) (x :: y :: l))
      with (x +:+ String c EmptyString +:+ join (String c EmptyString) (y :: l)).
    rewrite app_cons, app_empty.
    rewrite (split_go_piece _ _ _ _ Hx). rewrite (IH _ Hall).
    now rewrite app_empty.
Qed.

Lemma lacks_app c (a b : string) :
  lacks c (a +:+ b) = lacks c a && lacks c b.
Proof.
  induction a as [|x a IH]; [now rewrite app_empty|].
  rewrite app_cons. simpl. rewrite IH. now rewrite andb_assoc.
Qed.

Lemma lacks_join c d (l : list string) :
  Ascii.eqb d c = false ->
  Forall (fun y => lacks c y = true) l ->
  lacks c (join (String d EmptyString) l) = true.
Proof.
  intros Hd. induction l as [|x l IH]; intros Hall; [reflexivity|].
  apply Forall_cons in Hall as [Hx Hall].
  destruct l as [|y l]; [exact Hx|].
  change (join (String d EmptyString) (x :: y :: l))
    with (x +:+ String d EmptyString +:+ join (String d EmptyString) (y :: l)).
  rewrite !lacks_app, Hx, (IH Hall). simpl. now rewrite Hd.
Qed.

Lemma starts_ok_app (a b : string) : starts_ok a = true -> starts_ok (a +:+ b) = true.
Proof. destruct a as [|x a]; [discriminate|]. now rewrite app_cons. Qed.

Lemma ends_ok_app (a b : string) : ends_ok b = true -> ends_ok (a +:+ b) = true.
Proof.
  intros Hb. induction a as [|x a IH]; [now rewrite app_empty|].
  rewrite app_cons. cbn [ends_ok].
  destruct (a +:+ b) eqn:E; [discriminate IH|exact IH].
Qed.

Lemma edges_join sep (l : list string) : forall x : string,
  Forall (fun y => starts_ok y = true /\ ends_ok y = true) (x :: l) ->
  starts_ok (join sep (x :: l)) = true /\ ends_ok (join sep (x :: l)) = true.
Proof.
  induction l as [|y l IH]; intros x Hall.
  - apply Forall_cons in Hall as [Hx _]. exact Hx.
  - apply Forall_cons in Hall as [[Hs He] Hall].
    destruct (IH y Hall) as [_ IHe].
    change (join sep (x :: y :: l)) with (x +:+ sep +:+ join sep (y :: l)).
    split; [now apply starts_ok_app|]. now apply ends_ok_app, ends_ok_app.
Qed.

Lemma trim_end_id (s : string) : ends_ok s = true -> trim_end s = s.
Proof.
  induction s as [|a s IH]; [discriminate|].
  cbn [ends_ok trim_end]. destruct s as [|b s].
  - intros Ha. apply negb_true_iff in Ha. simpl. now rewrite Ha.
  - intros Hs. rewrite (IH Hs). reflexivity.
Qed.

Lemma trim_id (s : string) :
  starts_ok s = true -> ends_ok s = true -> trim s = s.
Proof.
  intros Hs He. unfold trim.
  destruct s as [|a s]; [discriminate|].
  simpl in Hs. apply negb_true_iff in Hs.
  cbn [trim_start]. rewrite Hs. now apply trim_end_id.
Qed.

Lemma clean_parts d (s : string) :
  clean d s = true ->
  starts_ok s = true /\ ends_ok s = true
  /\ lacks d s = true /\ lacks "010"%char s = true.
Proof.
  unfold clean. intros H.
  apply andb_true_iff in H as [H H4]. apply andb_true_iff in H as [H H3].
  apply andb_true_iff in H as [H1 H2]. auto.
Qed.

Lemma clean_trim d (s : string) : clean d s = true -> trim s = s.
Proof. intros H. apply clean_parts in H as (H1 & H2 & _). now apply trim_id. Qed.

Lemma clean_nonempty d (s : string) : clean d s = true -> s <> EmptyString.
Proof. intros H. apply clean_parts in H as (H1 & _). now destruct s. Qed.

(** the item that [parse] builds of a line of clean cells *)
Lemma item_of_cells d (hs : list string) : forall i (values : list string) (acc : obj),
  NoDup (map fst acc ++ hs) ->
  ~ In "__proto__" hs ->
  Forall (fun h => clean d h = true) hs ->
  Forall (fun v => clean d v = true) values ->
  (i + length hs <= length values)%nat ->
  item_of hs i values acc
  = acc ++ combine hs (map VStr (take (length hs) (drop i values))).
Proof.
  induction hs as [|h hs IH]; intros i values acc Hnd Hproto Hhs Hvs Hlen.
  - simpl. now rewrite app_nil_r.
  - apply Forall_cons in Hhs as [Hh Hhs]. simpl in Hlen.
    destruct (lookup_lt_is_Some_2 values i) as [v Hv]; [lia|].
    cbn [item_of length]. rewrite (clean_trim _ _ Hh). unfold assign.
    destruct (String.eqb_spec h "__proto__") as [->|_];
      [exfalso; apply Hproto; now left|].
    assert (cell_of values i = v) as ->.
    { unfold cell_of. rewrite Hv.
      rewrite Forall_forall in Hvs.
      assert (clean d v = true) as Hc by (eapply Hvs, list_elem_of_lookup_2; eauto).
      rewrite (clean_trim _ _ Hc).
      destruct (String.eqb_spec v EmptyString); [congruence|reflexivity]. }
    rewrite set_fresh.
    + rewrite IH.
      * rewrite (drop_S _ _ _ Hv). cbn [take map combine].
        now rewrite <- app_assoc.
      * rewrite map_app, <- app_assoc. exact Hnd.
      * intros Hin. apply Hproto. now right.
      * exact Hhs.
      * exact Hvs.
      * lia.
    + apply NoDup_app in Hnd as (_ & Hdisj & _).
      intros Hin. apply (Hdisj h); [now apply list_elem_of_In|]. left.
Qed.

Lemma get_combine (hs : list string) : forall (row : list string) h i v,
  NoDup hs -> hs !! i = Some h -> row !! i = Some v ->
  get h (combine hs (map VStr row)) = VStr v.
Proof.
  induction hs as [|h0 hs IH]; intros row h i v Hnd Hh Hv; [discriminate|].
  apply NoDup_cons in Hnd as [Hnotin Hnd].
  destruct row as [|v0 row]; [destruct i; discriminate|].
  destruct i as [|i]; simpl in Hh, Hv.
  - injection Hh as <-. injection Hv as <-. unfold get. simpl.
    now rewrite String.eqb_refl.
  - unfold get. simpl. destruct (String.eqb_spec h h0) as [->|Hne].
    + exfalso. apply Hnotin. eapply list_elem_of_lookup_2; eauto.
    + now apply (IH row h i v).
Qed.

End CSVText.

(** X29.  The CSV format reads back the tables it writes: for an array of
    at least one record, all with the same fields in the same order, whose
    field names and values are clean strings (not empty, no white space
    around them, neither the delimiter nor a line feed inside), no field
    being named [__proto__] (an assignment to which adds no field), under a
    delimiter of one character that is no white space, [serialize]
    produces a text and [parse] of this text is the array. *)
Theorem csv_reads_back_clean_tables
    (d : ascii) (headers : bool) (hs : list string) (rows : list (list string)) :
  let cfg := {| CSVFormat.headers := headers;
                CSVFormat.delimiter := String d EmptyString |} in
  let data := JS.VArr (map (CSVFormat.record_of hs) rows) in
  JS.is_space d = false ->
  hs <> [] -> rows <> [] -> NoDup hs -> ~ In "__proto__" hs ->
  Forall (fun h => CSVFormat.clean d h = true) hs ->
  Forall (fun row => length row = length hs
                     /\ Forall (fun v => CSVFormat.clean d v = true) row) rows ->
  exists text,
    CSVFormat.serialize cfg data = Some text
    /\ CSVFormat.parse cfg text = Some data.
Proof.
  intros cfg data Hd Hhs Hrows Hnd Hproto Hclean Hall.
  set (sep := String d EmptyString).
  set (NL := String "010"%char EmptyString).
  assert (Ascii.eqb d "010"%char = false) as Hdnl.
  { apply Ascii.eqb_neq. intros ->. discriminate Hd. }
  (* the lines of the text *)
  assert (forall row, In row rows ->
            CSVFormat.line_of cfg hs (CSVFormat.record_of hs row)
            = Some (JS.join sep row)) as Hline.
  { intros row Hin. rewrite Forall_forall in Hall.
    destruct (Hall row (proj2 (list_elem_of_In _ _) Hin)) as [Hlen Hcells].
    unfold CSVFormat.line_of.
    rewrite (mapM_Some_2 _ hs row); [reflexivity|].
    apply Forall2_same_length_lookup_2; [now symmetry|].
    intros i h v Hh Hv. unfold CSVFormat.field_of, CSVFormat.record_of.
    cbn [JS.prop]. rewrite (get_combine hs row h i v Hnd Hh Hv).
    cbn [JS.truthy JS.to_string].
    now destruct (String.eqb_spec v EmptyString) as [->|]. }
  assert (forall row, In row rows ->
            JS.own_keys (CSVFormat.record_of hs row) = Some hs) as Hkeys.
  { intros row Hin. rewrite Forall_forall in Hall.
    destruct (Hall row (proj2 (list_elem_of_In _ _) Hin)) as [Hlen _].
    unfold CSVFormat.record_of, JS.own_keys, JS.keys. f_equal.
    clear -Hlen. revert row Hlen.
    induction hs as [|h hs IH]; intros [|v row] Hlen; simpl in *;
      try discriminate; [reflexivity|]. f_equal. apply IH. lia. }
  destruct rows as [|row0 rows]; [now contradiction Hrows|].
  exists (JS.join NL (JS.join sep hs :: map (JS.join sep) (row0 :: rows))).
  split.
  - unfold CSVFormat.serialize, data. cbn [map].
    rewrite (Hkeys row0) by now left.
    change (CSVFormat.record_of hs row0 :: map (CSVFormat.record_of hs) rows)
      with (map (CSVFormat.record_of hs) (row0 :: rows)).
    rewrite (mapM_Some_2 _ _ (map (JS.join sep) (row0 :: rows))); [reflexivity|].
    apply Forall2_fmap. apply Forall_Forall2_diag.
    apply Forall_forall. intros row Hin. apply Hline. now apply list_elem_of_In.
  - (* every line is trimmed and holds no line feed *)
    assert (forall cells : list string,
              cells <> [] -> Forall (fun v => CSVFormat.clean d v = true) cells ->
              CSVFormat.starts_ok (JS.join sep cells) = true
              /\ CSVFormat.ends_ok (JS.join sep cells) = true
              /\ CSVFormat.lacks "010"%char (JS.join sep cells) = true
              /\ JS.split sep (JS.join sep cells) = cells) as Hcells.
    { intros [|c cells] Hne Hc; [now contradiction Hne|].
      destruct (edges_join sep cells c) as [Hs He].
      { eapply Forall_impl; [exact Hc|]. intros v Hv.
        apply clean_parts in Hv. tauto. }
      split; [exact Hs|]. split; [exact He|]. split.
      - apply lacks_join; [exact Hdnl|].
        eapply Forall_impl; [exact Hc|]. intros v Hv.
        apply clean_parts in Hv. tauto.
      - apply split_join.
        eapply Forall_impl; [exact Hc|]. intros v Hv.
        apply clean_parts in Hv. tauto. }
    assert (forall row, In row (row0 :: rows) ->
              row <> [] /\ Forall (fun v => CSVFormat.clean d v = true) row
              /\ length row = length hs) as Hrow.
    { intros row Hin. rewrite Forall_forall in Hall.
      destruct (Hall row (proj2 (list_elem_of_In _ _) Hin)) as [Hlen Hc].
      split; [|auto]. intros ->. destruct hs; [now contradiction Hhs|discriminate]. }
    destruct (Hcells hs Hhs Hclean) as (Hhs1 & Hhs2 & Hhs3 & Hhs4).
    assert (Forall (fun y => CSVFormat.starts_ok y = true
                             /\ CSVFormat.ends_ok y = true)
              (JS.join sep hs :: map (JS.join sep) (row0 :: rows))) as Hedges.
    { constructor; [auto|]. apply Forall_forall. intros line Hin.
      apply list_elem_of_In, in_map_iff in Hin as (row & <- & Hin).
      destruct (Hrow row Hin) as (Hne & Hc & _).
      destruct (Hcells row Hne Hc) as (H1 & H2 & _). auto. }
    assert (Forall (fun y => CSVFormat.lacks "010"%char y = true)
              (JS.join sep hs :: map (JS.join sep) (row0 :: rows))) as Hnl.
    { constructor; [auto|]. apply Forall_forall. intros line Hin.
      apply list_elem_of_In, in_map_iff in Hin as (row & <- & Hin).
      destruct (Hrow row Hin) as (Hne & Hc & _).
      destruct (Hcells row Hne Hc) as (_ & _ & H3 & _). exact H3. }
    destruct (edges_join NL _ _ Hedges) as [Ht1 Ht2].
    unfold CSVFormat.parse. rewrite (trim_id _ Ht1 Ht2).
    subst NL sep cfg data. rewrite (split_join _ _ _ Hnl).
    cbn [CSVFormat.delimiter]. rewrite Hhs4.
    f_equal. f_equal. rewrite map_map.
    apply map_ext_in. intros row Hin.
    destruct (Hrow row Hin) as (Hne & Hc & Hlen).
    destruct (Hcells row Hne Hc) as (_ & _ & _ & H4). rewrite H4.
    unfold CSVFormat.record_of. f_equal.
    rewrite (item_of_cells d hs 0 row []); [| |exact Hproto|exact Hclean|exact Hc|lia].
    + simpl drop. now rewrite <- Hlen, firstn_all.
    + exact Hnd.
Qed.

(** A table of two users under the default delimiter. *)
Lemma csv_reads_back_clean_tables_witness :
  let data :=
    JS.VArr [JS.VObj [("id", JS.VStr "1"); ("name", JS.VStr "Ann Lee")];
             JS.VObj [("id", JS.VStr "2"); ("name", JS.VStr "Bo")]] in
  exists text,
    CSVFormat.serialize CSVFormat.default data = Some text
    /\ CSVFormat.parse CSVFormat.default text = Some data.
Proof.
  intros data.
  assert (NoDup ["id"; "name"]) as Hnd by distinct_names.
  apply (csv_reads_back_clean_tables ","%char true ["id"; "name"]
           [["1"; "Ann Lee"]; ["2"; "Bo"]]);
    [reflexivity|discriminate|discriminate|exact Hnd| | |].
  - simpl. intros [H|[H|[]]]; discriminate H.
  - repeat constructor.
  - repeat constructor.
Defined.

(* ===================================================================== *)
(** ** GitDB.sort: the order of the result *)
(* ===================================================================== *)

Section Sorting.
Context {A : Type} (cmp : A -> A -> Z) (f : A -> Z) (P : A -> Prop).
Hypothesis cmp_by_measure :
  forall x y, P x -> P y -> (cmp x y <=? 0) = (f x <=? f y).

Lemma insertion_perm (x : A) (l : list A) :
  Permutation (JS.sort_insert cmp x l) (x :: l).
Proof.
  induction l as [|y l IH]; simpl; [reflexivity|].
  destruct (cmp x y <=? 0); [reflexivity|].
  rewrite IH. apply perm_swap.
Qed.

Lemma sorted_perm (l : list A) : Permutation (JS.sort cmp l) l.
Proof.
  induction l as [|x l IH]; simpl; [reflexivity|].
  rewrite insertion_perm. now constructor.
Qed.

Lemma insertion_ascending (x : A) (l : list A) :
  P x -> Forall P l ->
  GitDB.ascending_by f l -> GitDB.ascending_by f (JS.sort_insert cmp x l).
Proof.
  intros Hx. induction l as [|y l IH]; simpl; intros HP Hl; [auto|].
  apply Forall_cons in HP as [Hy HP]. destruct Hl as [Hall Hl].
  rewrite (cmp_by_measure x y Hx Hy).
  destruct (Z.leb_spec (f x) (f y)) as [Hle|Hgt]; simpl.
  - split; [|split; assumption].
    constructor; [exact Hle|]. eapply Forall_impl; [exact Hall|].
    simpl. intros z Hz. lia.
  - split; [|now apply IH].
    rewrite (Forall_forall (fun z => f y <= f z)). intros z Hz.
    apply list_elem_of_In in Hz.
    apply (Permutation_in _ (insertion_perm x l)) in Hz.
    destruct Hz as [<-|Hz]; [lia|].
    rewrite (Forall_forall (fun z => f y <= f z)) in Hall.
    apply Hall. now apply list_elem_of_In.
Qed.

Lemma sorted_ascending (l : list A) :
  Forall P l -> GitDB.ascending_by f (JS.sort cmp l).
Proof.
  induction l as [|x l IH]; simpl; intros HP; [exact I|].
  apply Forall_cons in HP as [Hx HP].
  apply insertion_ascending; [exact Hx| |now apply IH].
  rewrite Forall_forall in *. intros z Hz. apply HP.
  apply list_elem_of_In. apply list_elem_of_In in Hz.
  now apply (Permutation_in _ (sorted_perm l)).
Qed.

End Sorting.

Section SortKeys.
Import JS GitDB.

Lemma compare_by_numbers sortBy order (a b : obj) :
  (exists n, get sortBy a = VNum n) -> (exists n, get sortBy b = VNum n) ->
  (compare_by sortBy order a b <=? 0)
  = if String.eqb order "desc"
    then (- number_at sortBy a <=? - number_at sortBy b)
    else (number_at sortBy a <=? number_at sortBy b).
Proof.
  intros [x Hx] [y Hy]. unfold compare_by, number_at. rewrite Hx, Hy.
  unfold gt, lt. cbn [to_primitive to_number].
  destruct (String.eqb order "desc");
    destruct (Z.ltb_spec x y), (Z.ltb_spec y x); simpl;
    try lia;
    match goal with
    | |- _ = (?u <=? ?v) => destruct (Z.leb_spec u v); try reflexivity; lia
    end.
Qed.

End SortKeys.

(** X30.  [sort] by a key returns the records of the collection that
    [read] returns, each once, in the order of the key: when the values
    under the key are numbers, in non-decreasing order, and in
    non-increasing order when the order is ['desc']. *)
Theorem sort_orders_by_numeric_key
    (cfg : GitDB.config) (now : Z) (collection sortBy order : string)
    (st : GitDB.state) :
  let items := GitDB.deref (snd (GitDB.read cfg now collection [] st))
                 (fst (GitDB.read cfg now collection [] st)) in
  let sorted := GitDB.deref (snd (GitDB.sort cfg now collection sortBy order st))
                  (fst (GitDB.sort cfg now collection sortBy order st)) in
  Forall (fun item => exists n, JS.get sortBy item = JS.VNum n) items ->
  Permutation sorted items
  /\ GitDB.ascending_by
       (fun item => if String.eqb order "desc"
                    then - GitDB.number_at sortBy item
                    else GitDB.number_at sortBy item)
       sorted.
Proof.
  intros items sorted Hnum. subst items sorted. unfold GitDB.sort.
  destruct (GitDB.read cfg now collection [] st) as [loc st1].
  cbn [fst snd] in *. unfold GitDB.sort_in_place. cbn [fst snd].
  assert (forall h items,
            GitDB.deref {| GitDB.storage := GitDB.storage st1;
                           GitDB.heap := <[loc:=items]> h;
                           GitDB.next := GitDB.next st1;
                           GitDB.cache := GitDB.cache st1 |} loc = items) as Hloc.
  { intros h items. unfold GitDB.deref. cbn [GitDB.heap].
    now rewrite lookup_insert_eq. }
  rewrite !Hloc. split; [apply sorted_perm|].
  apply (sorted_ascending _ _ (fun item => exists n, JS.get sortBy item = JS.VNum n));
    [|exact Hnum].
  intros x y Hx Hy. rewrite (compare_by_numbers _ _ _ _ Hx Hy).
  now destruct (String.eqb order "desc").
Qed.

(** Two users are sorted by age. *)
Lemma sort_orders_by_numeric_key_witness :
  let cfg := {| GitDB.validation := ValidationManager.default;
                GitDB.cacheTimeout := 300000 |} in
  let u1 := [("id", JS.VStr "1"); ("age", JS.VNum 30)] in
  let u2 := [("id", JS.VStr "2"); ("age", JS.VNum 20)] in
  let st := {| GitDB.storage := [("users", [u1; u2])];
               GitDB.heap := ∅; GitDB.next := 0; GitDB.cache := ∅ |} in
  GitDB.deref (snd (GitDB.sort cfg 0 "users" "age" "asc" st))
    (fst (GitDB.sort cfg 0 "users" "age" "asc" st)) = [u2; u1]
  /\ GitDB.ascending_by (GitDB.number_at "age")
       (GitDB.deref (snd (GitDB.sort cfg 0 "users" "age" "asc" st))
          (fst (GitDB.sort cfg 0 "users" "age" "asc" st))).
Proof.
  intros cfg u1 u2 st. split; [reflexivity|].
  assert (Forall (fun item => exists n, JS.get "age" item = JS.VNum n)
            (GitDB.deref (snd (GitDB.read cfg 0 "users" [] st))
               (fst (GitDB.read cfg 0 "users" [] st)))) as Hnum.
  { repeat constructor; eexists; reflexivity. }
  exact (proj2 (sort_orders_by_numeric_key cfg 0 "users" "age" "asc" st Hnum)).
Defined.
